(** * Clawtick CLI: validators, config store, API client and command actions

  A shallow embedding of the TypeScript sources
  - [validation.ts]  (field validators),
  - [api-client.ts]  ([loadConfig], [saveConfig], [ApiClient]),
  - [cli.ts]         (the command actions),
  together with the properties the specification states about them.

  Conventions of the embedding.
  - A JavaScript string is a Rocq [string]; the string functions
    ([trim], [length], [toLowerCase], [toUpperCase], the class [\s]) are
    those of JavaScript on ASCII text, where they do not depend on Unicode
    tables.  A statement that depends on them is made for ASCII input
    ([Props.ascii_only]).
  - A value read from JSON is a [json]; JavaScript objects are finite maps
    from property names to values ([gmap string json]); [undefined] is the
    [None] of [option json].
  - Numbers are integers ([Z]): HTTP statuses, counters and millisecond
    timestamps.
  - Effects (console, file system, network, clock, [process.exit], thrown
    errors) are threaded through a small state-and-exception monad. *)

From Stdlib Require Import ZArith String Ascii List Lia Bool.
From stdpp Require Import base option list gmap strings pretty.

Set Warnings "-register-all".
Set Default Proof Using "Type".

Local Open Scope Z_scope.

(* ================================================================== *)
(** * JavaScript strings *)
(* ================================================================== *)

Module JsString.

(** Line feed, written [\n] in the sources. *)
Definition nl : string := String (ascii_of_nat 10) EmptyString.

(** [\s] on ASCII: TAB, LF, VT, FF, CR and SPACE.  In JavaScript the class
    also holds the Unicode white space (U+00A0, U+FEFF and others), which
    ASCII text does not contain. *)
Definition is_space (c : ascii) : bool := Ascii.is_space c.

(** [\d] and [[0-9]]. *)
Definition is_digit (c : ascii) : bool :=
  let n := nat_of_ascii c in (48 <=? n)%nat && (n <=? 57)%nat.

Definition is_lower (c : ascii) : bool :=
  let n := nat_of_ascii c in (97 <=? n)%nat && (n <=? 122)%nat.

Definition is_upper (c : ascii) : bool :=
  let n := nat_of_ascii c in (65 <=? n)%nat && (n <=? 90)%nat.

Definition lower_char (c : ascii) : ascii :=
  if is_upper c then ascii_of_nat (nat_of_ascii c + 32) else c.

Definition upper_char (c : ascii) : ascii :=
  if is_lower c then ascii_of_nat (nat_of_ascii c - 32) else c.

Fixpoint map_chars (f : ascii -> ascii) (s : string) : string :=
  match s with
  | EmptyString => EmptyString
  | String c s' => String (f c) (map_chars f s')
  end.

(** [s.toLowerCase()] and [s.toUpperCase()] for ASCII text: only the
    letters [A] to [Z] and [a] to [z] change. *)
Definition toLowerCase : string -> string := map_chars lower_char.
Definition toUpperCase : string -> string := map_chars upper_char.

(** [s.trimStart()], [s.trimEnd()], [s.trim()]. *)
Fixpoint trimStart (s : string) : string :=
  match s with
  | EmptyString => EmptyString
  | String c s' => if is_space c then trimStart s' else s
  end.

Definition trimEnd (s : string) : string :=
  String.rev (trimStart (String.rev s)).

Definition trim (s : string) : string := trimEnd (trimStart s).

(** [s.length] for ASCII text, where a character is one UTF-16 code
    unit. *)
Definition length (s : string) : Z := Z.of_nat (String.length s).

(** [s.split(/\s+/)]: the pieces between maximal runs of white space.  A
    leading or trailing run leaves an empty first or last piece, and the
    empty string splits into one empty piece.  [cur] is the piece being
    read, reversed; [in_sep] tells that the previous character was white
    space. *)
Fixpoint split_ws_go (in_sep : bool) (cur : string) (s : string)
  : list string :=
  match s with
  | EmptyString => [String.rev cur]
  | String c s' =>
      if is_space c then
        if in_sep then split_ws_go true EmptyString s'
        else String.rev cur :: split_ws_go true EmptyString s'
      else split_ws_go false (String c cur) s'
  end.

Definition split_ws (s : string) : list string :=
  split_ws_go false EmptyString s.

(** [xs.join(", ")]. *)
Fixpoint join (sep : string) (xs : list string) : string :=
  match xs with
  | [] => EmptyString
  | [x] => x
  | x :: rest => x +:+ sep +:+ join sep rest
  end.

(** [xs.includes(s)]. *)
Definition includes (xs : list string) (s : string) : bool :=
  existsb (String.eqb s) xs.

(** Truthiness of a string: only the empty string is falsy. *)
Definition nonempty (s : string) : bool :=
  match s with EmptyString => false | _ => true end.

End JsString.

(* ================================================================== *)
(** * Regular expressions *)
(* ================================================================== *)

(** The patterns of [validation.ts] are all anchored at both ends
  ([/^...$/]) and use no flags, so [pattern.test(s)] holds exactly when the
  whole of [s] belongs to the language of the pattern.  Patterns are
  written as syntax trees and run by Brzozowski derivatives. *)

Module Regex.

Inductive regex : Type :=
| Void                                (* matches nothing *)
| Eps                                 (* the empty string *)
| Class (p : ascii -> bool)           (* one character of a class *)
| Seq (r1 r2 : regex)                 (* r1 r2 *)
| Alt (r1 r2 : regex)                 (* r1|r2 *)
| Star (r : regex).                   (* r* *)

Definition Chr (c : ascii) : regex := Class (Ascii.eqb c).
Definition Plus (r : regex) : regex := Seq r (Star r).       (* r+ *)
Definition Opt (r : regex) : regex := Alt r Eps.             (* r? *)

(** [r{0,n}] and [r{m,n}] (for [m <= n]). *)
Fixpoint Upto (n : nat) (r : regex) : regex :=
  match n with
  | O => Eps
  | S n' => Opt (Seq r (Upto n' r))
  end.

Fixpoint Times (m : nat) (r rest : regex) : regex :=
  match m with
  | O => rest
  | S m' => Seq r (Times m' r rest)
  end.

Definition Repeat (m n : nat) (r : regex) : regex :=
  Times m r (Upto (n - m) r).

(** Declarative meaning: the strings of the language of a pattern. *)
Inductive Matches : regex -> string -> Prop :=
| MEps : Matches Eps EmptyString
| MClass p c : p c = true -> Matches (Class p) (String c EmptyString)
| MSeq r1 r2 s1 s2 :
    Matches r1 s1 -> Matches r2 s2 -> Matches (Seq r1 r2) (s1 +:+ s2)
| MAltL r1 r2 s : Matches r1 s -> Matches (Alt r1 r2) s
| MAltR r1 r2 s : Matches r2 s -> Matches (Alt r1 r2) s
| MStar0 r : Matches (Star r) EmptyString
| MStarS r s1 s2 :
    Matches r s1 -> Matches (Star r) s2 -> Matches (Star r) (s1 +:+ s2).

Fixpoint nullable (r : regex) : bool :=
  match r with
  | Void => false
  | Eps => true
  | Class _ => false
  | Seq r1 r2 => nullable r1 && nullable r2
  | Alt r1 r2 => nullable r1 || nullable r2
  | Star _ => true
  end.

Fixpoint deriv (c : ascii) (r : regex) : regex :=
  match r with
  | Void => Void
  | Eps => Void
  | Class p => if p c then Eps else Void
  | Seq r1 r2 =>
      if nullable r1 then Alt (Seq (deriv c r1) r2) (deriv c r2)
      else Seq (deriv c r1) r2
  | Alt r1 r2 => Alt (deriv c r1) (deriv c r2)
  | Star r1 => Seq (deriv c r1) (Star r1)
  end.

(** [/^r$/.test(s)]. *)
Fixpoint test (r : regex) (s : string) : bool :=
  match s with
  | EmptyString => nullable r
  | String c s' => test (deriv c r) s'
  end.

End Regex.

(* ================================================================== *)
(** * JSON values and the JavaScript runtime *)
(* ================================================================== *)

Module Js.

(** A value produced by [JSON.parse].  Objects are finite maps; the order of
    their properties is not modelled. *)
Inductive json : Type :=
| JNull
| JBool (b : bool)
| JNum (n : Z)
| JStr (s : string)
| JArr (items : list json)
| JObj (props : gmap string json).

(** A JavaScript value that may be [undefined]. *)
Abbreviation jsval := (option json).
Abbreviation undefined := (@None json).

(** [typeof v]. *)
Definition typeof (v : json) : string :=
  match v with
  | JNull => "object"
  | JBool _ => "boolean"
  | JNum _ => "number"
  | JStr _ => "string"
  | JArr _ => "object"
  | JObj _ => "object"
  end.

(** [Array.isArray(v)]. *)
Definition isArray (v : json) : bool :=
  match v with JArr _ => true | _ => false end.

(** Truthiness, as tested by [if (v)], [!v], [a || b] and [a && b]. *)
Definition truthy (v : json) : bool :=
  match v with
  | JNull => false
  | JBool b => b
  | JNum n => negb (n =? 0)
  | JStr s => JsString.nonempty s
  | JArr _ => true
  | JObj _ => true
  end.

Definition truthy_val (v : jsval) : bool :=
  match v with Some x => truthy x | None => false end.

(** [v.k] for a property name [k] that no prototype defines (the names read
    by the sources: [error], [jobs], [id], [apiKey], ...).  Reading a
    property of [null] throws a [TypeError], here the outer [None]; an object
    gives its own property or [undefined]; numbers, booleans, strings and
    arrays have no such property. *)
Definition get_prop (v : json) (k : string) : option jsval :=
  match v with
  | JNull => None
  | JObj m => Some (m !! k)
  | _ => Some undefined
  end.

(** The own enumerable properties copied by a spread [{...v}]: those of an
    object, the indexed elements of an array, the indexed characters of a
    string, none for [null], numbers and booleans. *)
Definition indexed {A : Type} (f : A -> json) (xs : list A)
  : gmap string json :=
  list_to_map (imap (fun i x => (pretty i, f x)) xs).

Definition chars (s : string) : list string :=
  map (fun c => String c EmptyString) (list_ascii_of_string s).

Definition own_props (v : json) : gmap string json :=
  match v with
  | JObj m => m
  | JArr items => indexed id items
  | JStr s => indexed JStr (chars s)
  | _ => ∅
  end.

(** [{...a, ...b}] for two values [a] and [b]: the properties of [b]
    override those of [a]. *)
Definition spread2 (a b : json) : json :=
  JObj (own_props b ∪ own_props a).

(** [Object.entries(v)]; [None] is the [TypeError] thrown for [null].  The
    entries come in the order of the finite map: the property order of
    JavaScript is not kept. *)
Definition entries (v : json) : option (list (string * json)) :=
  match v with
  | JNull => None
  | other => Some (map_to_list (own_props other))
  end.

(** The functions of the JavaScript runtime that the sources call and whose
    result is not computed here. *)
Class Platform : Type := {
  (** [JSON.parse(text)]; [None] when it throws a [SyntaxError]. *)
  JSON_parse : string -> option json;
  (** [JSON.stringify(v, null, indent)]; [JSON.stringify(v)] is indent 0. *)
  JSON_stringify : json -> Z -> string;
  (** [new URL(s).protocol]; [None] when the constructor throws. *)
  URL_protocol : string -> option string;
  (** [new Date(v).getTime()]; [None] is [NaN] (an invalid date). *)
  Date_getTime : json -> option Z;
  (** [new Date(v).toLocaleString()]. *)
  Date_toLocaleString : json -> string;
  (** [String(v)] for a value that is not a string. *)
  String_of : json -> string;
  (** [Number(v)] for a string, an array or an object; [None] is [NaN]. *)
  Number_of : json -> option Z;
}.

(** [String(v)], the conversion of template literals and of [new Error(v)]. *)
Definition to_string `{Platform} (v : json) : string :=
  match v with
  | JStr s => s
  | other => String_of other
  end.

(** A template literal slot [${v}]. *)
Definition template `{Platform} (v : jsval) : string :=
  match v with
  | Some x => to_string x
  | None => "undefined"
  end.

(** [Number(v)]; [None] is [NaN]. *)
Definition to_number `{Platform} (v : jsval) : option Z :=
  match v with
  | None => None
  | Some JNull => Some 0
  | Some (JBool b) => Some (if b then 1 else 0)
  | Some (JNum n) => Some n
  | Some other => Number_of other
  end.

(** [a > b] for a value [a] and a number [b]: false when [a] is [NaN]. *)
Definition js_gt `{Platform} (a : jsval) (b : Z) : bool :=
  match to_number a with
  | Some n => b <? n
  | None => false
  end.

(** [v === s] for a string [s]. *)
Definition strict_eq_string (v : jsval) (s : string) : bool :=
  match v with
  | Some (JStr x) => String.eqb x s
  | _ => false
  end.

(** An object literal with the given properties, later ones overriding. *)
Definition obj (kvs : list (string * json)) : json :=
  JObj (list_to_map (rev kvs)).

End Js.

(* ================================================================== *)
(** * validation.ts *)
(* ================================================================== *)

Module Validation.
Import JsString Regex Js.

(** The result type [{ valid: boolean; error?: string }]. *)
Record ValidationResult : Type := {
  valid : bool;
  error : option string;
}.

Definition accept : ValidationResult := {| valid := true; error := None |}.
Definition reject (msg : string) : ValidationResult :=
  {| valid := false; error := Some msg |}.

(** The double quote character, for the messages that contain one. *)
Definition dq : string := String (ascii_of_nat 34) EmptyString.

Definition digit : regex := Class is_digit.

(** [(\*|[0-9]+(-[0-9]+)?(\/[0-9]+)?)]: one item of a cron field. *)
Definition cronItem : regex :=
  Alt (Chr "*")
      (Seq (Plus digit)
           (Seq (Opt (Seq (Chr "-") (Plus digit)))
                (Opt (Seq (Chr "/") (Plus digit))))).

(** [/^(\*|[0-9]+(-[0-9]+)?(\/[0-9]+)?)(,(\*|[0-9]+(-[0-9]+)?(\/[0-9]+)?))*$/] *)
Definition fieldPattern : regex :=
  Seq cronItem (Star (Seq (Chr ",") cronItem)).

Definition cronFieldCountError (n : Z) : string :=
  "Invalid cron expression: expected 5 fields, got " +:+ pretty n +:+ nl +:+ nl
  +:+ "Examples:" +:+ nl
  +:+ "  */5 * * * * - Every 5 minutes" +:+ nl
  +:+ "  0 9 * * * - Every day at 9 AM" +:+ nl
  +:+ "  0 9 * * 1-5 - Every weekday at 9 AM" +:+ nl +:+ nl
  +:+ "Use https://crontab.guru to build expressions.".

Definition cronFieldError (part : string) : string :=
  "Invalid cron field: " +:+ dq +:+ part +:+ dq +:+ nl +:+ nl
  +:+ "Use https://crontab.guru to build expressions.".

(** The test of the loop body: [part !== '?' && !fieldPattern.test(part)]. *)
Definition badCronField (part : string) : bool :=
  negb (String.eqb part "?") && negb (test fieldPattern part).

Definition validateCronExpression (cron : string) : ValidationResult :=
  if negb (nonempty cron) then reject "Cron expression is required"
  else
    let trimmed := trim cron in
    if (length trimmed =? 0) then reject "Cron expression cannot be empty"
    else
      let parts := split_ws trimmed in
      let count := Z.of_nat (List.length parts) in
      if (count <? 5) || (6 <? count)
      then reject (cronFieldCountError count)
      else
        match List.find badCronField parts with
        | Some part => reject (cronFieldError part)
        | None => accept
        end.

(** [/^[a-zA-Z0-9\s\-_]+$/] *)
Definition jobNameChar (c : ascii) : bool :=
  is_lower c || is_upper c || is_digit c || is_space c
  || Ascii.eqb c "-" || Ascii.eqb c "_".

Definition jobNamePattern : regex := Plus (Class jobNameChar).

Definition validateJobName (name : string) : ValidationResult :=
  if negb (nonempty name) then reject "Job name is required"
  else
    let trimmed := trim name in
    if (length trimmed =? 0) then reject "Job name cannot be empty"
    else if (100 <? length trimmed)
    then reject "Job name must be 100 characters or less"
    else if negb (test jobNamePattern trimmed)
    then reject "Job name can only contain letters, numbers, spaces, hyphens, and underscores"
    else accept.

Definition validateMessage (message : string) : ValidationResult :=
  if negb (nonempty message) then reject "Message is required"
  else
    let trimmed := trim message in
    if (length trimmed =? 0) then reject "Message cannot be empty"
    else if (5000 <? length trimmed)
    then reject "Message must be 5000 characters or less"
    else accept.

Definition validChannels : list string :=
  [ "whatsapp"; "telegram"; "slack"; "discord"; "signal"; "imessage";
    "googlechat"; "mattermost"; "matrix"; "nostr"; "msteams"; "line";
    "zalo"; "bluebubbles"; "nextcloud-talk" ].

Definition validateChannel (channel : string) : ValidationResult :=
  let trimmed := toLowerCase (trim channel) in
  if negb (includes validChannels trimmed)
  then reject ("Invalid channel: " +:+ channel +:+ nl +:+ nl
               +:+ "Valid channels:" +:+ nl +:+ "  "
               +:+ join ", " validChannels)
  else accept.

(** [/^-?\d+$/] *)
Definition chatIdPattern : regex := Seq (Opt (Chr "-")) (Plus digit).

Definition validateTelegramChatId (chatId : string) : ValidationResult :=
  if negb (nonempty chatId)
  then reject "Telegram chat ID is required when using Telegram channel"
  else if negb (test chatIdPattern (trim chatId))
  then reject ("Invalid Telegram chat ID format. Must be a number." +:+ nl +:+ nl
               +:+ "Get your chat ID from @userinfobot on Telegram.")
  else accept.

(** [/^\+[1-9]\d{1,14}$/] *)
Definition is_digit_1_9 (c : ascii) : bool :=
  let n := nat_of_ascii c in (49 <=? n)%nat && (n <=? 57)%nat.

Definition phonePattern : regex :=
  Seq (Chr "+") (Seq (Class is_digit_1_9) (Repeat 1 14 digit)).

Definition validatePhoneNumber (phone : string) : ValidationResult :=
  if negb (nonempty phone) then reject "Phone number is required"
  else if negb (test phonePattern (trim phone))
  then reject "Invalid phone number format. Must be in E.164 format (e.g., +15555551234)"
  else accept.

Definition validateAgentId (agentId : string) : ValidationResult :=
  if negb (nonempty agentId) then reject "Agent ID is required"
  else
    let trimmed := trim agentId in
    if (length trimmed =? 0) then reject "Agent ID cannot be empty"
    else if (50 <? length trimmed)
    then reject "Agent ID must be 50 characters or less"
    else accept.

(** [/^\d+-[a-z0-9]+$/] *)
Definition jobIdTailChar (c : ascii) : bool := is_lower c || is_digit c.

Definition jobIdPattern : regex :=
  Seq (Plus digit) (Seq (Chr "-") (Plus (Class jobIdTailChar))).

Definition validateJobId (jobId : string) : ValidationResult :=
  if negb (nonempty jobId) then reject "Job ID is required"
  else
    let trimmed := trim jobId in
    if (length trimmed =? 0) then reject "Job ID cannot be empty"
    else if negb (test jobIdPattern trimmed)
    then reject ("Invalid job ID format. Use " +:+ dq +:+ "clawtick list" +:+ dq
                 +:+ " to see valid job IDs.")
    else accept.

Definition validTypes : list string := [ "openclaw"; "webhook" ].

Definition validateIntegrationType (type : string) : ValidationResult :=
  if negb (nonempty type) then reject "Integration type is required"
  else
    let trimmed := toLowerCase (trim type) in
    if negb (includes validTypes trimmed)
    then reject ("Invalid integration type: " +:+ type +:+ nl +:+ nl
                 +:+ "Valid types:" +:+ nl +:+ "  " +:+ join ", " validTypes)
    else accept.

Definition validMethods : list string := [ "GET"; "POST"; "PUT"; "DELETE" ].

Definition validateWebhookMethod (method : string) : ValidationResult :=
  if negb (nonempty method)
  then reject "Webhook method is required for webhook integration"
  else
    let upperMethod := toUpperCase (trim method) in
    if negb (includes validMethods upperMethod)
    then reject ("Invalid HTTP method: " +:+ method +:+ nl +:+ nl
                 +:+ "Valid methods:" +:+ nl +:+ "  " +:+ join ", " validMethods)
    else accept.

Definition validateWebhookBody (body : string) : ValidationResult :=
  if negb (nonempty body) then reject "Webhook body must be a string"
  else
    let trimmed := trim body in
    if (length trimmed =? 0) then reject "Webhook body cannot be empty"
    else if (10000 <? length trimmed)
    then reject "Webhook body must be 10000 characters or less"
    else accept.

Section WithPlatform.
Context `{Platform}.

Definition validateWebhookUrl (url : string) : ValidationResult :=
  if negb (nonempty url)
  then reject "Webhook URL is required for webhook integration"
  else
    let trimmed := trim url in
    if (length trimmed =? 0) then reject "Webhook URL cannot be empty"
    else
      match URL_protocol trimmed with
      | Some protocol =>
          if negb (includes [ "http:"; "https:" ] protocol)
          then reject "Webhook URL must use HTTP or HTTPS protocol"
          else accept
      | None =>
          reject "Invalid webhook URL format. Must be a valid HTTP/HTTPS URL."
      end.

Definition headersExample : string :=
  "{" +:+ dq +:+ "Authorization" +:+ dq +:+ ": " +:+ dq +:+ "Bearer token"
  +:+ dq +:+ "}".

Definition headersNotObjectError : string :=
  "Webhook headers must be a JSON object (e.g., " +:+ headersExample +:+ ")".

Definition headersInvalidJsonError : string :=
  "Invalid JSON format for webhook headers. Example: " +:+ headersExample.

Definition headerValueError (key : string) : string :=
  "Invalid header value for " +:+ dq +:+ key +:+ dq +:+ ": must be a string".

Definition notStringEntry (kv : string * json) : bool :=
  negb (String.eqb (typeof (snd kv)) "string").

(** The body of the [try]: the [catch] turns both the [SyntaxError] of
    [JSON.parse] and the [TypeError] of [Object.entries(null)] into the
    invalid-JSON message.  When several headers have a value that is not a
    string, the one that the message names is the first in the order of
    [entries], which need not be the first of the JSON text; the verdict
    does not depend on it. *)
Definition validateWebhookHeaders (headers : string) : ValidationResult :=
  if negb (nonempty headers) then reject "Webhook headers must be a JSON string"
  else
    let trimmed := trim headers in
    if (length trimmed =? 0) then reject "Webhook headers cannot be empty"
    else
      match JSON_parse trimmed with
      | None => reject headersInvalidJsonError
      | Some parsed =>
          if negb (String.eqb (typeof parsed) "object") || isArray parsed
          then reject headersNotObjectError
          else
            match entries parsed with
            | None => reject headersInvalidJsonError
            | Some kvs =>
                match List.find notStringEntry kvs with
                | Some kv => reject (headerValueError (fst kv))
                | None => accept
                end
            end
      end.

End WithPlatform.

End Validation.

(* ================================================================== *)
(** * Effects *)
(* ================================================================== *)

Module Runtime.
Import Js Validation.

(** A thrown JavaScript error: its [name] and its [message]. *)
Record js_error : Type := mkError { err_name : string; err_message : string }.

Definition Error (msg : string) : js_error := mkError "Error" msg.
Definition TypeError (msg : string) : js_error := mkError "TypeError" msg.
Definition SyntaxError (msg : string) : js_error := mkError "SyntaxError" msg.

(** One call of [fetch(url, { method, headers, body })]. *)
Record http_request : Type := {
  req_method : string;
  req_url : string;
  req_authorization : string;
  req_body : option string;
}.

(** What [fetch] gives back: a rejected promise, or a response with its
    status and the text of its body. *)
Inductive fetch_result : Type :=
| FetchFailed (msg : string)
| Response (status : Z) (body : string).

(** The methods of an [ora] spinner that print. *)
Inductive spinner_method : Type := Start | SetText | Succeed | Fail | Warn | Info.

(** What the program prints. *)
Inductive output : Type :=
| ConsoleLog (text : string)                  (* console.log *)
| ConsoleError (text : string)                (* console.error *)
| Spinner (m : spinner_method) (text : string).

(** What a run leaves behind, newest first.  [EvValidate] and [EvApiFailed]
    are bookkeeping: the first records the result of each validator call of
    a command, the second each error that a method of [ApiClient] throws. *)
Inductive event : Type :=
| EvFetch (r : http_request)
| EvSleep (ms : Z)
| EvPrint (o : output)
| EvValidate (r : ValidationResult)
| EvApiFailed (e : js_error).

(** What surrounds one invocation of the program. *)
Record World : Type := {
  (** the outcome of the fetch issued after [n] earlier ones *)
  server : nat -> http_request -> fetch_result;
  (** the reading of [Date.now()] once [n] fetches have completed *)
  clock : nat -> Z;
  (** [process.env.CLAWPULSE_API_KEY] *)
  env_CLAWPULSE_API_KEY : option string;
}.

(** The mutable state: the config directory and file, and the trace. *)
Record state : Type := {
  config_dir : bool;                (* existsSync(CONFIG_DIR) *)
  config_file : option string;      (* the text of CONFIG_FILE, if it exists *)
  trace : list event;
}.

(** How a computation ends.  [OutOfFuel] is the model's own: a loop that
    was given too few steps to reach its end. *)
Inductive outcome (A : Type) : Type :=
| Ret (a : A)                       (* normal completion *)
| Throw (e : js_error)                 (* a thrown error *)
| Exit (code : Z)                   (* process.exit(code) *)
| OutOfFuel.
Arguments Ret {A} a.
Arguments Throw {A} e.
Arguments Exit {A} code.
Arguments OutOfFuel {A}.

Definition M (A : Type) : Type := state -> outcome A * state.

Definition ret {A} (a : A) : M A := fun s => (Ret a, s).

Definition bind {A B} (m : M A) (k : A -> M B) : M B :=
  fun s =>
    match m s with
    | (Ret a, s') => k a s'
    | (Throw e, s') => (Throw e, s')
    | (Exit c, s') => (Exit c, s')
    | (OutOfFuel, s') => (OutOfFuel, s')
    end.

Definition throw {A} (e : js_error) : M A := fun s => (Throw e, s).

(** [process.exit(code)]: nothing after it runs, and no [catch] sees it. *)
Definition exit {A} (code : Z) : M A := fun s => (Exit code, s).

Definition out_of_fuel {A} : M A := fun s => (OutOfFuel, s).

(** [try { m } catch (err) { handler err }]. *)
Definition try_catch {A} (m : M A) (handler : js_error -> M A) : M A :=
  fun s =>
    match m s with
    | (Throw e, s') => handler e s'
    | other => other
    end.

Declare Scope monad_scope.
Delimit Scope monad_scope with monad.
Notation "x <- m ;; k" := (bind m (fun x => k))
  (at level 100, m at next level, right associativity) : monad_scope.
Notation "m ;; k" := (bind m (fun _ => k))
  (at level 100, right associativity) : monad_scope.
Local Open Scope monad_scope.

Definition log_event (ev : event) : M unit :=
  fun s => (Ret tt, {| config_dir := config_dir s;
                       config_file := config_file s;
                       trace := ev :: trace s |}).

Definition print (o : output) : M unit := log_event (EvPrint o).
Definition console_log (text : string) : M unit := print (ConsoleLog text).
Definition console_error (text : string) : M unit := print (ConsoleError text).
Definition spinner (m : spinner_method) (text : string) : M unit :=
  print (Spinner m text).

Fixpoint print_all (outs : list output) : M unit :=
  match outs with
  | [] => ret tt
  | o :: rest => print o ;; print_all rest
  end.

(** [await new Promise(resolve => setTimeout(resolve, ms))]. *)
Definition sleep (ms : Z) : M unit := log_event (EvSleep ms).

Definition is_fetch (ev : event) : bool :=
  match ev with EvFetch _ => true | _ => false end.

(** The number of fetches issued so far. *)
Definition fetch_count (t : list event) : nat :=
  List.length (List.filter is_fetch t).

(** [await fetch(...)]: the request is recorded, the world answers. *)
Definition fetch (w : World) (r : http_request) : M (Z * string) :=
  fun s =>
    let n := fetch_count (trace s) in
    let s' := {| config_dir := config_dir s;
                 config_file := config_file s;
                 trace := EvFetch r :: trace s |} in
    match server w n r with
    | FetchFailed msg => (Throw (TypeError msg), s')
    | Response status body => (Ret (status, body), s')
    end.

(** [Date.now()]. *)
Definition Date_now (w : World) : M Z :=
  fun s => (Ret (clock w (fetch_count (trace s))), s).

(** [v.k], throwing a [TypeError] when [v] is [null]. *)
Definition get (v : json) (k : string) : M jsval :=
  match get_prop v k with
  | Some x => ret x
  | None => throw (TypeError ("Cannot read properties of null (reading '" +:+ k +:+ "')"))
  end.

(** [v.k] for a value [v] that may be [undefined]. *)
Definition get_val (v : jsval) (k : string) : M jsval :=
  match v with
  | Some x => get x k
  | None => throw (TypeError ("Cannot read properties of undefined (reading '" +:+ k +:+ "')"))
  end.

(** The exit status of the process for the outcome of a command action: an
    action that returns leaves status 0, an error that nothing catches is an
    unhandled rejection, status 1. *)
Definition exit_status {A} (o : outcome A) : option Z :=
  match o with
  | Ret _ => Some 0
  | Throw _ => Some 1
  | Exit c => Some c
  | OutOfFuel => None
  end.

End Runtime.

(* ================================================================== *)
(** * api-client.ts *)
(* ================================================================== *)

Module Api.
Import JsString Js Runtime.
Local Open Scope monad_scope.

(** [CONFIG_FILE], with [~] for [homedir()]. *)
Definition CONFIG_FILE : string := "~/.clawtick/config.json".

Definition DEFAULT_API_URL : string := "https://api.clawtick.com".

(** [{ apiUrl: DEFAULT_API_URL, apiKey: "" }] *)
Definition default_config : json :=
  obj [ ("apiUrl", JStr DEFAULT_API_URL); ("apiKey", JStr "") ].

(** The four [node:fs] calls, on the config directory and the config file.
    Reading a file that does not exist and writing into a directory that
    does not exist throw.  [mkdirSync_CONFIG_DIR] is the call that creates
    the directory; the call that cannot is
    [mkdirSync_CONFIG_DIR_may_throw] below. *)
Definition existsSync_CONFIG_DIR : M bool :=
  fun s => (Ret (config_dir s), s).

Definition mkdirSync_CONFIG_DIR : M unit :=
  fun s => (Ret tt, {| config_dir := true;
                       config_file := config_file s;
                       trace := trace s |}).

Definition existsSync_CONFIG_FILE : M bool :=
  fun s => (Ret (bool_decide (is_Some (config_file s))), s).

Definition readFileSync_CONFIG_FILE : M string :=
  fun s =>
    match config_file s with
    | Some text => (Ret text, s)
    | None => (Throw (Error "ENOENT: no such file or directory"), s)
    end.

Definition writeFileSync_CONFIG_FILE (text : string) : M unit :=
  fun s =>
    if config_dir s
    then (Ret tt, {| config_dir := true;
                     config_file := Some text;
                     trace := trace s |})
    else (Throw (Error "ENOENT: no such file or directory"), s).

Definition ensureConfigDir : M unit :=
  present <- existsSync_CONFIG_DIR ;;
  if negb present then mkdirSync_CONFIG_DIR else ret tt.

Section WithPlatform.
Context `{Platform}.

(** [JSON.parse(text)] as a computation that may throw. *)
Definition parse (text : string) : M json :=
  match JSON_parse text with
  | Some v => ret v
  | None => throw (SyntaxError "Unexpected token in JSON")
  end.

Definition loadConfig : M json :=
  ensureConfigDir ;;
  present <- existsSync_CONFIG_FILE ;;
  if negb present then ret default_config
  else
    try_catch
      (text <- readFileSync_CONFIG_FILE ;; parse text)
      (fun _ => ret default_config).

(** [saveConfig(config)]; [config] is the object passed by the caller. *)
Definition saveConfig (config : json) : M unit :=
  ensureConfigDir ;;
  current <- loadConfig ;;
  let merged := spread2 current config in
  writeFileSync_CONFIG_FILE (JSON_stringify merged 2).

Definition getConfigPath : string := CONFIG_FILE.

(** [mkdirSync(CONFIG_DIR, { recursive: true })] throws when the directory
    cannot be created: no permission, a file in the way.
    [mkdirSync_CONFIG_DIR], and with it [ensureConfigDir], [loadConfig] and
    [saveConfig] above, are the call that succeeds.  The three definitions
    below are the same code with what the call does made explicit:
    [failure] is the error that [mkdirSync] throws, [None] when it throws
    none.  In [loadConfig] the call of [ensureConfigDir] stands before the
    [try], so no [catch] sees that error. *)
Definition mkdirSync_CONFIG_DIR_may_throw (failure : option js_error)
  : M unit :=
  match failure with
  | Some e => throw e
  | None => mkdirSync_CONFIG_DIR
  end.

Definition ensureConfigDir_may_throw (failure : option js_error) : M unit :=
  present <- existsSync_CONFIG_DIR ;;
  if negb present then mkdirSync_CONFIG_DIR_may_throw failure else ret tt.

Definition loadConfig_may_throw (failure : option js_error) : M json :=
  ensureConfigDir_may_throw failure ;;
  present <- existsSync_CONFIG_FILE ;;
  if negb present then ret default_config
  else
    try_catch
      (text <- readFileSync_CONFIG_FILE ;; parse text)
      (fun _ => ret default_config).

(** The two private fields of the class. *)
Record ApiClient : Type := {
  apiUrl : jsval;
  apiKey : jsval;
}.

(** The constructor. *)
Definition new_ApiClient : M ApiClient :=
  config <- loadConfig ;;
  url <- get config "apiUrl" ;;
  key <- get config "apiKey" ;;
  ret {| apiUrl := url; apiKey := key |}.

Definition isAuthenticated (this : ApiClient) : bool :=
  truthy_val (apiKey this).

(** [res.ok]. *)
Definition res_ok (status : Z) : bool := (200 <=? status) && (status <=? 299).

(** [await res.json().catch(() => ({}))]. *)
Definition res_json (body : string) : json :=
  match JSON_parse body with
  | Some v => v
  | None => JObj ∅
  end.

Section WithWorld.
Context (w : World).

(** [private async request(method, path, body?)]. *)
Definition request (this : ApiClient) (method path : string) (body : jsval)
  : M json :=
  if negb (truthy_val (apiKey this))
  then throw (Error "Not authenticated. Run: clawtick login")
  else
    res <- fetch w {| req_method := method;
                      req_url := template (apiUrl this) +:+ path;
                      req_authorization := "Bearer " +:+ template (apiKey this);
                      req_body := if truthy_val body
                                  then Some (JSON_stringify (default JNull body) 0)
                                  else None |} ;;
    let status := fst res in
    let data := res_json (snd res) in
    if negb (res_ok status) then
      err <- get data "error" ;;
      throw (Error (if truthy_val err then template err
                    else "API error: " +:+ pretty status))
    else ret data.

(** Every public method awaits one [request]; the trace records the error
    when that request throws. *)
Definition api_call (m : M json) : M json :=
  try_catch m (fun e => log_event (EvApiFailed e) ;; throw e).

Definition listJobs (this : ApiClient) : M json :=
  api_call (request this "GET" "/v1/jobs" undefined).

Definition createJob (this : ApiClient) (data : json) : M json :=
  api_call (request this "POST" "/v1/jobs" (Some data)).

Definition deleteJob (this : ApiClient) (jobId : string) : M json :=
  api_call (request this "DELETE" ("/v1/jobs/" +:+ jobId) undefined).

Definition updateJob (this : ApiClient) (jobId : string) (data : json)
  : M json :=
  api_call (request this "PUT" ("/v1/jobs/" +:+ jobId) (Some data)).

Definition triggerJob (this : ApiClient) (jobId : string) : M json :=
  api_call (request this "POST" ("/v1/jobs/" +:+ jobId +:+ "/trigger") undefined).

Definition getStatus (this : ApiClient) : M json :=
  api_call (request this "GET" "/v1/status" undefined).

Definition updateGateway (this : ApiClient) (url token : string) : M json :=
  api_call (request this "PUT" "/v1/gateway"
              (Some (obj [ ("url", JStr url); ("token", JStr token) ]))).

(** The methods that [cli.ts] calls and the [api-client.ts] at hand does not
    define.  [endpoint] gives the HTTP method and the path of each. *)
Context (endpoint : string -> string * string).

(** Modelled from the spec: [getGateway], one of the "manage gateway"
    outbound calls of the API client; its source is missing. *)
Definition getGateway (this : ApiClient) : M json :=
  api_call (request this (fst (endpoint "getGateway"))
              (snd (endpoint "getGateway")) undefined).

(** Modelled from the spec: [testGateway], one of the "manage gateway"
    outbound calls of the API client; its source is missing. *)
Definition testGateway (this : ApiClient) : M json :=
  api_call (request this (fst (endpoint "testGateway"))
              (snd (endpoint "testGateway")) undefined).

(** Modelled from the spec: [listApiKeys], one of the "manage API keys"
    outbound calls of the API client; its source is missing. *)
Definition listApiKeys (this : ApiClient) : M json :=
  api_call (request this (fst (endpoint "listApiKeys"))
              (snd (endpoint "listApiKeys")) undefined).

(** Modelled from the spec: [createApiKey(name)], one of the "manage API
    keys" outbound calls of the API client; its source is missing. *)
Definition createApiKey (this : ApiClient) (name : option string) : M json :=
  api_call (request this (fst (endpoint "createApiKey"))
              (snd (endpoint "createApiKey"))
              (Some (obj (match name with
                          | Some n => [ ("name", JStr n) ]
                          | None => []
                          end)))).

(** Modelled from the spec: [revokeApiKey(keyId)], one of the "manage API
    keys" outbound calls of the API client; its source is missing. *)
Definition revokeApiKey (this : ApiClient) (keyId : string) : M json :=
  api_call (request this (fst (endpoint "revokeApiKey"))
              (snd (endpoint "revokeApiKey") +:+ keyId) undefined).

End WithWorld.
End WithPlatform.

End Api.

(* ================================================================== *)
(** * cli.ts *)
(* ================================================================== *)

Module Cli.
Import JsString Js Validation Runtime Api.
Local Open Scope monad_scope.

(** The [options] object that commander passes to an action: the value of
    every option of every command, [None] when the option was not given. *)
Record Options : Type := {
  opt_key : option string;              (* --key *)
  opt_apiUrl : option string;           (* --api-url *)
  opt_url : option string;              (* --url *)
  opt_token : option string;            (* --token *)
  opt_enabled : bool;                   (* --enabled *)
  opt_disabled : bool;                  (* --disabled *)
  opt_cron : option string;             (* --cron *)
  opt_message : option string;          (* --message *)
  opt_name : option string;             (* --name *)
  opt_integration : option string;      (* --integration *)
  opt_agent : option string;            (* --agent *)
  opt_channel : option string;          (* --channel *)
  opt_deliver : option bool;            (* --deliver, --no-deliver *)
  opt_replyTo : option string;          (* --reply-to *)
  opt_webhookUrl : option string;       (* --webhook-url *)
  opt_webhookMethod : option string;    (* --webhook-method *)
  opt_webhookHeaders : option string;   (* --webhook-headers *)
  opt_webhookBody : option string;      (* --webhook-body *)
  opt_timezone : option string;         (* --timezone *)
  opt_enable : bool;                    (* --enable *)
  opt_disable : bool;                   (* --disable *)
  opt_sync : bool;                      (* --sync *)
}.

(** The commands of the program, with their arguments. *)
Inductive command : Type :=
| Login | Logout | Whoami | Plan | Usage
| GatewaySet | GatewayStatus | GatewayTest
| JobsList | JobsCreate
| JobsInspect (jobId : string)
| JobsRemove (jobId : string)
| JobsUpdate (jobId : string)
| JobsTrigger (jobId : string)
| JobsEnable (jobId : string)
| JobsDisable (jobId : string)
| ApikeyList | ApikeyCreate
| ApikeyRevoke (keyId : string)
| Doctor | Status.

(** [if (options.x)] for a string option: given and not empty. *)
Definition given (o : option string) : bool :=
  match o with
  | Some s => nonempty s
  | None => false
  end.

(** [a || b] for two optional strings. *)
Definition or_else (a b : option string) : option string :=
  if given a then a else b.

(** [${x}] for an optional string. *)
Definition template_opt (o : option string) : string :=
  match o with
  | Some s => s
  | None => "undefined"
  end.

Definition str_val (o : option string) : jsval := JStr <$> o.
Definition bool_val (o : option bool) : jsval := JBool <$> o.

(** An object literal some of whose properties may be [undefined];
    [JSON.stringify] leaves those out. *)
Definition obj_of (kvs : list (string * jsval)) : json :=
  obj (omap (fun kv => match snd kv with
                       | Some v => Some (fst kv, v)
                       | None => None
                       end) kvs).

(** The result of the poll loop: [{ status, lastRunAt }]. *)
Record poll_result : Type := {
  status : string;
  lastRunAt : jsval;
}.

Definition maxAttempts : nat := 150.

Section WithWorld.
Context `{Platform} (w : World) (endpoint : string -> string * string).

(** The code of an action that only formats a response for the terminal is
    not spelled out: [format label args] is what the block called [label]
    prints for the values [args], and the error it throws when it reads a
    property of a missing value. *)
Context (format : string -> list json -> list output * option js_error).

Definition show (label : string) (args : list json) : M unit :=
  print_all (fst (format label args)) ;;
  match snd (format label args) with
  | Some e => throw e
  | None => ret tt
  end.

(** The [catch] block shared by the actions:
    [spinner.fail(err.message); process.exit(1)]. *)
Definition fail_and_exit {A} (err : js_error) : M A :=
  spinner Fail (err_message err) ;; exit 1.

(** The check after each validator call:
    [if (!check.valid) { console.error(chalk.red(`❌ ${check.error}`)); process.exit(1); }] *)
Definition validate (check : ValidationResult) : M unit :=
  log_event (EvValidate check) ;;
  if negb (valid check)
  then console_error ("❌ " +:+ template_opt (error check)) ;; exit 1
  else ret tt.

(** Commander refuses to run an action whose required option is missing. *)
Definition required (o : option string) (flag : string) (k : string -> M unit)
  : M unit :=
  match o with
  | Some v => k v
  | None =>
      console_error ("error: required option '" +:+ flag +:+ "' not specified") ;;
      exit 1
  end.

(** ** Account commands *)

Definition login (options : Options) : M unit :=
  let apiKey := or_else (opt_key options) (env_CLAWPULSE_API_KEY w) in
  if negb (given apiKey) then
    print_all
      [ ConsoleLog ("🦞 Clawtick Login" +:+ nl);
        ConsoleLog "Get your API key from the Clawtick dashboard:";
        ConsoleLog ("  https://clawtick.com/dashboard/api-keys" +:+ nl);
        ConsoleLog "Then run:";
        ConsoleLog "  clawtick login --key cp_your_api_key_here";
        ConsoleLog (nl +:+ "Or set the environment variable:");
        ConsoleLog "  export CLAWPULSE_API_KEY=cp_your_api_key_here" ]
  else
    spinner Start "Authenticating..." ;;
    let config :=
      obj_of [ ("apiKey", str_val apiKey);
               ("apiUrl", if given (opt_apiUrl options)
                          then str_val (opt_apiUrl options) else undefined) ] in
    saveConfig config ;;
    spinner Succeed "Authenticated successfully" ;;
    console_log ("Config saved to " +:+ getConfigPath).

Definition logout : M unit :=
  saveConfig (obj [ ("apiKey", JStr "") ]) ;;
  console_log "✅ Logged out".

Definition whoami (api : ApiClient) : M unit :=
  config <- loadConfig ;;
  key <- get config "apiKey" ;;
  if negb (truthy_val key)
  then console_log "Not authenticated. Run: clawtick login"
  else
    show "whoami: config" [ config ] ;;
    spinner Start "Checking connection..." ;;
    try_catch
      (status <- getStatus w api ;;
       show "whoami: status" [ status ])
      (fun err =>
         spinner Fail ("API error: " +:+ err_message err) ;; exit 1).

Definition plan (api : ApiClient) : M unit :=
  spinner Start "Fetching plan details..." ;;
  try_catch
    (s <- getStatus w api ;; show "plan" [ s ])
    fail_and_exit.

Definition usage (api : ApiClient) : M unit :=
  spinner Start "Fetching usage data..." ;;
  try_catch
    (s <- getStatus w api ;; show "usage" [ s ])
    fail_and_exit.

(** ** Gateway commands *)

Definition gateway_set (api : ApiClient) (options : Options) : M unit :=
  required (opt_url options) "--url <url>" (fun url =>
  required (opt_token options) "--token <token>" (fun token =>
    spinner Start "Configuring gateway..." ;;
    try_catch
      (updateGateway w api url token ;;
       spinner Succeed "Gateway configured" ;;
       console_log ("URL: " +:+ url))
      fail_and_exit)).

Definition gateway_status (api : ApiClient) : M unit :=
  spinner Start "Fetching gateway config..." ;;
  try_catch
    (config <- getGateway w endpoint api ;;
     url <- get config "url" ;;
     if negb (truthy_val url) then
       spinner Info "No gateway configured" ;;
       console_log (nl +:+ "Configure your OpenClaw gateway:") ;;
       console_log "  clawtick gateway set --url <url> --token <token>"
     else show "gateway status" [ config ])
    fail_and_exit.

Definition gateway_test (api : ApiClient) : M unit :=
  spinner Start "Testing gateway connection..." ;;
  try_catch
    (result <- testGateway w endpoint api ;;
     success <- get result "success" ;;
     if truthy_val success then
       latency <- get result "latency" ;;
       spinner Succeed ("Gateway connection successful ("
                        +:+ template latency +:+ "ms)")
     else
       message <- get result "message" ;;
       spinner Fail ("Gateway connection failed: " +:+ template message) ;;
       exit 1)
    fail_and_exit.

(** ** Jobs commands *)

Definition jobs_list (api : ApiClient) (options : Options) : M unit :=
  spinner Start "Fetching jobs..." ;;
  try_catch
    (data <- listJobs w api ;;
     show "jobs list"
       [ data; JBool (opt_enabled options); JBool (opt_disabled options) ])
    fail_and_exit.

(** [options.integration?.toLowerCase() || "openclaw"] *)
Definition integrationType_of (options : Options) : string :=
  match opt_integration options with
  | Some i => if nonempty (toLowerCase i) then toLowerCase i else "openclaw"
  | None => "openclaw"
  end.

(** [if (options.x) { const check = validator(options.x); ... }] *)
Definition validate_if_given (validator : string -> ValidationResult)
  (o : option string) : M unit :=
  match o with
  | Some v => if nonempty v then validate (validator v) else ret tt
  | None => ret tt
  end.

Definition jobs_create (api : ApiClient) (options : Options) : M unit :=
  required (opt_cron options) "--cron <expression>" (fun cron =>
  required (opt_message options) "--message <text>" (fun message =>
    let integrationType := integrationType_of options in
    validate_if_given validateIntegrationType (opt_integration options) ;;
    validate (validateCronExpression cron) ;;
    validate (validateMessage message) ;;
    validate_if_given validateJobName (opt_name options) ;;
    (if String.eqb integrationType "webhook" then
       (if negb (given (opt_webhookUrl options)) then
          console_error "❌ --webhook-url is required for webhook integration" ;;
          exit 1
        else ret tt) ;;
       (if negb (given (opt_webhookMethod options)) then
          console_error "❌ --webhook-method is required for webhook integration" ;;
          exit 1
        else ret tt) ;;
       validate (validateWebhookUrl (default "" (opt_webhookUrl options))) ;;
       validate (validateWebhookMethod (default "" (opt_webhookMethod options))) ;;
       validate_if_given validateWebhookHeaders (opt_webhookHeaders options) ;;
       validate_if_given validateWebhookBody (opt_webhookBody options)
     else
       validate_if_given validateAgentId (opt_agent options)) ;;
    spinner Start "Creating job..." ;;
    try_catch
      (specific <-
         (if String.eqb integrationType "webhook" then
            headers <-
              (if given (opt_webhookHeaders options)
               then v <- parse (default "" (opt_webhookHeaders options)) ;;
                    ret (Some v)
               else ret undefined) ;;
            ret [ ("webhookUrl", str_val (opt_webhookUrl options));
                  ("webhookMethod",
                   Some (JStr (toUpperCase (default "" (opt_webhookMethod options)))));
                  ("webhookHeaders", headers);
                  ("webhookBody", if given (opt_webhookBody options)
                                  then str_val (opt_webhookBody options)
                                  else undefined) ]
          else
            ret [ ("agent", str_val (opt_agent options));
                  ("channel", str_val (opt_channel options));
                  ("deliver", Some (JBool (default false (opt_deliver options))));
                  ("replyTo", str_val (opt_replyTo options)) ]) ;;
       let jobData :=
         obj_of ([ ("name", str_val (opt_name options));
                   ("cron", Some (JStr cron));
                   ("message", Some (JStr message));
                   ("integrationType", Some (JStr integrationType));
                   ("source", Some (JStr "cli"));
                   ("timezone", str_val (opt_timezone options)) ]
                 ++ specific) in
       data <- createJob w api jobData ;;
       j <- get data "job" ;;
       show "jobs create" [ default JNull j; JStr integrationType ])
      fail_and_exit)).

(** The callback of [find]: [(j) => j.id === jobId]. *)
Fixpoint find_by_id (items : list json) (jobId : string) : M jsval :=
  match items with
  | [] => ret undefined
  | j :: rest =>
      id <- get j "id" ;;
      if strict_eq_string id jobId then ret (Some j)
      else find_by_id rest jobId
  end.

(** [data.jobs?.find((j) => j.id === jobId)] *)
Definition find_job (data : json) (jobId : string) : M jsval :=
  jobs <- get data "jobs" ;;
  match jobs with
  | None => ret undefined
  | Some JNull => ret undefined
  | Some (JArr items) => find_by_id items jobId
  | Some _ => throw (TypeError "data.jobs?.find is not a function")
  end.

Definition jobs_inspect (api : ApiClient) (jobId : string) : M unit :=
  spinner Start "Fetching job details..." ;;
  try_catch
    (data <- listJobs w api ;;
     job <- find_job data jobId ;;
     match job with
     | Some j =>
         if truthy j then show "jobs inspect" [ j ]
         else spinner Fail ("Job not found: " +:+ jobId) ;; exit 1
     | None => spinner Fail ("Job not found: " +:+ jobId) ;; exit 1
     end)
    fail_and_exit.

Definition jobs_remove (api : ApiClient) (jobId : string) : M unit :=
  spinner Start "Deleting job..." ;;
  try_catch
    (deleteJob w api jobId ;;
     spinner Succeed ("Job deleted: " +:+ jobId))
    fail_and_exit.

(** The object [updates] of [jobs update] is built one property at a time,
    between the validator calls. *)
Definition set_if (c : bool) (k : string) (v : json)
  (updates : gmap string json) : gmap string json :=
  if c then <[ k := v ]> updates else updates.

Definition set_opt (k : string) (v : jsval)
  (updates : gmap string json) : gmap string json :=
  match v with
  | Some x => <[ k := x ]> updates
  | None => updates
  end.

Definition jobs_update (api : ApiClient) (jobId : string) (options : Options)
  : M unit :=
  let updates : gmap string json := ∅ in
  let updates :=
    set_if (given (opt_name options)) "name"
      (JStr (default "" (opt_name options))) updates in
  validate_if_given validateCronExpression (opt_cron options) ;;
  let updates :=
    set_if (given (opt_cron options)) "cron"
      (JStr (default "" (opt_cron options))) updates in
  validate_if_given validateMessage (opt_message options) ;;
  let updates :=
    set_if (given (opt_message options)) "message"
      (JStr (default "" (opt_message options))) updates in
  let updates :=
    set_if (given (opt_timezone options)) "timezone"
      (JStr (default "" (opt_timezone options))) updates in
  let updates := set_if (opt_enable options) "enabled" (JBool true) updates in
  let updates := set_if (opt_disable options) "enabled" (JBool false) updates in
  validate_if_given validateIntegrationType (opt_integration options) ;;
  let updates :=
    set_if (given (opt_integration options)) "integrationType"
      (JStr (toLowerCase (default "" (opt_integration options)))) updates in
  let updates := set_opt "agent" (str_val (opt_agent options)) updates in
  let updates := set_opt "channel" (str_val (opt_channel options)) updates in
  let updates := set_opt "deliver" (bool_val (opt_deliver options)) updates in
  let updates := set_opt "replyTo" (str_val (opt_replyTo options)) updates in
  validate_if_given validateWebhookUrl (opt_webhookUrl options) ;;
  let updates :=
    set_if (given (opt_webhookUrl options)) "webhookUrl"
      (JStr (default "" (opt_webhookUrl options))) updates in
  validate_if_given validateWebhookMethod (opt_webhookMethod options) ;;
  let updates :=
    set_if (given (opt_webhookMethod options)) "webhookMethod"
      (JStr (toUpperCase (default "" (opt_webhookMethod options)))) updates in
  validate_if_given validateWebhookHeaders (opt_webhookHeaders options) ;;
  headers <-
    (if given (opt_webhookHeaders options)
     then v <- parse (default "" (opt_webhookHeaders options)) ;; ret (Some v)
     else ret undefined) ;;
  let updates := set_opt "webhookHeaders" headers updates in
  let updates :=
    set_opt "webhookBody" (str_val (opt_webhookBody options)) updates in
  if bool_decide (updates = ∅) then
    console_error "No updates provided. Use --help for options."
  else
    spinner Start "Updating job..." ;;
    try_catch
      (updateJob w api jobId (JObj updates) ;;
       spinner Succeed ("Job updated: " +:+ jobId))
      fail_and_exit.

(** The block guarded by [if (job && job.lastRunAt)] in the poll loop: the
    new value of [result] when the block sets [completed], [None] when it
    leaves both variables alone. *)
Definition check_run (job : jsval) : M (option poll_result) :=
  match job with
  | None => ret None
  | Some j =>
      if negb (truthy j) then ret None
      else
        lastRun <- get j "lastRunAt" ;;
        if negb (truthy_val lastRun) then ret None
        else
          let lastRunTime := Date_getTime (default JNull lastRun) in
          now <- Date_now w ;;
          if match lastRunTime with
             | Some t => now - t <? 30000
             | None => false
             end
          then
            failCount <- get j "failCount" ;;
            ret (Some {| status := if js_gt failCount 0
                                   then "failed" else "success";
                         lastRunAt := lastRun |})
          else ret None
  end.

(** One pass through the body of the loop: the wait, the fetch of the job
    list and the check; [Some result] when the pass sets [completed]. *)
Definition poll_once (api : ApiClient) (jobId : string)
  : M (option poll_result) :=
  sleep 2000 ;;
  data <- listJobs w api ;;
  job <- find_job data jobId ;;
  check_run job.

(** [while (attempts < maxAttempts && !completed) { attempts++; ... }], run
    for at most [fuel] tests of its condition; it returns the final values
    of [attempts], [completed] and [result]. *)
Fixpoint poll_loop (fuel : nat) (api : ApiClient) (jobId : string)
  (attempts : nat) (completed : bool) (result : option poll_result)
  : M (nat * bool * option poll_result) :=
  match fuel with
  | O => out_of_fuel
  | S fuel' =>
      if (attempts <? maxAttempts)%nat && negb completed then
        found <- poll_once api jobId ;;
        match found with
        | Some r => poll_loop fuel' api jobId (S attempts) true (Some r)
        | None => poll_loop fuel' api jobId (S attempts) completed result
        end
      else ret (attempts, completed, result)
  end.

(** The report after the loop: [if (completed && result) { ... } else { ... }]. *)
Definition report (jobId : string) (completed : bool)
  (result : option poll_result) : M unit :=
  match completed, result with
  | true, Some result =>
      if String.eqb (status result) "success" then
        spinner Succeed "Job completed successfully" ;;
        console_log ("  Job ID:    " +:+ jobId) ;;
        console_log ("  Completed: "
                     +:+ Date_toLocaleString (default JNull (lastRunAt result)))
      else
        spinner Fail "Job execution failed" ;;
        console_log ("  Job ID:    " +:+ jobId) ;;
        console_log ("  Failed at: "
                     +:+ Date_toLocaleString (default JNull (lastRunAt result))) ;;
        console_log (nl +:+ "Check logs for details:") ;;
        console_log ("  clawtick jobs inspect " +:+ jobId)
  | _, _ =>
      spinner Warn "Job triggered, but execution status unknown (timeout)" ;;
      console_log ("  Job ID: " +:+ jobId)
  end.

Definition jobs_trigger (fuel : nat) (api : ApiClient) (jobId : string)
  (options : Options) : M unit :=
  if opt_sync options then
    spinner Start "Triggering job and waiting for completion..." ;;
    try_catch
      (triggerJob w api jobId ;;
       spinner SetText "Job triggered, waiting for execution..." ;;
       final <- poll_loop fuel api jobId 0 false None ;;
       report jobId (snd (fst final)) (snd final))
      fail_and_exit
  else
    spinner Start "Triggering job..." ;;
    try_catch
      (triggerJob w api jobId ;;
       spinner Succeed ("Job triggered: " +:+ jobId) ;;
       console_log (nl +:+ "Tip: Use --sync to wait for completion and see results"))
      fail_and_exit.

Definition jobs_enable (api : ApiClient) (jobId : string) : M unit :=
  spinner Start "Enabling job..." ;;
  try_catch
    (updateJob w api jobId (obj [ ("enabled", JBool true) ]) ;;
     spinner Succeed ("Job enabled: " +:+ jobId))
    fail_and_exit.

Definition jobs_disable (api : ApiClient) (jobId : string) : M unit :=
  spinner Start "Disabling job..." ;;
  try_catch
    (updateJob w api jobId (obj [ ("enabled", JBool false) ]) ;;
     spinner Succeed ("Job disabled: " +:+ jobId))
    fail_and_exit.

(** ** API key commands *)

Definition apikey_list (api : ApiClient) : M unit :=
  spinner Start "Fetching API keys..." ;;
  try_catch
    (data <- listApiKeys w endpoint api ;; show "apikey list" [ data ])
    fail_and_exit.

Definition apikey_create (api : ApiClient) (options : Options) : M unit :=
  spinner Start "Creating API key..." ;;
  try_catch
    (data <- createApiKey w endpoint api (opt_name options) ;;
     show "apikey create" [ data ])
    fail_and_exit.

Definition apikey_revoke (api : ApiClient) (keyId : string) : M unit :=
  spinner Start "Revoking API key..." ;;
  try_catch
    (revokeApiKey w endpoint api keyId ;;
     spinner Succeed ("API key revoked: " +:+ keyId) ;;
     console_log (nl +:+ "⚠️  This key can no longer be used for authentication"))
    fail_and_exit.

(** ** System commands *)

Definition doctor (api : ApiClient) : M unit :=
  console_log ("🏥 Clawtick Health Check" +:+ nl) ;;
  (* Check authentication *)
  config <- loadConfig ;;
  key <- get config "apiKey" ;;
  (if negb (truthy_val key) then
     console_log "✗ Not authenticated" ;;
     console_log ("  Run: clawtick login --key <your-key>" +:+ nl) ;;
     exit 1
   else ret tt) ;;
  console_log "✓ API key found" ;;
  (* Check API connection *)
  spinner Start "Checking API connection..." ;;
  try_catch
    (status <- getStatus w api ;;
     show "doctor: connection" [ status ])
    (fun err =>
       spinner Fail ("API connection failed: " +:+ err_message err) ;;
       exit 1) ;;
  (* Check gateway configuration *)
  try_catch
    (gatewayConfig <- getGateway w endpoint api ;;
     url <- get gatewayConfig "url" ;;
     if truthy_val url then
       console_log "✓ Gateway configured" ;;
       console_log ("  URL: " +:+ template url +:+ nl) ;;
       spinner Start "Testing gateway connection..." ;;
       try_catch
         (testResult <- testGateway w endpoint api ;;
          success <- get testResult "success" ;;
          if truthy_val success then
            latency <- get testResult "latency" ;;
            spinner Succeed ("Gateway connection OK (" +:+ template latency +:+ "ms)")
          else
            message <- get testResult "message" ;;
            spinner Fail ("Gateway connection failed: " +:+ template message))
         (fun err =>
            spinner Fail ("Gateway test failed: " +:+ err_message err))
     else
       console_log "⚠ Gateway not configured" ;;
       console_log ("  Configure with: clawtick gateway set --url <url> --token <token>"
                    +:+ nl))
    (fun err =>
       console_log ("⚠ Could not check gateway: " +:+ err_message err +:+ nl)) ;;
  (* Check for quota issues *)
  try_catch
    (status <- getStatus w api ;;
     show "doctor: quota" [ status ])
    (fun err =>
       console_log ("⚠ Could not check quota: " +:+ err_message err +:+ nl)) ;;
  console_log "All checks completed!".

Definition status_action (api : ApiClient) : M unit :=
  spinner Start "Fetching status..." ;;
  try_catch
    (s <- getStatus w api ;; show "status" [ s ])
    fail_and_exit.

(** ** The program *)

(** The action of a command. *)
Definition action (fuel : nat) (api : ApiClient) (cmd : command)
  (options : Options) : M unit :=
  match cmd with
  | Login => login options
  | Logout => logout
  | Whoami => whoami api
  | Plan => plan api
  | Usage => usage api
  | GatewaySet => gateway_set api options
  | GatewayStatus => gateway_status api
  | GatewayTest => gateway_test api
  | JobsList => jobs_list api options
  | JobsCreate => jobs_create api options
  | JobsInspect jobId => jobs_inspect api jobId
  | JobsRemove jobId => jobs_remove api jobId
  | JobsUpdate jobId => jobs_update api jobId options
  | JobsTrigger jobId => jobs_trigger fuel api jobId options
  | JobsEnable jobId => jobs_enable api jobId
  | JobsDisable jobId => jobs_disable api jobId
  | ApikeyList => apikey_list api
  | ApikeyCreate => apikey_create api options
  | ApikeyRevoke keyId => apikey_revoke api keyId
  | Doctor => doctor api
  | Status => status_action api
  end.

(** One invocation: the module body runs [const api = new ApiClient()],
    then [program.parse()] runs the action of the command. *)
Definition main (fuel : nat) (cmd : command) (options : Options) : M unit :=
  api <- new_ApiClient ;;
  action fuel api cmd options.

(** The state in which an invocation starts, for a given config directory
    and file. *)
Definition initial (dir : bool) (file : option string) : state :=
  {| config_dir := dir; config_file := file; trace := [] |}.

End WithWorld.

(** The options object when no option is given on the command line. *)
Definition no_options : Options :=
  {| opt_key := None; opt_apiUrl := None; opt_url := None; opt_token := None;
     opt_enabled := false; opt_disabled := false;
     opt_cron := None; opt_message := None; opt_name := None;
     opt_integration := None; opt_agent := None; opt_channel := None;
     opt_deliver := None; opt_replyTo := None;
     opt_webhookUrl := None; opt_webhookMethod := None;
     opt_webhookHeaders := None; opt_webhookBody := None;
     opt_timezone := None; opt_enable := false; opt_disable := false;
     opt_sync := false |}.

End Cli.

(* ================================================================== *)
(** * Properties of runs *)
(* ================================================================== *)

(** The vocabulary in which the properties of the program are stated:
    classes of events, what a computation adds to the trace, and the
    disciplines that the command actions follow. *)

Module Props.
Import JsString Js Validation Runtime Api Cli.
Local Open Scope monad_scope.

Definition is_print (ev : event) : Prop :=
  match ev with EvPrint _ => True | _ => False end.
Definition not_failure (ev : event) : Prop :=
  match ev with EvApiFailed _ => False | _ => True end.
Definition not_validate (ev : event) : Prop :=
  match ev with EvValidate _ => False | _ => True end.
Definition not_fetch (ev : event) : Prop :=
  match ev with EvFetch _ => False | _ => True end.
Definition not_sleep (ev : event) : Prop :=
  match ev with EvSleep _ => False | _ => True end.
Definition local_only (ev : event) : Prop := not_fetch ev /\ not_validate ev.

(** The waits recorded in a trace. *)
Definition sleeps (t : list event) : list Z :=
  omap (fun ev => match ev with EvSleep ms => Some ms | _ => None end) t.

(** [m], run from [s], puts the events [Δ] on top of the trace. *)
Definition adds {A} (m : M A) (s : state) (Δ : list event) : Prop :=
  trace (m s).2 = Δ ++ trace s.

(** [m] only ever adds events of the class [P]. *)
Definition emits_only (P : event -> Prop) {A} (m : M A) : Prop :=
  forall s, exists Δ, adds m s Δ /\ Forall P Δ.

(** [m] leaves the state alone and needs no fuel. *)
Definition reads_only {A} (m : M A) : Prop :=
  forall s, exists o, m s = (o, s) /\ o <> OutOfFuel.

(** ** Terminal errors *)

(** The events end with one failed API call followed by printing only. *)
Definition failed_last (Δ : list event) : Prop :=
  exists P e Δ', Δ = P ++ EvApiFailed e :: Δ'
                 /\ Forall is_print P /\ Forall not_failure Δ'.

(** No API call of [m] fails, or one fails, nothing but printing follows and
    the process exits with status 1. *)
Definition terminal {A} (m : M A) : Prop :=
  forall s, exists Δ,
    adds m s Δ
    /\ (Forall not_failure Δ
        \/ (failed_last Δ /\ exit_status (m s).1 = Some 1)).

(** A [catch] block that prints and exits with status 1. *)
Definition prints_and_exits {A} (h : js_error -> M A) : Prop :=
  forall e, emits_only is_print (h e)
            /\ forall s, exit_status (h e s).1 = Some 1.

(** ** Validation before any request *)

(** The line printed for a rejected input. *)
Definition rejection_line (r : ValidationResult) : event :=
  EvPrint (ConsoleError ("❌ " +:+ template_opt (error r))).

Definition all_valid (Δ : list event) : Prop :=
  forall r, In (EvValidate r) Δ -> valid r = true.

Definition rejections_printed (Δ : list event) : Prop :=
  forall r, In (EvValidate r) Δ -> valid r = false -> In (rejection_line r) Δ.

(** [m] issues no request, and exits with status 1 once a validator has
    rejected. *)
Definition prevalidation {A} (m : M A) : Prop :=
  forall s, exists Δ,
    adds m s Δ /\ Forall not_fetch Δ
    /\ (all_valid Δ \/ ((m s).1 = Exit 1 /\ rejections_printed Δ)).

(** In [m], a rejection means exit status 1 and no request at all. *)
Definition gated {A} (m : M A) : Prop :=
  forall s, exists Δ,
    adds m s Δ
    /\ (all_valid Δ
        \/ ((m s).1 = Exit 1 /\ Forall not_fetch Δ /\ rejections_printed Δ)).

Section WithPlatform.
Context `{Platform}.

(** [JSON.parse(JSON.stringify(v, null, 2))] gives [v] back. *)
Definition round_trips (v : json) : Prop :=
  JSON_parse (JSON_stringify v 2) = Some v.

(** The config that a state holds: the parsed file, or the default when the
    file is missing or does not parse. *)
Definition stored_config (s : state) : json :=
  match config_file s with
  | Some text => default default_config (JSON_parse text)
  | None => default_config
  end.

Context (w : World).

(** [n] successive passes through the body of the poll loop, none of which
    attributes a run, lead from one state to another. *)
Inductive idle_polls (api : ApiClient) (jobId : string)
  : nat -> state -> state -> Prop :=
| idle_polls_O s : idle_polls api jobId O s s
| idle_polls_S n s s1 s2 :
    poll_once w api jobId s = (Ret None, s1) ->
    idle_polls api jobId n s1 s2 ->
    idle_polls api jobId (S n) s s2.

(** [jobs trigger --sync], started in [s]: the trigger request succeeds and
    the poll loop starts in [s']. *)
Definition polling_starts (api : ApiClient) (jobId : string) (s s' : state)
  : Prop :=
  exists d s1,
    triggerJob w api jobId
      (spinner Start "Triggering job and waiting for completion..." s).2
    = (Ret d, s1)
    /\ s' = (spinner SetText "Job triggered, waiting for execution..." s1).2.

(** The job with the properties [props] has a [lastRunAt], which lies less
    than 30000 ms before the time that [Date.now()] gives in [s]. *)
Definition ran_recently (props : gmap string json) (s : state) : Prop :=
  exists v t,
    props !! "lastRunAt" = Some v /\ truthy v = true
    /\ Date_getTime v = Some t
    /\ clock w (fetch_count (trace s)) - t < 30000.

(** What a pass of the poll loop that fetched [job] in [s] must have
    found. *)
Definition attributed (jobId : string) (job : jsval) (s : state)
  (found : option poll_result) : Prop :=
  match job with
  | None => found = None
  | Some (JObj props) =>
      props !! "id" = Some (JStr jobId)
      /\ (~ ran_recently props s -> found = None)
      /\ (ran_recently props s ->
          exists r,
            found = Some r
            /\ lastRunAt r = props !! "lastRunAt"
            /\ status r = (if js_gt (props !! "failCount") 0
                           then "failed" else "success")
            /\ forall n, props !! "failCount" = Some (JNum n) -> 0 <= n ->
                 status r = if n =? 0 then "success" else "failed")
  | Some _ => False
  end.

(** The three reports of [jobs trigger --sync], newest line first. *)
Definition success_report (jobId : string) (r : poll_result) : list event :=
  [ EvPrint (ConsoleLog ("  Completed: "
       +:+ Date_toLocaleString (default JNull (lastRunAt r))));
    EvPrint (ConsoleLog ("  Job ID:    " +:+ jobId));
    EvPrint (Spinner Succeed "Job completed successfully") ].

Definition failure_report (jobId : string) (r : poll_result) : list event :=
  [ EvPrint (ConsoleLog ("  clawtick jobs inspect " +:+ jobId));
    EvPrint (ConsoleLog (nl +:+ "Check logs for details:"));
    EvPrint (ConsoleLog ("  Failed at: "
       +:+ Date_toLocaleString (default JNull (lastRunAt r))));
    EvPrint (ConsoleLog ("  Job ID:    " +:+ jobId));
    EvPrint (Spinner Fail "Job execution failed") ].

Definition timeout_report (jobId : string) : list event :=
  [ EvPrint (ConsoleLog ("  Job ID: " +:+ jobId));
    EvPrint (Spinner Warn
      "Job triggered, but execution status unknown (timeout)") ].

(** The state in which [doctor] makes its first API call, started in [s]
    with an API key in the config. *)
Definition doctor_connection_check (s : state) : state :=
  {| config_dir := true;
     config_file := config_file s;
     trace := [ EvPrint (Spinner Start "Checking API connection...");
                EvPrint (ConsoleLog "✓ API key found");
                EvPrint (ConsoleLog ("🏥 Clawtick Health Check" +:+ nl)) ]
              ++ trace s |}.

End WithPlatform.

(** A syntactic test that a pattern matches no string at all. *)
Fixpoint is_void (r : Regex.regex) : bool :=
  match r with
  | Regex.Void => true
  | Regex.Seq r1 r2 => is_void r1 || is_void r2
  | Regex.Alt r1 r2 => is_void r1 && is_void r2
  | _ => false
  end.

(** The results that the validators may return: valid and without a
    message, or invalid with a message that is not empty. *)
Definition well_formed (r : ValidationResult) : Prop :=
  (valid r = true /\ error r = None)
  \/ (valid r = false /\ exists msg, error r = Some msg /\ msg <> EmptyString).

(** ** Strings, requests and budgets *)

(** Every character of [s] is in the class [p]. *)
Fixpoint every (p : ascii -> bool) (s : string) : bool :=
  match s with
  | EmptyString => true
  | String c s' => p c && every p s'
  end.

(** A cron field that is a star, a question mark or a number. *)
Definition plain_cron_field (part : string) : Prop :=
  part = "*" \/ part = "?"
  \/ (part <> EmptyString /\ every is_digit part = true).

(** The number of waits in a trace, and their total length in ms. *)
Definition wait_count (t : list event) : nat := List.length (sleeps t).
Definition total_wait (t : list event) : Z := fold_right Z.add 0 (sleeps t).

(** [m] adds at most [n] to the measure [μ] of the trace. *)
Definition costs_at_most (μ : list event -> nat) (n : nat) {A} (m : M A)
  : Prop :=
  forall s, exists Δ, adds m s Δ /\ (μ Δ <= n)%nat.

(** The number of requests that a command may issue. *)
Definition request_budget (cmd : command) (options : Options) : nat :=
  match cmd with
  | Login | Logout => 0
  | Doctor => 4
  | JobsTrigger _ => if opt_sync options then S maxAttempts else 1
  | _ => 1
  end.

(** The number of waits that a command may make. *)
Definition wait_budget (cmd : command) (options : Options) : nat :=
  match cmd with
  | JobsTrigger _ => if opt_sync options then maxAttempts else 0
  | _ => 0
  end.

(** Every wait is one of 2000 ms. *)
Definition fixed_wait (ev : event) : Prop :=
  match ev with EvSleep ms => ms = 2000 | _ => True end.

(** The commands whose action is a spinner and then a call of the API
    client, with nothing checked before the call. *)
Definition api_command (cmd : command) : bool :=
  match cmd with
  | Login | Logout | Whoami | GatewaySet | JobsCreate | JobsUpdate _
  | Doctor => false
  | _ => true
  end.

(** [m] ends by returning or by throwing: it never exits the process and
    needs no fuel. *)
Definition catchable {A} (m : M A) : Prop :=
  forall s, match (m s).1 with Ret _ | Throw _ => True | _ => False end.

(** [m] always returns. *)
Definition returns {A} (m : M A) : Prop :=
  forall s, exists a, (m s).1 = Ret a.

(** No option of [jobs update] that sets a property of [updates] is
    given. *)
Definition nothing_to_update (options : Options) : Prop :=
  given (opt_name options) = false
  /\ given (opt_cron options) = false
  /\ given (opt_message options) = false
  /\ given (opt_timezone options) = false
  /\ opt_enable options = false
  /\ opt_disable options = false
  /\ given (opt_integration options) = false
  /\ opt_agent options = None
  /\ opt_channel options = None
  /\ opt_deliver options = None
  /\ opt_replyTo options = None
  /\ given (opt_webhookUrl options) = false
  /\ given (opt_webhookMethod options) = false
  /\ given (opt_webhookHeaders options) = false
  /\ opt_webhookBody options = None.

(** [j] is an object whose [id] is the string [jobId]. *)
Definition has_id (jobId : string) (j : json) : Prop :=
  exists props, j = JObj props /\ props !! "id" = Some (JStr jobId).

(** [j.id] can be read and is not [jobId]. *)
Definition other_id (jobId : string) (j : json) : Prop :=
  exists id, get_prop j "id" = Some id /\ strict_eq_string id jobId = false.

Section Requests.
Context `{Platform}.

(** The client that the constructor builds in [s]. *)
Definition stored_client (s : state) : option ApiClient :=
  match get_prop (stored_config s) "apiUrl",
        get_prop (stored_config s) "apiKey" with
  | Some url, Some key => Some {| apiUrl := url; apiKey := key |}
  | _, _ => None
  end.

(** The commands that call a method of the client whose source is
    missing. *)
Definition calls_missing_method (cmd : command) : bool :=
  match cmd with
  | GatewayStatus | GatewayTest | ApikeyList | ApikeyCreate | ApikeyRevoke _
  | Doctor => true
  | _ => false
  end.

(** A request of [ev] carries the key of the client, which is not empty;
    its URL is the API URL of the client followed by the path of the call,
    which begins with [/v1/] when [versioned] is set. *)
Definition sent_by (api : ApiClient) (versioned : bool) (ev : event) : Prop :=
  match ev with
  | EvFetch r =>
      truthy_val (apiKey api) = true
      /\ req_authorization r = "Bearer " +:+ template (apiKey api)
      /\ exists path,
           req_url r = template (apiUrl api) +:+ path
           /\ (versioned = true -> exists rest, path = "/v1/" +:+ rest)
  | _ => True
  end.

End Requests.

(** ** ASCII input *)

(** The string functions of [JsString] are those of JavaScript on ASCII
    text: there [trim] and [\s] know the same six white-space characters,
    [length] counts characters, and the case mappings change the letters
    [a] to [z] and [A] to [Z] only.  On other text JavaScript also trims
    Unicode white space, counts UTF-16 code units and maps the case of
    other letters.  The statements that depend on these functions are made
    for ASCII input. *)
Definition is_ascii (c : ascii) : bool := (nat_of_ascii c <? 128)%nat.

Definition ascii_only (s : string) : bool := every is_ascii s.

(** The options that the actions validate are ASCII text. *)
Definition ascii_options (options : Options) : Prop :=
  Forall (fun o : option string => forall s, o = Some s -> ascii_only s = true)
    [ opt_cron options; opt_message options; opt_name options;
      opt_integration options; opt_agent options;
      opt_webhookUrl options; opt_webhookMethod options;
      opt_webhookHeaders options; opt_webhookBody options ].

(** ** The validator calls of a command *)

Section Checks.
Context `{Platform}.

(** The result of [if (options.x) { const check = validator(options.x) }]:
    one validator call when the option is given and not empty. *)
Definition check_if_given (validator : string -> ValidationResult)
  (o : option string) : list ValidationResult :=
  match o with
  | Some v => if nonempty v then [ validator v ] else []
  | None => []
  end.

(** The results of the validator calls that [jobs create] makes for its
    options when none of them stops the action, in the order of the calls.
    For the webhook integration the four webhook validators are called
    after the tests that [--webhook-url] and [--webhook-method] are
    given. *)
Definition create_checks (options : Options) : list ValidationResult :=
  match opt_cron options, opt_message options with
  | Some cron, Some message =>
      check_if_given validateIntegrationType (opt_integration options)
      ++ [ validateCronExpression cron; validateMessage message ]
      ++ check_if_given validateJobName (opt_name options)
      ++ (if String.eqb (integrationType_of options) "webhook" then
            if given (opt_webhookUrl options)
               && given (opt_webhookMethod options)
            then
              [ validateWebhookUrl (default "" (opt_webhookUrl options));
                validateWebhookMethod (default "" (opt_webhookMethod options)) ]
              ++ check_if_given validateWebhookHeaders
                   (opt_webhookHeaders options)
              ++ check_if_given validateWebhookBody (opt_webhookBody options)
            else []
          else check_if_given validateAgentId (opt_agent options))
  | _, _ => []
  end.

(** The same for [jobs update], which validates six of its options. *)
Definition update_checks (options : Options) : list ValidationResult :=
  check_if_given validateCronExpression (opt_cron options)
  ++ check_if_given validateMessage (opt_message options)
  ++ check_if_given validateIntegrationType (opt_integration options)
  ++ check_if_given validateWebhookUrl (opt_webhookUrl options)
  ++ check_if_given validateWebhookMethod (opt_webhookMethod options)
  ++ check_if_given validateWebhookHeaders (opt_webhookHeaders options).

(** The other commands call no validator. *)
Definition checks (cmd : command) (options : Options)
  : list ValidationResult :=
  match cmd with
  | JobsCreate => create_checks options
  | JobsUpdate _ => update_checks options
  | _ => []
  end.

(** The first result that is a rejection. *)
Definition first_rejected (results : list ValidationResult)
  : option ValidationResult :=
  List.find (fun r => negb (valid r)) results.

(** [text] is the message of the rejection [r], as [`${check.error}`]
    prints it.  When [r] rejects a header whose value is not a string,
    [text] is that message for one such header: which of several the
    validator names depends on the order of the properties of the parsed
    object, which a finite map does not keep. *)
Definition reported (r : ValidationResult) (text : string) : Prop :=
  text = template_opt (error r)
  \/ exists key key',
       error r = Some (headerValueError key)
       /\ text = headerValueError key'.

(** The run that ended in [res] stopped at the rejection [r]: the last
    thing it did was to print the message of [r] and to exit with
    status 1. *)
Definition stops_at {A} (r : ValidationResult) (res : outcome A * state)
  : Prop :=
  res.1 = Exit 1
  /\ exists older, trace res.2 = rejection_line r :: EvValidate r :: older.

End Checks.

(** ** The warnings of [doctor] *)

(** What [doctor] prints when its gateway check, its gateway test or its
    quota check throws [e]. *)
Definition doctor_warnings (e : js_error) : list output :=
  [ ConsoleLog ("⚠ Could not check gateway: " +:+ err_message e +:+ nl);
    Spinner Fail ("Gateway test failed: " +:+ err_message e);
    ConsoleLog ("⚠ Could not check quota: " +:+ err_message e +:+ nl) ].

(** Every failed API call among the events [Δ] is reported by one of the
    warnings of [doctor]. *)
Definition warned (Δ : list event) : Prop :=
  forall e, In (EvApiFailed e) Δ ->
    exists o, In o (doctor_warnings e) /\ In (EvPrint o) Δ.

(** [m] reports the API calls of its own that fail. *)
Definition reports_failures {A} (m : M A) : Prop :=
  forall s, exists Δ, adds m s Δ /\ warned Δ.

End Props.

(* ================================================================== *)
(** * A concrete runtime and concrete worlds *)
(* ================================================================== *)

(** A small runtime on which the program can be run: a JSON codec for flat
    objects of strings (the shape of the config file), canned response
    bodies, numeric timestamps.  The examples below run on it. *)

Module Demo.
Import JsString Js Validation Runtime Api Cli.

Definition quote (s : string) : string := dq +:+ s +:+ dq.

Definition print_entry (kv : string * json) : string :=
  match snd kv with
  | JStr x => quote (fst kv) +:+ ":" +:+ quote x
  | _ => quote (fst kv) +:+ ":null"
  end.

(** [{"k":"v",...}] for an object of strings without escapes. *)
Definition stringify (v : json) (indent : Z) : string :=
  match v with
  | JObj m => "{" +:+ join "," (map print_entry (map_to_list m)) +:+ "}"
  | _ => "null"
  end.

(** The text up to the next double quote, and what follows that quote. *)
Fixpoint read_quoted (s : string) : option (string * string) :=
  match s with
  | EmptyString => None
  | String c rest =>
      if Ascii.eqb c (ascii_of_nat 34) then Some (EmptyString, rest)
      else match read_quoted rest with
           | Some (x, rest') => Some (String c x, rest')
           | None => None
           end
  end.

Definition expect (c : ascii) (s : string) : option string :=
  match s with
  | String c' rest => if Ascii.eqb c c' then Some rest else None
  | EmptyString => None
  end.

(** The entries of an object, after its opening brace. *)
Fixpoint parse_entries (fuel : nat) (s : string) (acc : gmap string json)
  : option json :=
  match fuel with
  | O => None
  | S fuel' =>
      s1 ← expect (ascii_of_nat 34) s;
      '(k, s2) ← read_quoted s1;
      s3 ← expect ":" s2;
      s4 ← expect (ascii_of_nat 34) s3;
      '(v, s5) ← read_quoted s4;
      if String.eqb s5 "}" then Some (JObj (<[ k := JStr v ]> acc))
      else s6 ← expect "," s5; parse_entries fuel' s6 (<[ k := JStr v ]> acc)
  end.

Definition parse_flat (text : string) : option json :=
  s ← expect "{" text;
  if String.eqb s "}" then Some (JObj ∅)
  else parse_entries (String.length text) s ∅.

(** The bodies that the demo servers send, with their parsed values. *)
Definition job_id : string := "1767225600000-k3x9".

Definition bodies : list (string * json) :=
  [ ("TRIGGERED", obj [ ("ok", JBool true) ]);
    ("JOBS: NOT RUN YET",
     obj [ ("jobs", JArr [ obj [ ("id", JStr job_id); ("failCount", JNum 0) ] ]) ]);
    ("JOBS: RUN OK",
     obj [ ("jobs", JArr [ obj [ ("id", JStr job_id);
                                 ("lastRunAt", JNum 1767225603000);
                                 ("failCount", JNum 0) ] ]) ]);
    ("JOBS: RUN FAILED",
     obj [ ("jobs", JArr [ obj [ ("id", JStr job_id);
                                 ("lastRunAt", JNum 1767225603000);
                                 ("failCount", JNum 2) ] ]) ]);
    ("STATUS",
     obj [ ("plan", JStr "free");
           ("jobs", obj [ ("enabled", JNum 1); ("total", JNum 1) ]) ]);
    ("NO GATEWAY", obj []);
    ("null", JNull);
    ("QUOTA EXCEEDED", obj [ ("error", JStr "Monthly trigger quota exceeded") ]) ].

Fixpoint lookup_body (text : string) (table : list (string * json))
  : option json :=
  match table with
  | [] => None
  | (t, v) :: rest => if String.eqb t text then Some v else lookup_body text rest
  end.

Definition parse (text : string) : option json :=
  match lookup_body text bodies with
  | Some v => Some v
  | None => parse_flat text
  end.

Definition starts_with (prefix s : string) : bool :=
  String.eqb prefix (String.substring 0 (String.length prefix) s).

Definition platform : Platform :=
  {| JSON_parse := parse;
     JSON_stringify := stringify;
     URL_protocol := fun s =>
       if starts_with "https://" s then Some "https:"
       else if starts_with "http://" s then Some "http:"
       else None;
     Date_getTime := fun v =>
       match v with JNum n => Some n | _ => None end;
     Date_toLocaleString := fun v =>
       match v with JNum n => pretty n | _ => "Invalid Date" end;
     String_of := fun v =>
       match v with
       | JNull => "null"
       | JBool true => "true"
       | JBool false => "false"
       | JNum n => pretty n
       | _ => "[object Object]"
       end;
     Number_of := fun _ => None |}.

Definition endpoint (name : string) : string * string :=
  ("GET", "/v1/" +:+ name).

Definition format (label : string) (args : list json)
  : list output * option js_error :=
  ([ ConsoleLog label ], None).

(** A config file that holds an API key. *)
Definition config_text : string :=
  stringify (obj [ ("apiUrl", JStr "https://api.clawtick.com");
                   ("apiKey", JStr "cp_demo_key") ]) 2.

(** A server that answers the [n]-th request with the [n]-th of the given
    responses, and the last of them from then on. *)
Definition scripted (script : list fetch_result) (n : nat) (r : http_request)
  : fetch_result :=
  List.nth n script (List.last script (FetchFailed "fetch failed")).

(** Time starts at 1767225600000 ms and each request takes two seconds. *)
Definition ticking (n : nat) : Z := 1767225600000 + 2000 * Z.of_nat n.

Definition world (script : list fetch_result) (key : option string) : World :=
  {| server := scripted script; clock := ticking;
     env_CLAWPULSE_API_KEY := key |}.

(** The trigger is accepted, the first poll sees no run, the second sees a
    run that succeeded. *)
Definition run_succeeds : World :=
  world [ Response 200 "TRIGGERED"; Response 200 "JOBS: NOT RUN YET";
          Response 200 "JOBS: RUN OK" ] None.

(** The job is never run: every poll sees no run. *)
Definition never_runs : World :=
  world [ Response 200 "TRIGGERED"; Response 200 "JOBS: NOT RUN YET" ] None.

(** [doctor]: the connection check passes, no gateway is configured, the
    quota check gets a 500. *)
Definition quota_check_fails : World :=
  world [ Response 200 "STATUS"; Response 200 "NO GATEWAY";
          Response 500 "Internal Server Error" ] None.

(** Every request is refused with status 429 and an error message. *)
Definition over_quota : World :=
  world [ Response 429 "QUOTA EXCEEDED" ] None.

(** Every request gets a 500 whose body is the JSON text [null]. *)
Definition null_error_body : World :=
  world [ Response 500 "null" ] None.

Definition sync_options : Options :=
  {| opt_key := None; opt_apiUrl := None; opt_url := None; opt_token := None;
     opt_enabled := false; opt_disabled := false;
     opt_cron := None; opt_message := None; opt_name := None;
     opt_integration := None; opt_agent := None; opt_channel := None;
     opt_deliver := None; opt_replyTo := None;
     opt_webhookUrl := None; opt_webhookMethod := None;
     opt_webhookHeaders := None; opt_webhookBody := None;
     opt_timezone := None; opt_enable := false; opt_disable := false;
     opt_sync := true |}.

(** [jobs create --cron "every day" --message "Daily report"] *)
Definition bad_cron_options : Options :=
  {| opt_key := None; opt_apiUrl := None; opt_url := None; opt_token := None;
     opt_enabled := false; opt_disabled := false;
     opt_cron := Some "every day"; opt_message := Some "Daily report";
     opt_name := None;
     opt_integration := None; opt_agent := None; opt_channel := None;
     opt_deliver := None; opt_replyTo := None;
     opt_webhookUrl := None; opt_webhookMethod := None;
     opt_webhookHeaders := None; opt_webhookBody := None;
     opt_timezone := None; opt_enable := false; opt_disable := false;
     opt_sync := false |}.

(** [jobs create --integration webhook --cron "0 9 * * *" --message
    "Daily report"], with no [--webhook-url]. *)
Definition webhook_without_url : Options :=
  {| opt_key := None; opt_apiUrl := None; opt_url := None; opt_token := None;
     opt_enabled := false; opt_disabled := false;
     opt_cron := Some "0 9 * * *"; opt_message := Some "Daily report";
     opt_name := None;
     opt_integration := Some "webhook"; opt_agent := None; opt_channel := None;
     opt_deliver := None; opt_replyTo := None;
     opt_webhookUrl := None; opt_webhookMethod := None;
     opt_webhookHeaders := None; opt_webhookBody := None;
     opt_timezone := None; opt_enable := false; opt_disable := false;
     opt_sync := false |}.

(** [login --key cp_new_key] *)
Definition login_with_key : Options :=
  {| opt_key := Some "cp_new_key"; opt_apiUrl := None; opt_url := None;
     opt_token := None;
     opt_enabled := false; opt_disabled := false;
     opt_cron := None; opt_message := None; opt_name := None;
     opt_integration := None; opt_agent := None; opt_channel := None;
     opt_deliver := None; opt_replyTo := None;
     opt_webhookUrl := None; opt_webhookMethod := None;
     opt_webhookHeaders := None; opt_webhookBody := None;
     opt_timezone := None; opt_enable := false; opt_disable := false;
     opt_sync := false |}.

(** Every request for the list of jobs is answered with a list that holds
    one job, which has not run. *)
Definition one_job : World :=
  world [ Response 200 "JOBS: NOT RUN YET" ] None.

(** The headers of a webhook, as JSON text: an object whose one property,
    [Authorization], is the string [Bearer token]. *)
Definition headers_text : string :=
  stringify (obj [ ("Authorization", JStr "Bearer token") ]) 0.

(** The error of [mkdirSync] in a home directory that cannot be written. *)
Definition denied : js_error :=
  Error "EACCES: permission denied, mkdir '~/.clawtick'".

(** The client built from [config_text]. *)
Definition client : ApiClient :=
  {| apiUrl := Some (JStr "https://api.clawtick.com");
     apiKey := Some (JStr "cp_demo_key") |}.

End Demo.

(* ================================================================== *)
(** * The pattern matcher is correct *)
(* ================================================================== *)

Section RegexFacts.
Import JsString Regex Props.

Lemma app_empty_inv (s1 s2 : string) :
  s1 +:+ s2 = EmptyString -> s1 = EmptyString /\ s2 = EmptyString.
Proof. destruct s1; simpl; [auto | discriminate]. Qed.

Lemma app_cons_inv (s1 s2 : string) c s :
  s1 +:+ s2 = String c s ->
  (s1 = EmptyString /\ s2 = String c s)
  \/ exists s1', s1 = String c s1' /\ s = s1' +:+ s2.
Proof.
  destruct s1 as [|a s1]; simpl; intros E.
  - left; auto.
  - right. injection E as -> <-. eauto.
Qed.

Lemma Matches_void_inv s : Matches Void s -> False.
Proof. intros Hm; inversion Hm. Qed.

Lemma Matches_eps_inv s : Matches Eps s -> s = EmptyString.
Proof. intros Hm; inversion Hm; auto. Qed.

Lemma Matches_class_inv p s :
  Matches (Class p) s -> exists c, s = String c EmptyString /\ p c = true.
Proof. intros Hm; inversion Hm; subst; eauto. Qed.

Lemma Matches_seq_inv r1 r2 s :
  Matches (Seq r1 r2) s ->
  exists s1 s2, s = s1 +:+ s2 /\ Matches r1 s1 /\ Matches r2 s2.
Proof. intros Hm; inversion Hm; subst; eauto. Qed.

Lemma Matches_alt_inv r1 r2 s :
  Matches (Alt r1 r2) s -> Matches r1 s \/ Matches r2 s.
Proof. intros Hm; inversion Hm; subst; auto. Qed.

Lemma Matches_cons_seq r1 r2 c s1 s2 :
  Matches r1 (String c s1) -> Matches r2 s2 ->
  Matches (Seq r1 r2) (String c (s1 +:+ s2)).
Proof. intros H1 H2. apply (MSeq r1 r2 (String c s1) s2); auto. Qed.

Lemma nullable_Matches r : nullable r = true <-> Matches r EmptyString.
Proof.
  split.
  - induction r; simpl; intros E; try discriminate.
    + constructor.
    + apply andb_true_iff in E as [E1 E2].
      apply (MSeq r1 r2 EmptyString EmptyString); auto.
    + apply orb_true_iff in E as [E|E]; [apply MAltL | apply MAltR]; auto.
    + constructor.
  - intros Hm. remember EmptyString as s eqn:Es.
    induction Hm; simpl; auto; try discriminate.
    + apply app_empty_inv in Es as [-> ->]. rewrite IHHm1, IHHm2; auto.
    + rewrite IHHm; auto.
    + rewrite IHHm; auto using orb_true_r.
Qed.

Lemma Matches_star_cons r c s :
  Matches (Star r) (String c s) ->
  exists s1 s2, s = s1 +:+ s2 /\ Matches r (String c s1) /\ Matches (Star r) s2.
Proof.
  intros Hm. remember (Star r) as r' eqn:Er. remember (String c s) as s' eqn:Es.
  revert s Es.
  induction Hm; intros s0 Es; try discriminate.
  injection Er as ->.
  apply app_cons_inv in Es as [[-> ->]|(s1' & -> & ->)].
  - apply IHHm2; auto.
  - exists s1', s2. auto.
Qed.

Lemma deriv_Matches r : forall c s,
  Matches (deriv c r) s <-> Matches r (String c s).
Proof.
  induction r as [| |p|r1 IH1 r2 IH2|r1 IH1 r2 IH2|r IH]; intros c s; simpl.
  - split; intros Hm; inversion Hm.
  - split; intros Hm; inversion Hm.
  - destruct (p c) eqn:Ep; split; intros Hm.
    + apply Matches_eps_inv in Hm as ->. constructor; auto.
    + apply Matches_class_inv in Hm as (c' & [= <- ->] & _). constructor.
    + destruct (Matches_void_inv _ Hm).
    + apply Matches_class_inv in Hm as (c' & [= <- ->] & Hp). congruence.
  - split.
    + intros Hm.
      assert (Hcase : Matches (Seq (deriv c r1) r2) s
                      \/ (nullable r1 = true /\ Matches (deriv c r2) s)).
      { destruct (nullable r1); auto.
        apply Matches_alt_inv in Hm as [Hm|Hm]; auto. }
      destruct Hcase as [Hs|[En Hd]].
      * apply Matches_seq_inv in Hs as (s1 & s2 & -> & H1 & H2).
        apply Matches_cons_seq; [apply IH1|]; auto.
      * apply (MSeq r1 r2 EmptyString (String c s)).
        -- apply nullable_Matches; auto.
        -- apply IH2; auto.
    + intros Hm. apply Matches_seq_inv in Hm as (s1 & s2 & E & H1 & H2).
      symmetry in E.
      apply app_cons_inv in E as [[-> ->]|(s1' & -> & ->)].
      * apply nullable_Matches in H1. rewrite H1.
        apply MAltR. apply IH2; auto.
      * assert (Hd : Matches (Seq (deriv c r1) r2) (s1' +:+ s2))
          by (constructor; [apply IH1|]; auto).
        destruct (nullable r1); [apply MAltL|]; auto.
  - split; intros Hm; apply Matches_alt_inv in Hm as [Hm|Hm].
    + apply MAltL, IH1; auto.
    + apply MAltR, IH2; auto.
    + apply MAltL, IH1; auto.
    + apply MAltR, IH2; auto.
  - split; intros Hm.
    + apply Matches_seq_inv in Hm as (s1 & s2 & -> & H1 & H2).
      apply (MStarS r (String c s1) s2); [apply IH|]; auto.
    + apply Matches_star_cons in Hm as (s1 & s2 & -> & H1 & H2).
      constructor; [apply IH|]; auto.
Qed.

(** [/^r$/.test(s)] holds exactly for the strings of the language of [r]. *)
Lemma test_Matches r s : test r s = true <-> Matches r s.
Proof.
  revert r. induction s as [|c s IH]; intros r; simpl.
  - apply nullable_Matches.
  - rewrite IH. apply deriv_Matches.
Qed.

Lemma test_false r s : test r s = false <-> ~ Matches r s.
Proof.
  rewrite <- test_Matches. destruct (test r s); split; congruence.
Qed.

(** A pattern that is void stays void under derivation, and matches
    nothing. *)
Lemma is_void_not_nullable r : is_void r = true -> nullable r = false.
Proof.
  induction r; simpl; intros Hv; try discriminate; auto.
  - apply orb_true_iff in Hv as [Hv|Hv].
    + rewrite IHr1; auto.
    + rewrite IHr2; auto using andb_false_r.
  - apply andb_true_iff in Hv as [H1 H2]. rewrite IHr1, IHr2; auto.
Qed.

Lemma is_void_deriv c r : is_void r = true -> is_void (deriv c r) = true.
Proof.
  induction r; simpl; intros Hv; try discriminate; auto.
  - apply orb_true_iff in Hv as [Hv|Hv].
    + rewrite (is_void_not_nullable r1 Hv). simpl. rewrite IHr1; auto.
    + destruct (nullable r1); simpl.
      * rewrite Hv, IHr2 by assumption. rewrite orb_true_r. reflexivity.
      * rewrite Hv. apply orb_true_r.
  - apply andb_true_iff in Hv as [H1 H2]. rewrite IHr1, IHr2; auto.
Qed.

Lemma test_void r s : is_void r = true -> test r s = false.
Proof.
  revert r. induction s as [|c s IH]; intros r Hv; simpl.
  - apply is_void_not_nullable; assumption.
  - apply IH, is_void_deriv; assumption.
Qed.

End RegexFacts.

(* ================================================================== *)
(** * The validators *)
(* ================================================================== *)

Section ValidationFacts.
Import JsString Regex Js Validation Props.
Context `{Platform}.

Lemma length_zero s : (length s =? 0) = true <-> s = EmptyString.
Proof.
  unfold length. destruct s; simpl; split; try reflexivity; try discriminate.
Qed.

Lemma nonempty_true s : nonempty s = true <-> s <> EmptyString.
Proof. destruct s; simpl; split; congruence. Qed.

Lemma nonempty_trim s : trim s <> EmptyString -> nonempty s = true.
Proof. destruct s; simpl; [intros Hs; destruct Hs|]; reflexivity. Qed.

Lemma includes_In xs s : includes xs s = true <-> In s xs.
Proof.
  unfold includes. rewrite existsb_exists. split.
  - intros (x & Hin & Heq). apply String.eqb_eq in Heq. subst. assumption.
  - intros Hin. exists s. split; [assumption | apply String.eqb_refl].
Qed.

Lemma find_none_Forall {A} (f : A -> bool) xs :
  List.find f xs = None <-> Forall (fun x => f x = false) xs.
Proof.
  induction xs as [|x xs IH]; simpl.
  - split; [constructor | reflexivity].
  - destruct (f x) eqn:Ex.
    + split; [discriminate|]. intros Hall. inversion Hall; congruence.
    + rewrite IH. split; [constructor; assumption|].
      intros Hall. inversion Hall; assumption.
Qed.

Lemma badCronField_false part :
  badCronField part = false <-> part = "?" \/ Matches fieldPattern part.
Proof.
  unfold badCronField. rewrite andb_false_iff, !negb_false_iff.
  rewrite String.eqb_eq, test_Matches. tauto.
Qed.

Lemma app_nonempty s1 s2 : s1 <> EmptyString -> s1 +:+ s2 <> EmptyString.
Proof. destruct s1; simpl; [intros Hs; destruct Hs; reflexivity | discriminate]. Qed.

Lemma accept_well_formed : well_formed accept.
Proof. left. split; reflexivity. Qed.

Lemma reject_well_formed msg : msg <> EmptyString -> well_formed (reject msg).
Proof. intros Hmsg. right. split; [reflexivity|]. exists msg. auto. Qed.

End ValidationFacts.

(** Closes [well_formed (validator input)] by following the branches of the
    validator. *)
Ltac well_formed_result :=
  repeat match goal with
         | |- Props.well_formed (if ?b then _ else _) => destruct b
         | |- Props.well_formed (match ?x with _ => _ end) => destruct x
         | |- Props.well_formed (let _ := _ in _) => cbv zeta
         | |- Props.well_formed Validation.accept => apply accept_well_formed
         | |- Props.well_formed (Validation.reject _) =>
             apply reject_well_formed;
             first [ discriminate | apply app_nonempty; discriminate ]
         end.

Section ValidatorResults.
Import JsString Regex Js Validation Props.
Context `{Platform}.

(** X1.  Whatever the input, a validator returns either [valid: true] and no
    message, or [valid: false] and a message that is not empty. *)
Lemma validators_well_formed (input : string) :
  well_formed (validateCronExpression input)
  /\ well_formed (validateJobName input)
  /\ well_formed (validateMessage input)
  /\ well_formed (validateChannel input)
  /\ well_formed (validateTelegramChatId input)
  /\ well_formed (validatePhoneNumber input)
  /\ well_formed (validateAgentId input)
  /\ well_formed (validateJobId input)
  /\ well_formed (validateIntegrationType input)
  /\ well_formed (validateWebhookUrl input)
  /\ well_formed (validateWebhookMethod input)
  /\ well_formed (validateWebhookHeaders input)
  /\ well_formed (validateWebhookBody input).
Proof.
  unfold validateCronExpression, validateJobName, validateMessage,
    validateChannel, validateTelegramChatId, validatePhoneNumber,
    validateAgentId, validateJobId, validateIntegrationType,
    validateWebhookUrl, validateWebhookMethod, validateWebhookHeaders,
    validateWebhookBody, cronFieldCountError, cronFieldError,
    headersInvalidJsonError, headersNotObjectError, headerValueError.
  repeat split; well_formed_result.
Qed.

End ValidatorResults.

Section ValidatorRules.
Import JsString Regex Js Validation Props.
Context `{Platform}.

(** What each validator accepts.  The inputs it rejects, its failure modes,
    are the complement.  The statements are made for ASCII input, on which
    [trim], [split_ws], [length] and the case mappings are those of
    JavaScript. *)

(** X2.  For ASCII input, [validateCronExpression] accepts exactly the inputs
    that, once trimmed, split at white space into 5 or 6 fields, each of
    them a question mark or a comma-separated list of items in the language
    of the field pattern. *)
Lemma validateCronExpression_accepts cron :
  ascii_only cron = true ->
  let parts := split_ws (trim cron) in
  valid (validateCronExpression cron) = true
  <-> trim cron <> EmptyString
      /\ 5 <= Z.of_nat (List.length parts) <= 6
      /\ Forall (fun part => part = "?" \/ Matches fieldPattern part) parts.
Proof.
  intros _ parts. unfold validateCronExpression. fold parts.
  destruct (nonempty cron) eqn:Hne; cbn [negb].
  2:{ destruct cron; [|discriminate]. simpl. split; [discriminate|].
      intros [Ht _]. destruct Ht. reflexivity. }
  destruct (length (trim cron) =? 0) eqn:Hlen.
  { apply length_zero in Hlen. cbn. split; [discriminate | tauto]. }
  assert (Htrim : trim cron <> EmptyString).
  { intros Ht. apply length_zero in Ht. congruence. }
  cbv zeta.
  destruct ((Z.of_nat (List.length parts) <? 5) || (6 <? Z.of_nat (List.length parts)))
    eqn:Hcount.
  { cbn. split; [discriminate|]. intros (_ & Hc & _).
    apply orb_true_iff in Hcount as [Hc'|Hc']; apply Z.ltb_lt in Hc'; lia. }
  apply orb_false_iff in Hcount as [H5 H6].
  apply Z.ltb_ge in H5, H6.
  destruct (List.find badCronField parts) as [part|] eqn:Hfind.
  - cbn. split; [discriminate|]. intros (_ & _ & Hall).
    apply List.find_some in Hfind as [Hin Hbad].
    rewrite Forall_forall in Hall. apply list_elem_of_In in Hin.
    apply Hall, badCronField_false in Hin. congruence.
  - cbn. split; [|reflexivity]. intros _. repeat split; auto.
    apply find_none_Forall in Hfind.
    eapply Forall_impl; [exact Hfind|]. intros part. apply badCronField_false.
Qed.

Lemma validateJobName_accepts name :
  valid (validateJobName name) = true
  <-> trim name <> EmptyString
      /\ length (trim name) <= 100
      /\ Matches jobNamePattern (trim name).
Proof.
  unfold validateJobName.
  destruct (nonempty name) eqn:Hne; cbn [negb].
  2:{ destruct name; [|discriminate]. simpl. split; [discriminate|].
      intros [Ht _]. destruct Ht. reflexivity. }
  destruct (length (trim name) =? 0) eqn:Hlen.
  { apply length_zero in Hlen. cbn. split; [discriminate | tauto]. }
  assert (Htrim : trim name <> EmptyString).
  { intros Ht. apply length_zero in Ht. congruence. }
  destruct (100 <? length (trim name)) eqn:Hlong.
  { apply Z.ltb_lt in Hlong. cbn. split; [discriminate|]. lia. }
  apply Z.ltb_ge in Hlong.
  destruct (test jobNamePattern (trim name)) eqn:Htest; cbn.
  - apply test_Matches in Htest. tauto.
  - apply test_false in Htest. split; [discriminate | tauto].
Qed.

Lemma bounded_check input bound msg1 msg2 msg3 :
  valid (if negb (nonempty input) then reject msg1
         else if length (trim input) =? 0 then reject msg2
         else if bound <? length (trim input) then reject msg3
         else accept) = true
  <-> trim input <> EmptyString /\ length (trim input) <= bound.
Proof.
  destruct (nonempty input) eqn:Hne; cbn [negb].
  2:{ destruct input; [|discriminate]. simpl. split; [discriminate|].
      intros [Ht _]. destruct Ht. reflexivity. }
  destruct (length (trim input) =? 0) eqn:Hlen.
  { apply length_zero in Hlen. cbn. split; [discriminate | tauto]. }
  assert (Htrim : trim input <> EmptyString).
  { intros Ht. apply length_zero in Ht. congruence. }
  destruct (bound <? length (trim input)) eqn:Hlong; cbn.
  - apply Z.ltb_lt in Hlong. split; [discriminate | lia].
  - apply Z.ltb_ge in Hlong. tauto.
Qed.

(** X6.  The three validators that only bound the length of the trimmed input:
    for ASCII input, a message is accepted exactly when it has between 1
    and 5000 characters once trimmed, an agent ID between 1 and 50, a
    webhook body between 1 and 10000. *)
Lemma bounded_text_accepts (input : string) :
  ascii_only input = true ->
  (valid (validateMessage input) = true
   <-> trim input <> EmptyString /\ length (trim input) <= 5000)
  /\ (valid (validateAgentId input) = true
      <-> trim input <> EmptyString /\ length (trim input) <= 50)
  /\ (valid (validateWebhookBody input) = true
      <-> trim input <> EmptyString /\ length (trim input) <= 10000).
Proof.
  intros _. unfold validateMessage, validateAgentId, validateWebhookBody.
  split; [|split]; apply bounded_check.
Qed.

(** X7.  The three validators that look the input up in a list, after trimming
    it and changing its case: for ASCII input, a channel is accepted exactly
    when its lower case is one of the fifteen channels, an integration type
    when its lower case is [openclaw] or [webhook], a method when its upper
    case is [GET], [POST], [PUT] or [DELETE]. *)
Lemma listed_value_accepts (input : string) :
  ascii_only input = true ->
  (valid (validateChannel input) = true
   <-> In (toLowerCase (trim input)) validChannels)
  /\ (valid (validateIntegrationType input) = true
      <-> input <> EmptyString /\ In (toLowerCase (trim input)) validTypes)
  /\ (valid (validateWebhookMethod input) = true
      <-> input <> EmptyString /\ In (toUpperCase (trim input)) validMethods).
Proof.
  intros _.
  unfold validateChannel, validateIntegrationType, validateWebhookMethod.
  cbv zeta. rewrite <- !includes_In, <- nonempty_true.
  destruct (nonempty input), (includes validChannels _),
    (includes validTypes _), (includes validMethods _); cbn;
    intuition congruence.
Qed.

(** The three validators that match the trimmed input against a pattern. *)
Lemma patterned_value_accepts (input : string) :
  (valid (validateTelegramChatId input) = true
   <-> Matches chatIdPattern (trim input))
  /\ (valid (validatePhoneNumber input) = true
      <-> Matches phonePattern (trim input))
  /\ (valid (validateJobId input) = true
      <-> Matches jobIdPattern (trim input)).
Proof.
  unfold validateTelegramChatId, validatePhoneNumber, validateJobId.
  rewrite <- !test_Matches.
  destruct input as [|c input].
  { cbn. repeat split; discriminate. }
  cbn [nonempty negb].
  destruct (length (trim (String c input)) =? 0) eqn:Hlen.
  { apply length_zero in Hlen. rewrite Hlen. cbn. repeat split; discriminate. }
  destruct (test chatIdPattern _), (test phonePattern _), (test jobIdPattern _);
    cbn; intuition congruence.
Qed.

(** X11.  For ASCII input, [validateWebhookUrl] accepts exactly the inputs that,
    once trimmed, are not empty and that [new URL] parses to a URL whose
    protocol is [http:] or [https:]. *)
Lemma validateWebhookUrl_accepts url :
  ascii_only url = true ->
  valid (validateWebhookUrl url) = true
  <-> trim url <> EmptyString
      /\ (URL_protocol (trim url) = Some "http:"
          \/ URL_protocol (trim url) = Some "https:").
Proof.
  intros _. unfold validateWebhookUrl.
  destruct (nonempty url) eqn:Hne; cbn [negb].
  2:{ destruct url; [|discriminate]. simpl. split; [discriminate|].
      intros [Ht _]. destruct Ht. reflexivity. }
  destruct (length (trim url) =? 0) eqn:Hlen.
  { apply length_zero in Hlen. cbn. split; [discriminate | tauto]. }
  assert (Htrim : trim url <> EmptyString).
  { intros Ht. apply length_zero in Ht. congruence. }
  destruct (URL_protocol (trim url)) as [protocol|].
  2:{ cbn. split; [discriminate|]. intros [_ [?|?]]; discriminate. }
  destruct (includes [ "http:"; "https:" ] protocol) eqn:Hin; cbn.
  - apply includes_In in Hin. simpl in Hin.
    split; [|reflexivity]. intros _. split; [assumption|].
    destruct Hin as [<-|[<-|[]]]; auto.
  - split; [discriminate|]. intros [_ Hp].
    assert (Hin' : includes [ "http:"; "https:" ] protocol = true).
    { apply includes_In. simpl. destruct Hp as [[= <-]|[= <-]]; auto. }
    congruence.
Qed.

Lemma notStringEntry_false kv :
  notStringEntry kv = false <-> exists s, snd kv = JStr s.
Proof.
  unfold notStringEntry. destruct kv as [k []]; cbn; split;
    try discriminate; try (intros [s Hs]; discriminate); eauto.
Qed.

(** X12.  For ASCII input, [validateWebhookHeaders] accepts exactly the inputs
    that, once trimmed, parse as JSON to an object all of whose values are
    strings; [null], an array, a number and text that is not JSON are
    rejected. *)
Lemma validateWebhookHeaders_accepts headers :
  ascii_only headers = true ->
  valid (validateWebhookHeaders headers) = true
  <-> trim headers <> EmptyString
      /\ exists props,
           JSON_parse (trim headers) = Some (JObj props)
           /\ forall k v, props !! k = Some v -> exists s, v = JStr s.
Proof.
  intros _. unfold validateWebhookHeaders.
  destruct (nonempty headers) eqn:Hne; cbn [negb].
  2:{ destruct headers; [|discriminate]. simpl. split; [discriminate|].
      intros [Ht _]. destruct Ht. reflexivity. }
  destruct (length (trim headers) =? 0) eqn:Hlen.
  { apply length_zero in Hlen. cbn. split; [discriminate | tauto]. }
  assert (Htrim : trim headers <> EmptyString).
  { intros Ht. apply length_zero in Ht. congruence. }
  destruct (JSON_parse (trim headers)) as [parsed|]; cbn.
  2:{ split; [discriminate|]. intros (_ & props & ? & _). discriminate. }
  destruct parsed as [| | | | |props]; cbn;
    try (split; [discriminate|]; intros (_ & props & [=] & _)).
  destruct (List.find notStringEntry (map_to_list props)) as [kv|] eqn:Hfind; cbn.
  - split; [discriminate|]. intros (_ & props' & [= <-] & Hall).
    apply List.find_some in Hfind as [Hin Hbad]. destruct kv as [k v].
    apply list_elem_of_In, elem_of_map_to_list, Hall in Hin as [s ->].
    discriminate.
  - split; [|reflexivity]. intros _. split; [assumption|].
    exists props. split; [reflexivity|]. intros k v Hkv.
    apply find_none_Forall in Hfind. rewrite Forall_forall in Hfind.
    apply elem_of_map_to_list in Hkv.
    apply Hfind, notStringEntry_false in Hkv. exact Hkv.
Qed.

(** The examples of well-formed input that the specification names. *)
Lemma named_examples_accepted :
  validateCronExpression "0 9 * * *" = accept
  /\ validatePhoneNumber "+15555551234" = accept
  /\ validateWebhookMethod "POST" = accept.
Proof. repeat split; vm_compute; reflexivity. Qed.

(** A star followed by a step, as in [*/5], is in the language of no cron
    item: [fieldPattern] allows a step only after a number. *)
Lemma star_step_not_matched (rest : string) :
  test fieldPattern (String "*" (String "/" rest)) = false.
Proof.
  change (test fieldPattern (String "*" (String "/" rest)))
    with (test (deriv "/" (deriv "*" fieldPattern)) rest).
  apply test_void. vm_compute. reflexivity.
Qed.

(** C4: the validator rejects [*/5 * * * *], which its own message for a
    wrong number of fields and the README give as an example of a
    well-formed expression: the result is [valid: false] with the message
    for an invalid field. *)
Theorem documented_cron_example_rejected :
  validateCronExpression "*/5 * * * *" = reject (cronFieldError "*/5").
Proof. vm_compute. reflexivity. Qed.

End ValidatorRules.

(* ================================================================== *)
(** * What computations add to the trace *)
(* ================================================================== *)

Section TraceFacts.
Import JsString Js Validation Runtime Api Cli Props.
Local Open Scope monad_scope.
Context (P : event -> Prop).

Lemma emits_ret {A} (a : A) : emits_only P (ret a).
Proof. intros s. exists []. split; [reflexivity | constructor]. Qed.

Lemma emits_throw {A} e : emits_only P (@throw A e).
Proof. intros s. exists []. split; [reflexivity | constructor]. Qed.

Lemma emits_exit {A} c : emits_only P (@exit A c).
Proof. intros s. exists []. split; [reflexivity | constructor]. Qed.

Lemma emits_out_of_fuel {A} : emits_only P (@out_of_fuel A).
Proof. intros s. exists []. split; [reflexivity | constructor]. Qed.

Lemma emits_log_event ev : P ev -> emits_only P (log_event ev).
Proof.
  intros Hev s. exists [ev]. split; [reflexivity | repeat constructor; auto].
Qed.

Lemma emits_bind {A B} (m : M A) (k : A -> M B) :
  emits_only P m -> (forall a, emits_only P (k a)) -> emits_only P (bind m k).
Proof.
  intros Hm Hk s. destruct (Hm s) as (Δ1 & E1 & F1).
  unfold adds, bind in *. destruct (m s) as [[a|e|c|] s1]; simpl in *; eauto.
  destruct (Hk a s1) as (Δ2 & E2 & F2). unfold adds in E2.
  exists (Δ2 ++ Δ1). rewrite E2, E1, app_assoc. split; auto.
  apply Forall_app; auto.
Qed.

Lemma emits_try_catch {A} (m : M A) (h : js_error -> M A) :
  emits_only P m -> (forall e, emits_only P (h e)) ->
  emits_only P (try_catch m h).
Proof.
  intros Hm Hh s. destruct (Hm s) as (Δ1 & E1 & F1).
  unfold adds, try_catch in *.
  destruct (m s) as [[a|e|c|] s1]; simpl in *; eauto.
  destruct (Hh e s1) as (Δ2 & E2 & F2). unfold adds in E2.
  exists (Δ2 ++ Δ1). rewrite E2, E1, app_assoc. split; auto.
  apply Forall_app; auto.
Qed.

Lemma emits_state_only {A} (m : M A) :
  (forall s, trace (m s).2 = trace s) -> emits_only P m.
Proof. intros Hm s. exists []. split; [apply Hm | constructor]. Qed.

Lemma emits_get v k : emits_only P (get v k).
Proof.
  unfold get. destruct (get_prop v k); [apply emits_ret | apply emits_throw].
Qed.

Lemma emits_get_val v k : emits_only P (get_val v k).
Proof. destruct v; [apply emits_get | apply emits_throw]. Qed.

Lemma emits_fetch w r : P (EvFetch r) -> emits_only P (fetch w r).
Proof.
  intros Hr s. exists [EvFetch r]. split; [|repeat constructor; auto].
  unfold adds, fetch. destruct (server w _ r); reflexivity.
Qed.

Lemma emits_Date_now w : emits_only P (Date_now w).
Proof. apply emits_state_only. reflexivity. Qed.

Lemma emits_ensureConfigDir : emits_only P ensureConfigDir.
Proof.
  apply emits_state_only; intros s.
  unfold ensureConfigDir, bind, existsSync_CONFIG_DIR. simpl.
  destruct (config_dir s); reflexivity.
Qed.

Lemma emits_readFileSync : emits_only P readFileSync_CONFIG_FILE.
Proof.
  apply emits_state_only; intros s. unfold readFileSync_CONFIG_FILE.
  destruct (config_file s); reflexivity.
Qed.

Lemma emits_existsSync_file : emits_only P existsSync_CONFIG_FILE.
Proof. apply emits_state_only; intros s. reflexivity. Qed.

Lemma emits_writeFileSync text : emits_only P (writeFileSync_CONFIG_FILE text).
Proof.
  apply emits_state_only; intros s. unfold writeFileSync_CONFIG_FILE.
  destruct (config_dir s); reflexivity.
Qed.

Lemma emits_print_all outs :
  (forall o, P (EvPrint o)) -> emits_only P (print_all outs).
Proof.
  intros HP. induction outs as [|o outs IH]; simpl.
  - apply emits_ret.
  - apply emits_bind; [apply emits_log_event, HP | intros _; exact IH].
Qed.

Lemma emits_print o : (forall o, P (EvPrint o)) -> emits_only P (print o).
Proof. intros HP. apply emits_log_event, HP. Qed.

Lemma emits_sleep ms : (forall ms, P (EvSleep ms)) -> emits_only P (sleep ms).
Proof. intros HP. apply emits_log_event, HP. Qed.

End TraceFacts.

(** An event belongs to a class that computes to [True]. *)
Ltac event_in_class := solve [intros; repeat split; exact I].

Ltac emits_step :=
  match goal with
  | |- Props.emits_only _ (Runtime.bind _ _) => apply emits_bind; [| intros ?]
  | |- Props.emits_only _ (Runtime.try_catch _ _) =>
      apply emits_try_catch; [| intros ?]
  | |- Props.emits_only _ (Runtime.ret _) => apply emits_ret
  | |- Props.emits_only _ (Runtime.throw _) => apply emits_throw
  | |- Props.emits_only _ (Runtime.exit _) => apply emits_exit
  | |- Props.emits_only _ Runtime.out_of_fuel => apply emits_out_of_fuel
  | |- Props.emits_only _ (Runtime.get _ _) => apply emits_get
  | |- Props.emits_only _ (Runtime.get_val _ _) => apply emits_get_val
  | |- Props.emits_only _ (Runtime.Date_now _) => apply emits_Date_now
  | |- Props.emits_only _ (Runtime.log_event _) =>
      apply emits_log_event; event_in_class
  | |- Props.emits_only _ (Runtime.fetch _ _) =>
      apply emits_fetch; event_in_class
  | |- Props.emits_only _ (Runtime.print_all _) =>
      apply emits_print_all; event_in_class
  | |- Props.emits_only _ (Runtime.print _) =>
      apply emits_print; event_in_class
  | |- Props.emits_only _ (Runtime.sleep _) =>
      apply emits_sleep; event_in_class
  | |- Props.emits_only _ Api.ensureConfigDir => apply emits_ensureConfigDir
  | |- Props.emits_only _ Api.existsSync_CONFIG_FILE =>
      apply emits_existsSync_file
  | |- Props.emits_only _ Api.readFileSync_CONFIG_FILE =>
      apply emits_readFileSync
  | |- Props.emits_only _ (Api.writeFileSync_CONFIG_FILE _) =>
      apply emits_writeFileSync
  | |- Props.emits_only _ (if ?b then _ else _) => destruct b
  | |- Props.emits_only _ (match ?x with _ => _ end) => destruct x
  | |- Props.emits_only _ (let _ := _ in _) => cbv zeta
  | H : context [Props.emits_only] |- Props.emits_only _ _ => apply H
  end.

Section TraceFactsApi.
Import JsString Js Validation Runtime Api Cli Props.
Local Open Scope monad_scope.
Context (P : event -> Prop) `{Platform}.

Lemma emits_parse text : emits_only P (parse text).
Proof. unfold parse. repeat emits_step. Qed.

Lemma emits_loadConfig : emits_only P loadConfig.
Proof. unfold loadConfig. repeat first [apply emits_parse | emits_step]. Qed.

Lemma emits_saveConfig c : emits_only P (saveConfig c).
Proof. unfold saveConfig. repeat first [apply emits_loadConfig | emits_step]. Qed.

Lemma emits_new_ApiClient : emits_only P new_ApiClient.
Proof. unfold new_ApiClient. repeat first [apply emits_loadConfig | emits_step]. Qed.

Lemma emits_request w this method path body :
  (forall r, P (EvFetch r)) -> emits_only P (request w this method path body).
Proof.
  intros HP. unfold request. repeat first [apply emits_fetch, HP | emits_step].
Qed.

Lemma emits_api_call m :
  (forall e, P (EvApiFailed e)) -> emits_only P m -> emits_only P (api_call m).
Proof.
  intros HP Hm. unfold api_call.
  repeat first [apply emits_log_event, HP | emits_step].
Qed.

Lemma emits_find_by_id items jobId : emits_only P (find_by_id items jobId).
Proof. induction items as [|j items IH]; simpl; repeat emits_step. Qed.

End TraceFactsApi.

Ltac unfold_cli :=
  unfold Cli.login, Cli.logout, Cli.whoami, Cli.plan, Cli.usage,
    Cli.gateway_set, Cli.gateway_status, Cli.gateway_test, Cli.jobs_list,
    Cli.jobs_create, Cli.jobs_inspect, Cli.jobs_remove, Cli.jobs_update,
    Cli.jobs_trigger, Cli.jobs_enable, Cli.jobs_disable, Cli.apikey_list,
    Cli.apikey_create, Cli.apikey_revoke, Cli.status_action, Cli.doctor,
    Cli.poll_once, Cli.report, Cli.required, Cli.validate_if_given,
    Cli.validate, Cli.show, Cli.fail_and_exit, Cli.find_job, Cli.check_run,
    Runtime.spinner, Runtime.console_log, Runtime.console_error.

Ltac unfold_api :=
  unfold Api.listJobs, Api.createJob, Api.deleteJob, Api.updateJob,
    Api.triggerJob, Api.getStatus, Api.updateGateway, Api.getGateway,
    Api.testGateway, Api.listApiKeys, Api.createApiKey, Api.revokeApiKey.

(** Proves [emits_only P m] for a class [P] that computes, by following the
    structure of [m]. *)
Ltac emits :=
  repeat first
    [ apply emits_parse | apply emits_loadConfig | apply emits_saveConfig
    | apply emits_new_ApiClient | apply emits_find_by_id
    | apply emits_request; event_in_class
    | apply emits_api_call; [event_in_class|]
    | emits_step ].

(* ================================================================== *)
(** * The config store *)
(* ================================================================== *)

Section ConfigFacts.
Import JsString Js Validation Runtime Api Cli Props.
Local Open Scope monad_scope.
Context `{Platform}.

(** [loadConfig] returns the stored config and creates the directory. *)
Lemma loadConfig_eq s :
  loadConfig s = (Ret (stored_config s),
                  {| config_dir := true; config_file := config_file s;
                     trace := trace s |}).
Proof.
  unfold loadConfig, stored_config, ensureConfigDir, bind,
    existsSync_CONFIG_DIR, mkdirSync_CONFIG_DIR, existsSync_CONFIG_FILE,
    try_catch, readFileSync_CONFIG_FILE, parse, ret, throw.
  destruct s as [dir file t]; simpl.
  destruct dir, file as [text|]; simpl; try reflexivity;
    destruct (JSON_parse text); reflexivity.
Qed.

(** [saveConfig] writes the stored config overridden by its argument. *)
Lemma saveConfig_eq config s :
  saveConfig config s
  = (Ret tt,
     {| config_dir := true;
        config_file := Some (JSON_stringify (spread2 (stored_config s) config) 2);
        trace := trace s |}).
Proof.
  unfold saveConfig. unfold bind at 1.
  unfold ensureConfigDir, bind at 1, existsSync_CONFIG_DIR,
    mkdirSync_CONFIG_DIR, ret.
  destruct s as [dir file t]; destruct dir; simpl;
    unfold bind; rewrite loadConfig_eq; reflexivity.
Qed.

Lemma get_prop_spread2 a b k :
  get_prop (spread2 a b) k
  = Some (match own_props b !! k with
          | Some v => Some v
          | None => own_props a !! k
          end).
Proof.
  unfold spread2, get_prop. f_equal. rewrite lookup_union.
  destruct (own_props b !! k), (own_props a !! k); reflexivity.
Qed.

(** When the directory exists or can be created, [loadConfig] is the
    [loadConfig] in which [mkdirSync] succeeds. *)
Lemma loadConfig_may_throw_succeeds failure s :
  config_dir s = true \/ failure = None ->
  loadConfig_may_throw failure s = loadConfig s.
Proof.
  intros Hdir. unfold loadConfig_may_throw, loadConfig.
  unfold bind at 1. unfold bind at 3.
  unfold ensureConfigDir_may_throw, ensureConfigDir,
    mkdirSync_CONFIG_DIR_may_throw, bind, existsSync_CONFIG_DIR.
  destruct (config_dir s) eqn:Hd; cbn [negb]; [reflexivity|].
  destruct Hdir as [[=]| ->]. reflexivity.
Qed.

(** When the directory is missing and cannot be created, the error of
    [mkdirSync] leaves [loadConfig], which has read and changed nothing. *)
Lemma loadConfig_may_throw_fails e s :
  config_dir s = false ->
  loadConfig_may_throw (Some e) s = (Throw e, s).
Proof.
  intros Hdir. unfold loadConfig_may_throw, bind at 1.
  unfold ensureConfigDir_may_throw, bind, existsSync_CONFIG_DIR.
  rewrite Hdir. reflexivity.
Qed.

(** C10, amended.  [loadConfig] returns a config and does not throw when
    the config directory exists or can be created; the config it returns
    is then the default one, with the default API URL and an empty key,
    when the config file does not exist or its text is not parseable JSON.
    When the directory is missing and [mkdirSync] throws, that error leaves
    [loadConfig]: the call of [ensureConfigDir] stands before the [try]. *)
Theorem loadConfig_throws_only_from_mkdir failure s :
  (config_dir s = true \/ failure = None ->
   exists config s',
     loadConfig_may_throw failure s = (Ret config, s')
     /\ ((config_file s = None
          \/ exists text, config_file s = Some text /\ JSON_parse text = None)
         -> config = obj [ ("apiUrl", JStr "https://api.clawtick.com");
                           ("apiKey", JStr "") ]))
  /\ (forall e,
        config_dir s = false -> failure = Some e ->
        loadConfig_may_throw failure s = (Throw e, s)).
Proof.
  split.
  - intros Hdir. rewrite (loadConfig_may_throw_succeeds failure s Hdir).
    rewrite loadConfig_eq. eexists _, _. split; [reflexivity|].
    unfold stored_config. intros [->|(text & -> & ->)]; reflexivity.
  - intros e Hdir ->. apply loadConfig_may_throw_fails, Hdir.
Qed.

(** C5: after [saveConfig({ apiUrl, apiKey })], whatever the config file
    held before, [loadConfig] returns a config whose [apiUrl] and [apiKey]
    are the saved values, provided the JSON text written for the merged
    config parses back to it. *)
Theorem config_round_trip s (url key : string) :
  let config := obj [ ("apiUrl", JStr url); ("apiKey", JStr key) ] in
  round_trips (spread2 (stored_config s) config) ->
  exists s1 s2 loaded,
    saveConfig config s = (Ret tt, s1)
    /\ loadConfig s1 = (Ret loaded, s2)
    /\ get_prop loaded "apiUrl" = Some (Some (JStr url))
    /\ get_prop loaded "apiKey" = Some (Some (JStr key)).
Proof.
  intros config Hrt. rewrite saveConfig_eq.
  set (merged := spread2 (stored_config s) config) in *.
  set (s1 := {| config_dir := true;
                config_file := Some (JSON_stringify merged 2);
                trace := trace s |}).
  assert (Hload : stored_config s1 = merged).
  { unfold stored_config, s1. cbn [config_file].
    unfold round_trips in Hrt. rewrite Hrt. reflexivity. }
  exists s1, {| config_dir := true; config_file := config_file s1;
                trace := trace s1 |}, merged.
  split; [reflexivity|]. rewrite loadConfig_eq, Hload. split; [reflexivity|].
  unfold merged. rewrite !get_prop_spread2. split; reflexivity.
Qed.

(** C9: when the file holds a config object, [saveConfig] with a partial
    config writes the union of the two, in which every field that the
    argument does not have keeps its stored value; reading the file back
    gives that union.  For the argument of [logout], [{ apiKey: "" }], the
    key becomes the empty string and the stored [apiUrl] is unchanged. *)
Theorem saveConfig_frame s text (stored config : gmap string json) :
  config_file s = Some text ->
  JSON_parse text = Some (JObj stored) ->
  round_trips (JObj (config ∪ stored)) ->
  exists s1 s2,
    saveConfig (JObj config) s = (Ret tt, s1)
    /\ config_file s1 = Some (JSON_stringify (JObj (config ∪ stored)) 2)
    /\ loadConfig s1 = (Ret (JObj (config ∪ stored)), s2)
    /\ (forall k, config !! k = None -> (config ∪ stored) !! k = stored !! k)
    /\ (config = {[ "apiKey" := JStr "" ]} ->
        logout s = (console_log "✅ Logged out" s1)
        /\ (config ∪ stored) !! "apiKey" = Some (JStr "")
        /\ (config ∪ stored) !! "apiUrl" = stored !! "apiUrl").
Proof.
  intros Hfile Hparse Hrt.
  assert (Hst : stored_config s = JObj stored)
    by (unfold stored_config; rewrite Hfile, Hparse; reflexivity).
  assert (Hsave : forall c, saveConfig (JObj c) s
    = (Ret tt, {| config_dir := true;
                  config_file := Some (JSON_stringify (JObj (c ∪ stored)) 2);
                  trace := trace s |})).
  { intros c. rewrite saveConfig_eq, Hst. reflexivity. }
  rewrite Hsave.
  eexists _, _. split; [reflexivity|]. split; [reflexivity|].
  rewrite loadConfig_eq. unfold stored_config. cbn [config_file].
  unfold round_trips in Hrt. rewrite Hrt. split; [reflexivity|].
  split.
  - intros k Hk. rewrite lookup_union, Hk. destruct (stored !! k); reflexivity.
  - intros ->. split; [|split].
    + unfold logout, bind.
      change (obj [ ("apiKey", JStr "") ])
        with (JObj ({[ "apiKey" := JStr "" ]} : gmap string json)).
      rewrite Hsave. reflexivity.
    + rewrite lookup_union, lookup_singleton_eq.
      destruct (stored !! "apiKey"); reflexivity.
    + rewrite lookup_union, lookup_singleton_ne by discriminate.
      destruct (stored !! "apiUrl"); reflexivity.
Qed.

End ConfigFacts.

(* ================================================================== *)
(** * The API client *)
(* ================================================================== *)

Section RequestFacts.
Import JsString Js Validation Runtime Api Cli Props.
Local Open Scope monad_scope.
Context `{Platform}.

Lemma res_ok_iff status : res_ok status = true <-> 200 <= status <= 299.
Proof. unfold res_ok. rewrite andb_true_iff, !Z.leb_le. tauto. Qed.

(** X14.  A request of an authenticated client that the server answers with
    [status] and the body [text], where the parsed body has properties to
    read.  With a 2xx status it returns the parsed body and throws nothing.
    With any other status it throws an error whose message is the [error]
    field of the body when that field is a string that is not empty, and
    [API error: <status>] when the body has no [error] field or a falsy one
    (a body that does not parse counts as the empty object). *)
Lemma request_outcome (w : World) this method path body s status text :
  truthy_val (apiKey this) = true ->
  (forall r, server w (fetch_count (trace s)) r = Response status text) ->
  let data := res_json text in
  let o := (request w this method path body s).1 in
  (200 <= status <= 299 -> o = Ret data)
  /\ (~ 200 <= status <= 299 ->
      forall msg, get_prop data "error" = Some (Some (JStr msg)) ->
                  msg <> EmptyString -> o = Throw (Error msg))
  /\ (~ 200 <= status <= 299 ->
      forall e, get_prop data "error" = Some e -> truthy_val e = false ->
                o = Throw (Error ("API error: " +:+ pretty status))).
Proof.
  intros Hkey Hserver data o. subst o.
  unfold request, bind, fetch, get, throw, ret. rewrite Hkey. cbn [negb].
  rewrite Hserver. cbn [fst snd]. fold data.
  split; [|split].
  - intros Hok. apply res_ok_iff in Hok. rewrite Hok. reflexivity.
  - intros Hnok msg Hget Hmsg.
    destruct (res_ok status) eqn:Hok; [apply res_ok_iff in Hok; tauto|].
    cbn [negb]. rewrite Hget. cbn.
    destruct msg; [congruence|reflexivity].
  - intros Hnok e Hget He.
    destruct (res_ok status) eqn:Hok; [apply res_ok_iff in Hok; tauto|].
    cbn [negb]. rewrite Hget. cbn. rewrite He. reflexivity.
Qed.

(** C3: a response with a status that is not 2xx and the JSON body [null].
    The body parses, so the fallback to the empty object is not taken, and
    reading [data.error] throws: the request fails with a [TypeError] whose
    message is neither a field of the body nor [API error: <status>]. *)
Theorem request_null_body (w : World) this method path body s status text :
  truthy_val (apiKey this) = true ->
  (forall r, server w (fetch_count (trace s)) r = Response status text) ->
  ~ 200 <= status <= 299 ->
  JSON_parse text = Some JNull ->
  (request w this method path body s).1
  = Throw (TypeError "Cannot read properties of null (reading 'error')")
  /\ (request w this method path body s).1
     <> Throw (Error ("API error: " +:+ pretty status)).
Proof.
  intros Hkey Hserver Hnok Hnull.
  assert (Hok : res_ok status = false).
  { destruct (res_ok status) eqn:Hok; [|reflexivity].
    apply res_ok_iff in Hok. contradiction. }
  unfold request, bind, fetch, get, throw, ret, res_json.
  rewrite Hkey. cbn [negb]. rewrite Hserver. cbn [fst snd].
  rewrite Hok, Hnull. split; [reflexivity | discriminate].
Qed.

(** C7: with no config file and [CLAWPULSE_API_KEY] set, [clawtick status]
    issues no request: the client was built from the config alone, its
    request throws "Not authenticated", the message is printed and the
    process exits with status 1. *)
Theorem status_ignores_env_key (endpoint : string -> string * string)
  (format : string -> list json -> list output * option js_error)
  (server : nat -> http_request -> fetch_result) (clock : nat -> Z)
  (fuel : nat) (key : string) (dir : bool) :
  main {| server := server; clock := clock;
          env_CLAWPULSE_API_KEY := Some key |}
       endpoint format fuel Status no_options (initial dir None)
  = (Exit 1,
     {| config_dir := true; config_file := None;
        trace := [ EvPrint (Spinner Fail "Not authenticated. Run: clawtick login");
                   EvApiFailed (Error "Not authenticated. Run: clawtick login");
                   EvPrint (Spinner Start "Fetching status...") ] |}).
Proof.
  unfold main, new_ApiClient, bind. rewrite loadConfig_eq. reflexivity.
Qed.

End RequestFacts.

(* ================================================================== *)
(** * A failed API call ends the command *)
(* ================================================================== *)

Section TerminalFacts.
Import JsString Js Validation Runtime Api Cli Props.
Local Open Scope monad_scope.

Lemma is_print_not_failure ev : is_print ev -> not_failure ev.
Proof. destruct ev; simpl; auto. Qed.

Lemma failed_last_older Δ Δ0 :
  failed_last Δ -> Forall not_failure Δ0 -> failed_last (Δ ++ Δ0).
Proof.
  intros (P & e & Δ' & -> & HP & HΔ) H0.
  exists P, e, (Δ' ++ Δ0). rewrite <- app_assoc. simpl.
  split; [reflexivity | split; [assumption | apply Forall_app; auto]].
Qed.

Lemma failed_last_newer P Δ :
  Forall is_print P -> failed_last Δ -> failed_last (P ++ Δ).
Proof.
  intros HP (P1 & e & Δ' & -> & HP1 & HΔ).
  exists (P ++ P1), e, Δ'. rewrite <- app_assoc.
  split; [reflexivity | split; [apply Forall_app; auto | assumption]].
Qed.

Lemma terminal_clean {A} (m : M A) : emits_only not_failure m -> terminal m.
Proof. intros Hm s. destruct (Hm s) as (Δ & E & F). eauto. Qed.

Lemma terminal_bind {A B} (m : M A) (k : A -> M B) :
  terminal m -> (forall a, terminal (k a)) -> terminal (bind m k).
Proof.
  intros Hm Hk s. destruct (Hm s) as (Δ1 & E1 & C1).
  unfold adds, bind in *.
  destruct (m s) as [[a|e|c|] s1] eqn:Em; simpl in *; eauto.
  destruct C1 as [C1|[_ C1]]; [|discriminate].
  destruct (Hk a s1) as (Δ2 & E2 & C2). unfold adds in E2.
  exists (Δ2 ++ Δ1). rewrite E2, E1, app_assoc. split; auto.
  destruct C2 as [C2|[C2 Hx]].
  - left. apply Forall_app; auto.
  - right. split; auto using failed_last_older.
Qed.

Lemma terminal_try_catch {A} (m : M A) (h : js_error -> M A) :
  terminal m -> prints_and_exits h -> terminal (try_catch m h).
Proof.
  intros Hm Hh s. destruct (Hm s) as (Δ1 & E1 & C1).
  unfold adds, try_catch in *.
  destruct (m s) as [[a|e|c|] s1] eqn:Em; simpl in *; eauto.
  destruct (Hh e) as [Hp Hx]. destruct (Hp s1) as (Δ2 & E2 & F2).
  unfold adds in E2. exists (Δ2 ++ Δ1). rewrite E2, E1, app_assoc.
  split; auto. destruct C1 as [C1|[C1 _]].
  - left. apply Forall_app; split; auto.
    eapply Forall_impl; [exact F2 | exact is_print_not_failure].
  - right. split; auto using failed_last_newer.
Qed.

Lemma prints_and_exits_fail_and_exit {A} : prints_and_exits (@fail_and_exit A).
Proof.
  intros e. split; [unfold fail_and_exit, spinner; emits | reflexivity].
Qed.

Context `{Platform} (w : World).

(** A method of the client either returns, or records its failure and
    throws. *)
Lemma terminal_api_call this method path body :
  terminal (api_call (request w this method path body)).
Proof.
  intros s.
  destruct (emits_request not_failure w this method path body
              ltac:(intros; exact I) s) as (Δ & E & F).
  unfold adds, api_call, try_catch in *.
  destruct (request w this method path body s) as [[a|e|c|] s1] eqn:Er;
    simpl in *; eauto.
  exists (EvApiFailed e :: Δ). rewrite E. split; [reflexivity|].
  right. split; [|reflexivity].
  exists [], e, Δ. repeat split; auto.
Qed.

End TerminalFacts.

Ltac no_failure := solve [ unfold_cli; emits ].

Ltac exiting_handler :=
  solve [ apply prints_and_exits_fail_and_exit
        | intros ?; split; [unfold_cli; emits | reflexivity] ].

Ltac terminal_step :=
  match goal with
  | |- Props.terminal (Api.api_call (Api.request _ _ _ _ _)) =>
      apply terminal_api_call
  | |- Props.terminal _ => apply terminal_clean; no_failure
  | |- Props.terminal (Runtime.bind _ _) => apply terminal_bind; [| intros ?]
  | |- Props.terminal (Runtime.try_catch _ _) =>
      apply terminal_try_catch; [| exiting_handler]
  | |- Props.terminal (if ?b then _ else _) => destruct b
  | |- Props.terminal (match ?x with _ => _ end) => destruct x
  | H : context [Props.terminal] |- Props.terminal _ => apply H
  end.

Section TerminalCommands.
Import JsString Js Validation Runtime Api Cli Props.
Local Open Scope monad_scope.
Context `{Platform} (w : World) (endpoint : string -> string * string)
  (format : string -> list json -> list output * option js_error).

Lemma terminal_poll_loop fuel : forall api jobId attempts completed result,
  terminal (poll_loop w fuel api jobId attempts completed result).
Proof.
  induction fuel as [|fuel IH]; intros; simpl.
  - apply terminal_clean. emits.
  - unfold_cli. unfold_api. repeat terminal_step.
Qed.

Lemma terminal_action fuel api cmd options :
  cmd <> Doctor -> terminal (action w endpoint format fuel api cmd options).
Proof.
  intros Hcmd. pose proof (terminal_poll_loop fuel) as Hloop.
  destruct cmd; try congruence; simpl; unfold_cli; unfold_api;
    repeat terminal_step.
Qed.

(** [doctor], started with an API key in the config: when its first call,
    the connection check, throws, it prints the failure and exits with
    status 1. *)
Lemma doctor_connection_failure api s key e s1 :
  get_prop (stored_config s) "apiKey" = Some key ->
  truthy_val key = true ->
  getStatus w api (doctor_connection_check s) = (Throw e, s1) ->
  doctor w endpoint format api s
  = (Exit 1,
     (spinner Fail ("API connection failed: " +:+ err_message e) s1).2).
Proof.
  intros Hget Hkey Hstatus. unfold doctor, bind, try_catch.
  change (console_log ("🏥 Clawtick Health Check" +:+ nl) s)
    with (Ret tt, (console_log ("🏥 Clawtick Health Check" +:+ nl) s).2).
  cbv iota beta. rewrite loadConfig_eq. cbv iota beta.
  change (stored_config (console_log _ s).2) with (stored_config s).
  unfold get. rewrite Hget. unfold ret at 1. cbv iota beta.
  rewrite Hkey. cbn [negb]. unfold ret at 1. cbv iota beta.
  unfold console_log at 1, spinner at 1, print, log_event. cbv iota beta.
  match goal with
  | |- context [getStatus w api ?st] =>
      change (getStatus w api st)
        with (getStatus w api (doctor_connection_check s))
  end.
  rewrite Hstatus. reflexivity.
Qed.

End TerminalCommands.

(* ================================================================== *)
(** * Validation comes before any request *)
(* ================================================================== *)

Section GatedFacts.
Import JsString Js Validation Runtime Api Cli Props.
Local Open Scope monad_scope.

Lemma all_valid_app Δ2 Δ1 :
  all_valid Δ2 -> all_valid Δ1 -> all_valid (Δ2 ++ Δ1).
Proof. intros H2 H1 r Hin. apply in_app_or in Hin as [?|?]; auto. Qed.

Lemma rejections_printed_app Δ2 Δ1 :
  rejections_printed Δ2 -> all_valid Δ1 -> rejections_printed (Δ2 ++ Δ1).
Proof.
  intros H2 H1 r Hin Hr. apply in_app_or in Hin as [Hin|Hin].
  - apply in_or_app. left. auto.
  - apply H1 in Hin. congruence.
Qed.

Lemma all_valid_no_validate Δ : Forall not_validate Δ -> all_valid Δ.
Proof.
  intros HF r Hin. rewrite Forall_forall in HF.
  apply list_elem_of_In in Hin. apply HF in Hin. destruct Hin.
Qed.

Lemma prevalidation_local {A} (m : M A) :
  emits_only local_only m -> prevalidation m.
Proof.
  intros Hm s. destruct (Hm s) as (Δ & E & F). exists Δ. split; auto.
  split.
  - eapply Forall_impl; [exact F | intros ev [? _]; auto].
  - left. apply all_valid_no_validate.
    eapply Forall_impl; [exact F | intros ev [_ ?]; auto].
Qed.

Lemma prevalidation_bind {A B} (m : M A) (k : A -> M B) :
  prevalidation m -> (forall a, prevalidation (k a)) ->
  prevalidation (bind m k).
Proof.
  intros Hm Hk s. destruct (Hm s) as (Δ1 & E1 & F1 & C1).
  unfold adds, bind in *.
  destruct (m s) as [[a|e|c|] s1] eqn:Em; simpl in *;
    try (exists Δ1; split; [assumption|]; split; [assumption|];
         destruct C1 as [?|[Hx ?]]; [left; assumption|];
         right; split; [inversion Hx; reflexivity | assumption]).
  destruct C1 as [C1|[C1 _]]; [|discriminate].
  destruct (Hk a s1) as (Δ2 & E2 & F2 & C2). unfold adds in E2.
  exists (Δ2 ++ Δ1). rewrite E2, E1, app_assoc.
  split; auto. split; [apply Forall_app; auto|].
  destruct C2 as [C2|[Hx C2]].
  - left. apply all_valid_app; auto.
  - right. split; auto using rejections_printed_app.
Qed.

Lemma gated_no_validate {A} (m : M A) : emits_only not_validate m -> gated m.
Proof.
  intros Hm s. destruct (Hm s) as (Δ & E & F). exists Δ.
  split; auto using all_valid_no_validate.
Qed.

Lemma gated_bind {A B} (m : M A) (k : A -> M B) :
  prevalidation m -> (forall a, gated (k a)) -> gated (bind m k).
Proof.
  intros Hm Hk s. destruct (Hm s) as (Δ1 & E1 & F1 & C1).
  unfold adds, bind in *.
  destruct (m s) as [[a|e|c|] s1] eqn:Em; simpl in *;
    try (exists Δ1; split; [assumption|];
         destruct C1 as [?|[Hx ?]]; [left; assumption|];
         right; split; [inversion Hx; reflexivity | split; assumption]).
  destruct C1 as [C1|[C1 _]]; [|discriminate].
  destruct (Hk a s1) as (Δ2 & E2 & C2). unfold adds in E2.
  exists (Δ2 ++ Δ1). rewrite E2, E1, app_assoc. split; auto.
  destruct C2 as [C2|(Hx & F2 & C2)].
  - left. apply all_valid_app; auto.
  - right. split; auto. split; [apply Forall_app; auto|].
    auto using rejections_printed_app.
Qed.

(** The check after a validator call: a rejection is printed and the
    process exits with status 1. *)
Lemma prevalidation_validate r : prevalidation (validate r).
Proof.
  intros s.
  unfold validate, adds, bind, log_event, console_error, print, log_event.
  destruct (valid r) eqn:Er; simpl.
  - exists [EvValidate r]. split; [reflexivity|]. split; [repeat constructor|].
    left. intros r' [[= <-]|[]]. assumption.
  - exists [rejection_line r; EvValidate r]. split; [reflexivity|].
    split; [repeat constructor|]. right. split; [reflexivity|].
    intros r' [Hin|[[= <-]|[]]] _; [discriminate|]. left. reflexivity.
Qed.

End GatedFacts.

Ltac local_steps := solve [ unfold_cli; emits ].

Ltac prevalidation_step :=
  match goal with
  | |- Props.prevalidation (Cli.validate _) => apply prevalidation_validate
  | |- Props.prevalidation (Runtime.bind _ _) =>
      apply prevalidation_bind; [| intros ?]
  | |- Props.prevalidation (if ?b then _ else _) => destruct b
  | |- Props.prevalidation (match ?x with _ => _ end) => destruct x
  | |- Props.prevalidation _ => apply prevalidation_local; local_steps
  end.

Ltac no_validation := solve [ unfold_cli; unfold_api; emits ].

Ltac gated_step :=
  match goal with
  | |- Props.gated _ => apply gated_no_validate; no_validation
  | |- Props.gated (Runtime.bind _ _) =>
      apply gated_bind;
      [solve [unfold Cli.validate_if_given; repeat prevalidation_step]
      | intros ?]
  | |- Props.gated (if ?b then _ else _) => destruct b
  | |- Props.gated (match ?x with _ => _ end) => destruct x
  | |- Props.gated (let _ := _ in _) => cbv zeta
  end.

Section GatedCommands.
Import JsString Js Validation Runtime Api Cli Props.
Local Open Scope monad_scope.
Context `{Platform} (w : World) (endpoint : string -> string * string)
  (format : string -> list json -> list output * option js_error).

Lemma no_validate_poll_loop fuel : forall api jobId attempts completed result,
  emits_only not_validate (poll_loop w fuel api jobId attempts completed result).
Proof.
  induction fuel as [|fuel IH]; intros; simpl; unfold_cli; unfold_api; emits.
Qed.

Lemma gated_jobs_create api options : gated (jobs_create w format api options).
Proof. unfold jobs_create, required. repeat gated_step. Qed.

Lemma gated_jobs_update api jobId options :
  gated (jobs_update w api jobId options).
Proof. unfold jobs_update. repeat gated_step. Qed.

Lemma gated_action fuel api cmd options :
  gated (action w endpoint format fuel api cmd options).
Proof.
  pose proof (no_validate_poll_loop fuel) as Hloop.
  destruct cmd; simpl;
    first [ apply gated_jobs_create | apply gated_jobs_update
          | apply gated_no_validate; no_validation ].
Qed.

End GatedCommands.

(* ================================================================== *)
(** * The poll loop of [jobs trigger --sync] *)
(* ================================================================== *)

Section LoopFacts.
Import JsString Js Validation Runtime Api Cli Props.
Local Open Scope monad_scope.

Lemma sleeps_app t1 t2 : sleeps (t1 ++ t2) = sleeps t1 ++ sleeps t2.
Proof. apply omap_app. Qed.

Lemma sleeps_none t : Forall not_sleep t -> sleeps t = [].
Proof.
  induction 1 as [|ev t Hev _ IH]; [reflexivity|].
  destruct ev; simpl in *; auto. destruct Hev.
Qed.

Lemma fetch_count_app t1 t2 :
  fetch_count (t1 ++ t2) = (fetch_count t1 + fetch_count t2)%nat.
Proof.
  unfold fetch_count. rewrite List.filter_app, List.length_app. reflexivity.
Qed.

Lemma replicate_snoc {A} (x : A) n : replicate n x ++ [x] = replicate (S n) x.
Proof. induction n as [|n IH]; simpl; [reflexivity | rewrite IH; reflexivity]. Qed.

Lemma reads_only_bind {A B} (m : M A) (k : A -> M B) :
  reads_only m -> (forall a, reads_only (k a)) -> reads_only (bind m k).
Proof.
  intros Hm Hk s. destruct (Hm s) as (o & E & Ho). unfold bind. rewrite E.
  destruct o as [a|e|c|].
  - apply Hk.
  - eexists; split; [reflexivity|discriminate].
  - eexists; split; [reflexivity|discriminate].
  - destruct Ho; reflexivity.
Qed.

Lemma reads_only_ret {A} (a : A) : reads_only (ret a).
Proof. intros s. eexists; split; [reflexivity|discriminate]. Qed.

Lemma reads_only_throw {A} e : reads_only (@throw A e).
Proof. intros s. eexists; split; [reflexivity|discriminate]. Qed.

Lemma reads_only_get v k : reads_only (get v k).
Proof.
  unfold get.
  destruct (get_prop v k); [apply reads_only_ret | apply reads_only_throw].
Qed.

Lemma reads_only_Date_now w : reads_only (Date_now w).
Proof. intros s. eexists; split; [reflexivity|discriminate]. Qed.

End LoopFacts.

Ltac reads_only_steps :=
  repeat first
    [ apply reads_only_ret | apply reads_only_throw | apply reads_only_get
    | apply reads_only_Date_now
    | apply reads_only_bind; [|intros ?]
    | match goal with
      | H : Props.reads_only ?m |- Props.reads_only ?m => exact H
      | |- Props.reads_only (if ?b then _ else _) => destruct b
      | |- Props.reads_only (match ?x with _ => _ end) => destruct x
      end ].

Section Loop.
Import JsString Js Validation Runtime Api Cli Props.
Local Open Scope monad_scope.
Context `{Platform} (w : World).

Lemma reads_only_find_by_id items jobId : reads_only (find_by_id items jobId).
Proof. induction items as [|j items IH]; simpl; reads_only_steps. Qed.

Lemma reads_only_find_job data jobId : reads_only (find_job data jobId).
Proof.
  unfold find_job. apply reads_only_bind; [apply reads_only_get|].
  intros jobs. destruct jobs as [[]|]; reads_only_steps.
  apply reads_only_find_by_id.
Qed.

Lemma reads_only_check_run job : reads_only (check_run w job).
Proof. unfold check_run. reads_only_steps. Qed.

(** The element that [find] returns is an object whose [id] is the job
    ID. *)
Lemma find_by_id_found items jobId s job s' :
  find_by_id items jobId s = (Ret (Some job), s') ->
  exists props, job = JObj props /\ props !! "id" = Some (JStr jobId).
Proof.
  induction items as [|j items IH]; simpl; [discriminate|].
  unfold bind, get.
  destruct j as [| | | | |props]; simpl; try exact IH; try discriminate.
  destruct (props !! "id") as [[| | |x| |]|] eqn:Hid; simpl; try exact IH.
  destruct (String.eqb x jobId) eqn:Hx; [|exact IH].
  apply String.eqb_eq in Hx. subst x.
  intros [= <- <-]. eauto.
Qed.

Lemma find_job_found data jobId s job s' :
  find_job data jobId s = (Ret (Some job), s') ->
  exists props, job = JObj props /\ props !! "id" = Some (JStr jobId).
Proof.
  unfold find_job, bind, get.
  destruct (get_prop data "jobs") as [[[]|]|]; simpl; try discriminate.
  apply find_by_id_found.
Qed.

(** The check of one fetched job, as a function of the job and the time. *)
Lemma check_run_object props s :
  check_run w (Some (JObj props)) s
  = (Ret (if match props !! "lastRunAt" with
             | Some v =>
                 truthy v
                 && match Date_getTime v with
                    | Some t => clock w (fetch_count (trace s)) - t <? 30000
                    | None => false
                    end
             | None => false
             end
          then Some {| status := if js_gt (props !! "failCount") 0
                                 then "failed" else "success";
                       lastRunAt := props !! "lastRunAt" |}
          else None), s).
Proof.
  unfold check_run, bind, get, get_prop, ret, Date_now. cbn [truthy negb].
  destruct (props !! "lastRunAt") as [v|]; cbn; [|reflexivity].
  destruct (truthy v); cbn; [|reflexivity].
  destruct (Date_getTime v) as [t|]; cbn; [|reflexivity].
  destruct (_ <? 30000); reflexivity.
Qed.

Lemma report_returns jobId c r s : (report jobId c r s).1 = Ret tt.
Proof.
  unfold report. destruct c, r as [r|]; try reflexivity.
  destruct (String.eqb (status r) "success"); reflexivity.
Qed.

(** Idle passes are passes of the loop. *)
Lemma poll_loop_idle api jobId n : forall fuel attempts result s s1,
  idle_polls w api jobId n s s1 ->
  (attempts + n <= maxAttempts)%nat ->
  poll_loop w (n + fuel) api jobId attempts false result s
  = poll_loop w fuel api jobId (attempts + n) false result s1.
Proof.
  induction n as [|n IH]; intros fuel attempts result s s1 Hidle Hle.
  - inversion Hidle; subst. rewrite Nat.add_0_r. reflexivity.
  - inversion Hidle as [|? ? s' ? Hpoll Hrest]; subst.
    change (S n + fuel)%nat with (S (n + fuel)). cbn [poll_loop].
    assert (Hlt : (attempts <? maxAttempts)%nat = true)
      by (apply Nat.ltb_lt; lia).
    rewrite Hlt. cbn [andb negb]. unfold bind at 1. rewrite Hpoll.
    rewrite (IH fuel (S attempts) result s' s1 Hrest) by lia.
    f_equal. lia.
Qed.

(** The loop stops at the first pass that attributes a run. *)
Lemma poll_loop_found api jobId n fuel s s1 s2 r :
  idle_polls w api jobId n s s1 ->
  (n < maxAttempts)%nat ->
  poll_once w api jobId s1 = (Ret (Some r), s2) ->
  (maxAttempts < fuel)%nat ->
  poll_loop w fuel api jobId 0 false None s = (Ret (S n, true, Some r), s2).
Proof.
  intros Hidle Hn Hpoll Hfuel.
  replace fuel with (n + S (S (fuel - n - 2)))%nat
    by (unfold maxAttempts in *; lia).
  rewrite (poll_loop_idle api jobId n _ 0%nat None s s1 Hidle) by lia.
  cbn [poll_loop Nat.add].
  assert (Hlt : (n <? maxAttempts)%nat = true) by (apply Nat.ltb_lt; lia).
  rewrite Hlt. cbn [andb negb]. unfold bind. rewrite Hpoll.
  rewrite andb_false_r. reflexivity.
Qed.

(** After [maxAttempts] idle passes the loop gives up. *)
Lemma poll_loop_timeout api jobId fuel s s' :
  idle_polls w api jobId maxAttempts s s' ->
  (maxAttempts < fuel)%nat ->
  poll_loop w fuel api jobId 0 false None s
  = (Ret (maxAttempts, false, None), s').
Proof.
  intros Hidle Hfuel.
  replace fuel with (maxAttempts + S (fuel - maxAttempts - 1))%nat by lia.
  rewrite (poll_loop_idle api jobId _ _ 0%nat None s s' Hidle) by lia.
  cbn [poll_loop Nat.add]. rewrite Nat.ltb_irrefl. reflexivity.
Qed.

(** The command reports what the loop returns. *)
Lemma jobs_trigger_sync fuel api jobId options s sp a c r s2 :
  opt_sync options = true ->
  polling_starts w api jobId s sp ->
  poll_loop w fuel api jobId 0 false None sp = (Ret (a, c, r), s2) ->
  jobs_trigger w fuel api jobId options s = report jobId c r s2.
Proof.
  intros Hsync (d & s1 & Htrig & ->) Hloop. unfold jobs_trigger. rewrite Hsync.
  unfold try_catch, bind.
  set (sa := (spinner Start _ s).2) in *.
  change (spinner Start "Triggering job and waiting for completion..." s)
    with (Ret tt, sa).
  cbv iota beta. rewrite Htrig.
  set (sb := (spinner SetText _ s1).2) in *.
  change (spinner SetText "Job triggered, waiting for execution..." s1)
    with (Ret tt, sb).
  cbv iota beta. rewrite Hloop. cbn [fst snd].
  pose proof (report_returns jobId c r s2) as Hret.
  destruct (report jobId c r s2) as [o s3]. simpl in Hret. subst o.
  reflexivity.
Qed.

(** A request adds at most one fetch to the trace, and no wait. *)
Lemma api_call_request_adds api method path body s :
  exists Δ,
    adds (api_call (request w api method path body)) s Δ
    /\ Forall not_sleep Δ /\ (fetch_count Δ <= 1)%nat
    /\ (api_call (request w api method path body) s).1 <> OutOfFuel.
Proof.
  unfold adds, api_call, try_catch, request, bind, fetch, get, throw, ret,
    log_event.
  destruct (truthy_val (apiKey api)); simpl.
  2:{ eexists [_]. simpl.
      repeat split; [repeat constructor | auto | discriminate]. }
  destruct (server w _ _) as [msg|st text]; simpl.
  { eexists [_; _]. simpl.
    repeat split; [repeat constructor | auto | discriminate]. }
  destruct (res_ok st); simpl.
  { eexists [_]. simpl.
    repeat split; [repeat constructor | auto | discriminate]. }
  destruct (get_prop (res_json text) "error"); simpl;
    eexists [_; _]; simpl;
    (repeat split; [repeat constructor | auto | discriminate]).
Qed.

(** A pass through the loop body waits 2000 ms once, before it fetches at
    most once. *)
Lemma poll_once_adds api jobId s :
  exists Δ,
    adds (poll_once w api jobId) s (Δ ++ [EvSleep 2000])
    /\ Forall not_sleep Δ /\ (fetch_count Δ <= 1)%nat
    /\ (poll_once w api jobId s).1 <> OutOfFuel.
Proof.
  set (s1 := (sleep 2000 s).2).
  destruct (api_call_request_adds api "GET" "/v1/jobs" undefined s1)
    as (Δ & E & F & C & Ho).
  exists Δ. unfold adds in *. rewrite <- app_assoc.
  unfold poll_once, listJobs, bind.
  change (sleep 2000 s) with (Ret tt, s1). cbn iota.
  destruct (api_call _ s1) as [[data|e|c|] s2]; simpl in *;
    try (repeat split; auto; discriminate).
  destruct (reads_only_find_job data jobId s2) as (o1 & -> & Ho1).
  destruct o1 as [job|e|c|]; simpl;
    try (repeat split; auto; discriminate).
  destruct (reads_only_check_run job s2) as (o2 & -> & Ho2).
  simpl. repeat split; auto.
Qed.

(** With more fuel than attempts left, the loop ends after at most that
    many passes. *)
Lemma poll_loop_bounded fuel : forall api jobId attempts completed result s,
  (attempts <= maxAttempts)%nat ->
  (maxAttempts - attempts < fuel)%nat ->
  exists Δ k,
    adds (poll_loop w fuel api jobId attempts completed result) s Δ
    /\ sleeps Δ = replicate k 2000
    /\ (attempts + k <= maxAttempts)%nat
    /\ (fetch_count Δ <= k)%nat
    /\ (poll_loop w fuel api jobId attempts completed result s).1 <> OutOfFuel
    /\ forall a c r,
         (poll_loop w fuel api jobId attempts completed result s).1
         = Ret (a, c, r) ->
         a = (attempts + k)%nat.
Proof.
  induction fuel as [|fuel IH];
    intros api jobId attempts completed result s Hle Hfuel; [lia|].
  cbn [poll_loop].
  destruct ((attempts <? maxAttempts)%nat && negb completed) eqn:Hcond.
  2:{ exists [], 0%nat. simpl. repeat split; auto; try lia; try discriminate.
      intros a c r Hr. inversion Hr. lia. }
  apply andb_true_iff in Hcond as [Hlt _]. apply Nat.ltb_lt in Hlt.
  destruct (poll_once_adds api jobId s) as (Δ1 & E1 & F1 & C1 & Ho1).
  unfold adds in *. unfold bind.
  destruct (poll_once w api jobId s) as [[found|e|c|] s1] eqn:Epoll;
    simpl in *.
  - set (completed' := match found with Some _ => true | None => completed end).
    set (result' := match found with Some r => Some r | None => result end).
    assert (Heq : (match found with
                   | Some r => poll_loop w fuel api jobId (S attempts) true (Some r)
                   | None => poll_loop w fuel api jobId (S attempts) completed result
                   end)
                  = poll_loop w fuel api jobId (S attempts) completed' result')
      by (destruct found; reflexivity).
    rewrite Heq.
    destruct (IH api jobId (S attempts) completed' result' s1)
      as (Δ2 & k & E2 & S2 & L2 & C2 & Ho2 & Ha2); [lia | lia |].
    unfold adds in E2.
    exists (Δ2 ++ Δ1 ++ [EvSleep 2000]), (S k).
    assert (Hs : sleeps (Δ2 ++ Δ1 ++ [EvSleep 2000]) = replicate (S k) 2000).
    { rewrite !sleeps_app, S2, (sleeps_none _ F1). apply replicate_snoc. }
    assert (Hf : fetch_count (Δ2 ++ Δ1 ++ [EvSleep 2000])
                 = (fetch_count Δ2 + fetch_count Δ1)%nat).
    { rewrite !fetch_count_app.
      change (fetch_count [EvSleep 2000]) with 0%nat. lia. }
    rewrite E2, E1, Hs, Hf, <- !app_assoc.
    split; [reflexivity|]. split; [reflexivity|].
    split; [lia|]. split; [lia|]. split; [assumption|].
    intros a c r Hr. apply Ha2 in Hr. lia.
  - exists (Δ1 ++ [EvSleep 2000]), 1%nat.
    rewrite sleeps_app, (sleeps_none _ F1), fetch_count_app.
    change (fetch_count [EvSleep 2000]) with 0%nat.
    split; [assumption|]. split; [reflexivity|].
    split; [lia|]. split; [lia|]. split; discriminate.
  - exists (Δ1 ++ [EvSleep 2000]), 1%nat.
    rewrite sleeps_app, (sleeps_none _ F1), fetch_count_app.
    change (fetch_count [EvSleep 2000]) with 0%nat.
    split; [assumption|]. split; [reflexivity|].
    split; [lia|]. split; [lia|]. split; discriminate.
  - congruence.
Qed.

(** A pass that returns went through the three steps of the body: the list
    of jobs is fetched after the wait, the job is looked up in it, and the
    look-up decides what the pass finds. *)
Lemma poll_once_inv api jobId s found s' :
  poll_once w api jobId s = (Ret found, s') ->
  exists data job,
    listJobs w api (sleep 2000 s).2 = (Ret data, s')
    /\ find_job data jobId s' = (Ret job, s')
    /\ check_run w job s' = (Ret found, s').
Proof.
  unfold poll_once, bind.
  set (s1 := (sleep 2000 s).2). change (sleep 2000 s) with (Ret tt, s1).
  cbv iota.
  destruct (listJobs w api s1) as [[data|e|c|] s2]; try discriminate.
  destruct (reads_only_find_job data jobId s2) as (o1 & E1 & _).
  rewrite E1. destruct o1 as [job|e|c|]; try discriminate.
  destruct (reads_only_check_run job s2) as (o2 & E2 & _).
  rewrite E2. intros [= -> ->]. eauto.
Qed.

Lemma check_run_recent props s :
  ran_recently w props s ->
  check_run w (Some (JObj props)) s
  = (Ret (Some {| status := if js_gt (props !! "failCount") 0
                            then "failed" else "success";
                  lastRunAt := props !! "lastRunAt" |}), s).
Proof.
  intros (v & t & Hv & Htruthy & Ht & Hlt). rewrite check_run_object.
  rewrite Hv, Htruthy, Ht. cbn [andb].
  apply Z.ltb_lt in Hlt. rewrite Hlt. reflexivity.
Qed.

Lemma check_run_not_recent props s :
  ~ ran_recently w props s ->
  check_run w (Some (JObj props)) s = (Ret None, s).
Proof.
  intros Hnot. rewrite check_run_object.
  destruct (props !! "lastRunAt") as [v|] eqn:Hv; [|reflexivity].
  destruct (truthy v) eqn:Htruthy; [|reflexivity].
  destruct (Date_getTime v) as [t|] eqn:Ht; [|reflexivity].
  cbn [andb].
  destruct (_ <? 30000) eqn:Hlt; [|reflexivity].
  exfalso. apply Hnot. exists v, t. apply Z.ltb_lt in Hlt. auto.
Qed.

(** For a count, [failCount > 0] says that it is not zero. *)
Lemma js_gt_count n :
  0 <= n -> js_gt (Some (JNum n)) 0 = negb (n =? 0).
Proof.
  intros Hn. unfold js_gt, to_number.
  destruct (Z.eqb_spec n 0) as [->|Hne]; [reflexivity|].
  apply Z.ltb_lt. lia.
Qed.

Lemma poll_once_attributed api jobId s found s' :
  poll_once w api jobId s = (Ret found, s') ->
  exists data job,
    listJobs w api (sleep 2000 s).2 = (Ret data, s')
    /\ find_job data jobId s' = (Ret job, s')
    /\ attributed w jobId job s' found.
Proof.
  intros Hpoll.
  destruct (poll_once_inv _ _ _ _ _ Hpoll) as (data & job & Hlist & Hfind & Hcheck).
  exists data, job. split; [assumption|]. split; [assumption|].
  destruct job as [j|]; [|inversion Hcheck; reflexivity].
  destruct (find_job_found _ _ _ _ _ Hfind) as (props & -> & Hid).
  split; [assumption|]. split.
  - intros Hnot. rewrite (check_run_not_recent _ _ Hnot) in Hcheck.
    congruence.
  - intros Hrecent. rewrite (check_run_recent _ _ Hrecent) in Hcheck.
    injection Hcheck as <-.
    eexists. split; [reflexivity|]. cbn [status lastRunAt].
    split; [reflexivity|]. split; [reflexivity|].
    intros n Hn Hpos. rewrite Hn, (js_gt_count n Hpos).
    destruct (n =? 0); reflexivity.
Qed.

Lemma report_found jobId r s :
  (report jobId true (Some r) s).1 = Ret tt
  /\ adds (report jobId true (Some r)) s
       (if String.eqb (status r) "success"
        then success_report jobId r else failure_report jobId r).
Proof.
  unfold adds, report.
  destruct (String.eqb (status r) "success"); split; reflexivity.
Qed.

Lemma report_timeout jobId s :
  (report jobId false None s).1 = Ret tt
  /\ adds (report jobId false None) s (timeout_report jobId).
Proof. split; reflexivity. Qed.

(** C1.  [jobs trigger --sync], once the trigger request has succeeded.
    Every pass of the poll loop that returns has fetched the list of jobs
    and looked up the job with the given ID; it attributes a run exactly
    when that job has a [lastRunAt] less than 30000 ms before the time of
    the pass, with the status "failed" when [failCount] exceeds zero (for a
    count: is not zero) and "success" otherwise.  At the first pass that
    attributes a run the command stops and prints the success or the failure
    report according to that status; when [maxAttempts] passes attribute
    none it prints the timeout report.  In both cases it returns
    normally. *)
Theorem sync_trigger_attribution fuel api jobId options s0 sp :
  opt_sync options = true ->
  (maxAttempts < fuel)%nat ->
  polling_starts w api jobId s0 sp ->
  let run := jobs_trigger w fuel api jobId options s0 in
  (forall s found s',
     poll_once w api jobId s = (Ret found, s') ->
     exists data job,
       listJobs w api (sleep 2000 s).2 = (Ret data, s')
       /\ find_job data jobId s' = (Ret job, s')
       /\ attributed w jobId job s' found)
  /\ (forall n sa sb r,
        (n < maxAttempts)%nat ->
        idle_polls w api jobId n sp sa ->
        poll_once w api jobId sa = (Ret (Some r), sb) ->
        run.1 = Ret tt
        /\ trace run.2
           = (if String.eqb (status r) "success"
              then success_report jobId r else failure_report jobId r)
             ++ trace sb)
  /\ (forall s',
        idle_polls w api jobId maxAttempts sp s' ->
        run.1 = Ret tt
        /\ trace run.2 = timeout_report jobId ++ trace s').
Proof.
  intros Hsync Hfuel Hstart run. split; [|split].
  - intros s found s'. apply poll_once_attributed.
  - intros n sa sb r Hn Hidle Hpoll. subst run.
    rewrite (jobs_trigger_sync fuel api jobId options s0 sp (S n) true
               (Some r) sb Hsync Hstart
               (poll_loop_found api jobId n fuel sp sa sb r
                  Hidle Hn Hpoll Hfuel)).
    apply report_found.
  - intros s' Hidle. subst run.
    rewrite (jobs_trigger_sync fuel api jobId options s0 sp maxAttempts false
               None s' Hsync Hstart
               (poll_loop_timeout api jobId fuel sp s' Hidle Hfuel)).
    apply report_timeout.
Qed.

(** C2.  The poll loop of [jobs trigger --sync] ends whatever the server
    answers: with more fuel than [maxAttempts] it never runs out of fuel,
    and it goes through its body [k] times for some [k] of at most 150,
    waiting 2000 ms in each pass and fetching at most once in each; [k] is
    the final value of [attempts].  A pass starts with the wait, which
    comes before its one request.  The loop stops at the first pass that
    attributes a run. *)
Theorem sync_poll_loop_bounded fuel api jobId s :
  (maxAttempts < fuel)%nat ->
  let run := poll_loop w fuel api jobId 0 false None s in
  run.1 <> OutOfFuel
  /\ (exists Δ k,
        trace run.2 = Δ ++ trace s
        /\ (k <= 150)%nat
        /\ sleeps Δ = replicate k 2000
        /\ (fetch_count Δ <= k)%nat
        /\ forall a c r, run.1 = Ret (a, c, r) -> a = k)
  /\ (forall s1, exists Δ,
        trace (poll_once w api jobId s1).2 = Δ ++ EvSleep 2000 :: trace s1
        /\ Forall not_sleep Δ /\ (fetch_count Δ <= 1)%nat)
  /\ (forall n s1 s2 r,
        (n < maxAttempts)%nat ->
        idle_polls w api jobId n s s1 ->
        poll_once w api jobId s1 = (Ret (Some r), s2) ->
        run = (Ret (S n, true, Some r), s2)).
Proof.
  intros Hfuel run.
  destruct (poll_loop_bounded fuel api jobId 0 false None s)
    as (Δ & k & Hadds & Hsleeps & Hk & Hfetch & Hfuelled & Hattempts);
    [lia | lia |].
  split; [exact Hfuelled|]. split; [|split].
  - exists Δ, k. split; [exact Hadds|]. split; [exact Hk|].
    split; [exact Hsleeps|]. split; [exact Hfetch|]. exact Hattempts.
  - intros s1. destruct (poll_once_adds api jobId s1) as (Δ1 & E & F & C & _).
    exists Δ1. unfold adds in E. rewrite E, <- app_assoc. auto.
  - intros n s1 s2 r Hn Hidle Hpoll.
    exact (poll_loop_found api jobId n fuel s s1 s2 r Hidle Hn Hpoll Hfuel).
Qed.

End Loop.

(* ================================================================== *)
(** * The theorems at work on the concrete runtime *)
(* ================================================================== *)

Section Examples.
Import JsString Js Validation Runtime Api Cli Props.
Local Open Scope monad_scope.

(** [clawtick login] with no [--key] takes the key from the environment and
    stores it: the one place where the variable is read. *)
Lemma login_uses_env_key `{Platform} server clock (key : string) s :
  nonempty key = true ->
  login {| server := server; clock := clock;
           env_CLAWPULSE_API_KEY := Some key |} no_options s
  = (spinner Start "Authenticating..." ;;
     saveConfig (obj [ ("apiKey", JStr key) ]) ;;
     spinner Succeed "Authenticated successfully" ;;
     console_log ("Config saved to " +:+ getConfigPath)) s.
Proof.
  intros Hkey. unfold login, or_else, given. cbn. rewrite Hkey. reflexivity.
Qed.

(** [jobs trigger --sync] where the second poll sees a run that succeeded:
    the command returns after printing the success report. *)
Lemma sync_trigger_attribution_witness :
  let run := jobs_trigger (H:=Demo.platform) Demo.run_succeeds 151 Demo.client
               Demo.job_id Demo.sync_options
               (initial true (Some Demo.config_text)) in
  run.1 = Ret tt
  /\ exists older,
       trace run.2
       = success_report (H:=Demo.platform) Demo.job_id
           {| status := "success"; lastRunAt := Some (JNum 1767225603000) |}
         ++ older.
Proof.
  intros run.
  set (w := Demo.run_succeeds).
  set (s0 := initial true (Some Demo.config_text)).
  set (s1 := (triggerJob (H:=Demo.platform) w Demo.client Demo.job_id
                (spinner Start "Triggering job and waiting for completion..."
                   s0).2).2).
  set (sp := (spinner SetText "Job triggered, waiting for execution..." s1).2).
  set (sa := (poll_once (H:=Demo.platform) w Demo.client Demo.job_id sp).2).
  set (sb := (poll_once (H:=Demo.platform) w Demo.client Demo.job_id sa).2).
  assert (Hsync : opt_sync Demo.sync_options = true) by reflexivity.
  assert (Hfuel : (maxAttempts < 151)%nat) by (unfold maxAttempts; lia).
  assert (Hstart : polling_starts (H:=Demo.platform) w Demo.client Demo.job_id
                     s0 sp).
  { exists (obj [ ("ok", JBool true) ]), s1.
    split; [vm_compute; reflexivity | reflexivity]. }
  assert (Hidle : idle_polls (H:=Demo.platform) w Demo.client Demo.job_id 1
                    sp sa).
  { apply idle_polls_S with (s1 := sa); [vm_compute; reflexivity|].
    apply idle_polls_O. }
  destruct (sync_trigger_attribution (H:=Demo.platform) w 151 Demo.client
              Demo.job_id Demo.sync_options s0 sp Hsync Hfuel Hstart)
    as (_ & Hfound & _).
  destruct (Hfound 1%nat sa sb
              {| status := "success"; lastRunAt := Some (JNum 1767225603000) |})
    as [Hret Htrace].
  - unfold maxAttempts; lia.
  - exact Hidle.
  - vm_compute; reflexivity.
  - split; [exact Hret|]. exists (trace sb). exact Htrace.
Defined.

(** The poll loop against a server that never reports a run ends with 151
    units of fuel. *)
Lemma sync_poll_loop_bounded_witness :
  (maxAttempts < 151)%nat
  /\ (poll_loop (H:=Demo.platform) Demo.never_runs 151 Demo.client Demo.job_id
        0 false None (initial true (Some Demo.config_text))).1 <> OutOfFuel.
Proof.
  assert (Hfuel : (maxAttempts < 151)%nat) by (unfold maxAttempts; lia).
  split; [exact Hfuel|].
  exact (proj1 (sync_poll_loop_bounded (H:=Demo.platform) Demo.never_runs 151
                  Demo.client Demo.job_id
                  (initial true (Some Demo.config_text)) Hfuel)).
Defined.

(** A request answered with status 500 and the body [null] throws a
    [TypeError]. *)
Lemma request_null_body_witness :
  (request (H:=Demo.platform) Demo.null_error_body Demo.client "GET"
     "/v1/status" undefined (initial true (Some Demo.config_text))).1
  = Throw (TypeError "Cannot read properties of null (reading 'error')").
Proof.
  assert (Hkey : truthy_val (apiKey Demo.client) = true) by reflexivity.
  assert (Hserver : forall r,
            server Demo.null_error_body
              (fetch_count (trace (initial true (Some Demo.config_text)))) r
            = Response 500 "null") by (intros r; reflexivity).
  assert (Hstatus : ~ 200 <= 500 <= 299) by lia.
  assert (Hnull : JSON_parse (Platform:=Demo.platform) "null" = Some JNull)
    by reflexivity.
  exact (proj1 (request_null_body (H:=Demo.platform) Demo.null_error_body
                  Demo.client "GET" "/v1/status" undefined
                  (initial true (Some Demo.config_text)) 500 "null"
                  Hkey Hserver Hstatus Hnull)).
Defined.

(** A request refused with status 429 throws the message of the body. *)
Lemma request_outcome_example :
  (request (H:=Demo.platform) Demo.over_quota Demo.client "GET" "/v1/status"
     undefined (initial true (Some Demo.config_text))).1
  = Throw (Error "Monthly trigger quota exceeded").
Proof.
  assert (Hkey : truthy_val (apiKey Demo.client) = true) by reflexivity.
  assert (Hserver : forall r,
            server Demo.over_quota
              (fetch_count (trace (initial true (Some Demo.config_text)))) r
            = Response 429 "QUOTA EXCEEDED") by (intros r; reflexivity).
  destruct (request_outcome (H:=Demo.platform) Demo.over_quota Demo.client
              "GET" "/v1/status" undefined
              (initial true (Some Demo.config_text)) 429 "QUOTA EXCEEDED"
              Hkey Hserver) as (_ & Hmsg & _).
  apply Hmsg; [lia | vm_compute; reflexivity | discriminate].
Defined.

(** Saving a URL and a key when there is no config file, and loading them
    again. *)
Lemma config_round_trip_witness :
  exists s1 s2 loaded,
    saveConfig (H:=Demo.platform)
      (obj [ ("apiUrl", JStr "http://localhost:8787");
             ("apiKey", JStr "cp_local_key") ]) (initial false None)
    = (Ret tt, s1)
    /\ loadConfig (H:=Demo.platform) s1 = (Ret loaded, s2)
    /\ get_prop loaded "apiUrl" = Some (Some (JStr "http://localhost:8787"))
    /\ get_prop loaded "apiKey" = Some (Some (JStr "cp_local_key")).
Proof.
  apply (config_round_trip (H:=Demo.platform) (initial false None)
           "http://localhost:8787" "cp_local_key").
  vm_compute. reflexivity.
Defined.

(** [logout] on the stored demo config: the key is emptied, the URL stays. *)
Lemma saveConfig_frame_witness :
  let stored : gmap string json :=
    {[ "apiUrl" := JStr "https://api.clawtick.com";
       "apiKey" := JStr "cp_demo_key" ]} in
  let config : gmap string json := {[ "apiKey" := JStr "" ]} in
  (config ∪ stored) !! "apiKey" = Some (JStr "")
  /\ (config ∪ stored) !! "apiUrl" = Some (JStr "https://api.clawtick.com").
Proof.
  intros stored config.
  destruct (saveConfig_frame (H:=Demo.platform)
              (initial true (Some Demo.config_text)) Demo.config_text
              stored config)
    as (s1 & s2 & _ & _ & _ & _ & Hlogout).
  - reflexivity.
  - vm_compute. reflexivity.
  - vm_compute. reflexivity.
  - destruct (Hlogout eq_refl) as (_ & Hkey & Hurl).
    split; [exact Hkey|]. rewrite Hurl. vm_compute. reflexivity.
Defined.

(** [clawtick doctor] when the quota check gets a 500: an API call has
    failed, and the command goes on and ends with exit status 0. *)
Lemma doctor_survives_api_failure :
  let run := main (H:=Demo.platform) Demo.quota_check_fails Demo.endpoint
               Demo.format 151 Doctor no_options
               (initial true (Some Demo.config_text)) in
  In (EvApiFailed (Error "API error: 500")) (trace run.2)
  /\ run.1 = Ret tt
  /\ exit_status run.1 = Some 0.
Proof.
  vm_compute. split; [|split; reflexivity].
  repeat first [left; reflexivity | right].
Qed.

(** With no config directory and a home directory in which none can be
    created, [loadConfig] throws the error of [mkdirSync]. *)
Lemma loadConfig_throws_without_directory :
  loadConfig_may_throw (H:=Demo.platform) (Some Demo.denied)
    (initial false None)
  = (Throw Demo.denied, initial false None).
Proof. reflexivity. Qed.

(** A config file that is not JSON: with the directory in place
    [loadConfig] returns the default; without it, and without the
    permission to create it, [loadConfig] throws. *)
Lemma loadConfig_throws_only_from_mkdir_witness :
  (exists s',
     loadConfig_may_throw (H:=Demo.platform) (Some Demo.denied)
       (initial true (Some "{ not json"))
     = (Ret default_config, s'))
  /\ loadConfig_may_throw (H:=Demo.platform) (Some Demo.denied)
       (initial false (Some "{ not json"))
     = (Throw Demo.denied, initial false (Some "{ not json")).
Proof.
  split.
  - destruct (proj1 (loadConfig_throws_only_from_mkdir (H:=Demo.platform)
                       (Some Demo.denied) (initial true (Some "{ not json"))))
      as (config & s' & E & Hdefault); [left; reflexivity|].
    exists s'. rewrite E, Hdefault; [reflexivity|].
    right. exists "{ not json". split; [reflexivity | vm_compute; reflexivity].
  - apply (proj2 (loadConfig_throws_only_from_mkdir (H:=Demo.platform)
                    (Some Demo.denied) (initial false (Some "{ not json"))));
      reflexivity.
Defined.

End Examples.

(* ================================================================== *)
(** * What the validators accept, character by character *)
(* ================================================================== *)

Section Strings.
Import JsString Regex Js Validation Props.

Lemma append_cons c (s t : string) : String c s +:+ t = String c (s +:+ t).
Proof. reflexivity. Qed.

Lemma append_empty_l (t : string) : EmptyString +:+ t = t.
Proof. reflexivity. Qed.

Lemma append_empty_r (s : string) : s +:+ EmptyString = s.
Proof.
  induction s as [|c s IH]; [reflexivity|]. rewrite append_cons, IH. reflexivity.
Qed.

Lemma append_assoc (s1 s2 s3 : string) :
  (s1 +:+ s2) +:+ s3 = s1 +:+ (s2 +:+ s3).
Proof.
  induction s1 as [|c s1 IH]; [reflexivity|].
  rewrite !append_cons, IH. reflexivity.
Qed.

Lemma length_append (s1 s2 : string) :
  String.length (s1 +:+ s2) = (String.length s1 + String.length s2)%nat.
Proof.
  induction s1 as [|c s1 IH]; [reflexivity|].
  rewrite append_cons. simpl. rewrite IH. reflexivity.
Qed.

Lemma every_append p s1 s2 :
  every p (s1 +:+ s2) = every p s1 && every p s2.
Proof.
  induction s1 as [|c s1 IH]; [reflexivity|].
  rewrite append_cons. simpl. rewrite IH, andb_assoc. reflexivity.
Qed.

Lemma rev_app_twice (s a b : string) :
  String.rev_app (String.rev_app s a) b = String.rev_app a (s +:+ b).
Proof.
  revert a b. induction s as [|c s IH]; intros a b; simpl; [reflexivity|].
  rewrite IH. reflexivity.
Qed.

Lemma rev_involutive (s : string) : String.rev (String.rev s) = s.
Proof.
  unfold String.rev. rewrite rev_app_twice. simpl. apply append_empty_r.
Qed.

Lemma rev_app_append (s1 s2 a : string) :
  String.rev_app (s1 +:+ s2) a = String.rev_app s2 (String.rev_app s1 a).
Proof.
  revert a. induction s1 as [|c s1 IH]; intros a; simpl; [reflexivity|].
  apply IH.
Qed.

Lemma rev_app_acc (s a : string) :
  String.rev_app s a = String.rev s +:+ a.
Proof.
  unfold String.rev. revert a.
  induction s as [|c s IH]; intros a; simpl; [reflexivity|].
  rewrite (IH (String c a)), (IH (String c EmptyString)), append_assoc.
  reflexivity.
Qed.

Lemma trimStart_idempotent s : trimStart (trimStart s) = trimStart s.
Proof.
  induction s as [|c s IH]; simpl; [reflexivity|].
  destruct (is_space c) eqn:Hc; [exact IH|]. simpl. rewrite Hc. reflexivity.
Qed.

Lemma trimStart_snoc x c :
  is_space c = false ->
  exists y, trimStart (x +:+ String c EmptyString) = y +:+ String c EmptyString.
Proof.
  intros Hc. induction x as [|d x IH]; simpl.
  - rewrite Hc. exists EmptyString. reflexivity.
  - destruct (is_space d); [exact IH|].
    exists (String d x). reflexivity.
Qed.

Lemma trimEnd_cons c t :
  is_space c = false -> exists u, trimEnd (String c t) = String c u.
Proof.
  intros Hc. unfold trimEnd.
  assert (Hrev : String.rev (String c t)
                 = String.rev t +:+ String c EmptyString).
  { unfold String.rev at 1. simpl. apply rev_app_acc. }
  rewrite Hrev. destruct (trimStart_snoc (String.rev t) c Hc) as [y ->].
  exists (String.rev y). unfold String.rev at 1.
  rewrite rev_app_append. reflexivity.
Qed.

Lemma trimEnd_idempotent s : trimEnd (trimEnd s) = trimEnd s.
Proof.
  unfold trimEnd. rewrite rev_involutive, trimStart_idempotent. reflexivity.
Qed.

Lemma trimStart_clean s :
  trimStart s = EmptyString
  \/ exists c t, trimStart s = String c t /\ is_space c = false.
Proof.
  induction s as [|c s IH]; simpl; [left; reflexivity|].
  destruct (is_space c) eqn:Hc; [exact IH|]. right. eauto.
Qed.

(** [trim] removes all the white space at both ends: trimming again changes
    nothing. *)
Lemma trim_idempotent s : trim (trim s) = trim s.
Proof.
  unfold trim.
  assert (Hclean : trimStart (trimEnd (trimStart s)) = trimEnd (trimStart s)).
  { destruct (trimStart_clean s) as [->|(c & t & -> & Hc)]; [reflexivity|].
    destruct (trimEnd_cons c t Hc) as [u ->]. simpl. rewrite Hc. reflexivity. }
  rewrite Hclean. apply trimEnd_idempotent.
Qed.

Lemma trim_empty : trim EmptyString = EmptyString.
Proof. reflexivity. Qed.

End Strings.

Section Patterns.
Import JsString Regex Js Validation Props.

Lemma Matches_class_seq p r s :
  Matches (Seq (Class p) r) s
  <-> exists c s', s = String c s' /\ p c = true /\ Matches r s'.
Proof.
  split.
  - intros Hm. apply Matches_seq_inv in Hm as (s1 & s2 & -> & H1 & H2).
    apply Matches_class_inv in H1 as (c & -> & Hc). simpl. eauto.
  - intros (c & s' & -> & Hc & Hr).
    change (String c s') with (String c EmptyString +:+ s').
    constructor; [constructor; exact Hc | exact Hr].
Qed.

Lemma Matches_chr_seq c r s :
  Matches (Seq (Chr c) r) s <-> exists s', s = String c s' /\ Matches r s'.
Proof.
  unfold Chr. rewrite Matches_class_seq. split.
  - intros (c' & s' & -> & Hc & Hr). apply Ascii.eqb_eq in Hc. subst c'. eauto.
  - intros (s' & -> & Hr). exists c, s'.
    split; [reflexivity|]. split; [apply Ascii.eqb_refl | exact Hr].
Qed.

Lemma Matches_star_class p s :
  Matches (Star (Class p)) s <-> every p s = true.
Proof.
  split.
  - induction s as [|c s IH]; intros Hm; simpl; [reflexivity|].
    apply Matches_star_cons in Hm as (s1 & s2 & -> & H1 & H2).
    apply Matches_class_inv in H1 as (c' & [= <- ->] & Hc).
    rewrite append_empty_l. rewrite Hc. apply IH, H2.
  - induction s as [|c s IH]; simpl; intros He; [constructor|].
    apply andb_true_iff in He as [Hc Hs].
    change (String c s) with (String c EmptyString +:+ s).
    constructor; [constructor; exact Hc | apply IH, Hs].
Qed.

Lemma Matches_plus_class p s :
  Matches (Plus (Class p)) s <-> s <> EmptyString /\ every p s = true.
Proof.
  unfold Plus. rewrite Matches_class_seq. split.
  - intros (c & s' & -> & Hc & Hs). apply Matches_star_class in Hs.
    split; [discriminate|]. simpl. rewrite Hc, Hs. reflexivity.
  - intros [Hne He]. destruct s as [|c s']; [congruence|].
    simpl in He. apply andb_true_iff in He as [Hc Hs].
    exists c, s'. split; [reflexivity|]. split; [exact Hc|].
    apply Matches_star_class, Hs.
Qed.

Lemma Matches_opt r s :
  Matches (Opt r) s <-> Matches r s \/ s = EmptyString.
Proof.
  unfold Opt. split.
  - intros Hm. apply Matches_alt_inv in Hm as [Hm|Hm]; [left; exact Hm|].
    right. apply Matches_eps_inv, Hm.
  - intros [Hm| ->]; [apply MAltL, Hm | apply MAltR; constructor].
Qed.

Lemma Matches_upto_class p n : forall s,
  Matches (Upto n (Class p)) s
  <-> (String.length s <= n)%nat /\ every p s = true.
Proof.
  induction n as [|n IH]; intros s; simpl.
  - split.
    + intros Hm. apply Matches_eps_inv in Hm. subst s. split; [simpl; lia | reflexivity].
    + intros [Hlen _]. destruct s; [constructor | simpl in Hlen; lia].
  - rewrite Matches_opt, Matches_class_seq. split.
    + intros [(c & s' & -> & Hc & Hs)| ->].
      * apply IH in Hs as [Hlen He]. simpl. rewrite Hc, He.
        split; [lia | reflexivity].
      * split; [simpl; lia | reflexivity].
    + intros [Hlen He]. destruct s as [|c s']; [right; reflexivity|].
      left. simpl in *. apply andb_true_iff in He as [Hc Hs].
      exists c, s'. split; [reflexivity|]. split; [exact Hc|].
      apply IH. split; [lia | exact Hs].
Qed.

End Patterns.

Section ValidatorLanguages.
Import JsString Regex Js Validation Props.
Context `{Platform}.

Lemma Matches_opt_seq r1 r2 s :
  Matches (Seq (Opt r1) r2) s <-> Matches (Seq r1 r2) s \/ Matches r2 s.
Proof.
  split.
  - intros Hm. apply Matches_seq_inv in Hm as (s1 & s2 & -> & H1 & H2).
    apply Matches_opt in H1 as [H1| ->].
    + left. constructor; assumption.
    + right. rewrite append_empty_l. exact H2.
  - intros [Hm|Hm].
    + apply Matches_seq_inv in Hm as (s1 & s2 & -> & H1 & H2).
      constructor; [apply Matches_opt; left; exact H1 | exact H2].
    + rewrite <- (append_empty_l s).
      constructor; [apply Matches_opt; right; reflexivity | exact Hm].
Qed.

(** X5.  For ASCII input, [validateJobName] accepts exactly the names that,
    once trimmed, have between 1 and 100 characters, each a letter, a
    digit, white space, a hyphen or an underscore. *)
Theorem job_name_accepted_exactly name :
  ascii_only name = true ->
  valid (validateJobName name) = true
  <-> trim name <> EmptyString
      /\ length (trim name) <= 100
      /\ every jobNameChar (trim name) = true.
Proof.
  intros _. rewrite validateJobName_accepts. unfold jobNamePattern.
  rewrite Matches_plus_class. tauto.
Qed.

(** X8.  For ASCII input, [validatePhoneNumber] accepts exactly the inputs
    that, once trimmed, are a plus sign, a digit from 1 to 9 and then
    between 1 and 14 more digits. *)
Theorem phone_number_accepted_exactly phone :
  ascii_only phone = true ->
  valid (validatePhoneNumber phone) = true
  <-> exists c t,
        trim phone = String "+" (String c t)
        /\ is_digit_1_9 c = true
        /\ every is_digit t = true
        /\ (1 <= String.length t <= 14)%nat.
Proof.
  intros _. destruct (patterned_value_accepts phone) as (_ & -> & _).
  unfold phonePattern.
  change (Repeat 1 14 digit) with (Seq (Class is_digit) (Upto 13 (Class is_digit))).
  rewrite Matches_chr_seq. split.
  - intros (s1 & -> & Hm).
    apply Matches_class_seq in Hm as (c & s2 & -> & Hc & Hm).
    apply Matches_class_seq in Hm as (d & s3 & -> & Hd & Hm).
    apply Matches_upto_class in Hm as [Hlen He].
    exists c, (String d s3). split; [reflexivity|]. split; [exact Hc|].
    simpl. rewrite Hd, He. split; [reflexivity | lia].
  - intros (c & t & -> & Hc & He & Hlen).
    exists (String c t). split; [reflexivity|].
    apply Matches_class_seq. exists c, t. split; [reflexivity|].
    split; [exact Hc|].
    destruct t as [|d t']; [simpl in Hlen; lia|].
    simpl in He, Hlen. apply andb_true_iff in He as [Hd He].
    apply Matches_class_seq. exists d, t'. split; [reflexivity|].
    split; [exact Hd|]. apply Matches_upto_class. split; [lia | exact He].
Qed.

(** X9.  For ASCII input, [validateTelegramChatId] accepts exactly the inputs
    that, once trimmed, are one or more digits, with or without a minus
    sign in front. *)
Theorem chat_id_accepted_exactly chatId :
  ascii_only chatId = true ->
  valid (validateTelegramChatId chatId) = true
  <-> exists t,
        (trim chatId = t \/ trim chatId = String "-" t)
        /\ t <> EmptyString /\ every is_digit t = true.
Proof.
  intros _. destruct (patterned_value_accepts chatId) as (-> & _ & _).
  unfold chatIdPattern. rewrite Matches_opt_seq, Matches_chr_seq.
  unfold digit. split.
  - intros [(t & -> & Hm)|Hm]; apply Matches_plus_class in Hm as [Hne He].
    + exists t. auto.
    + exists (trim chatId). auto.
  - intros (t & [->| ->] & Hne & He).
    + right. apply Matches_plus_class. auto.
    + left. exists t. split; [reflexivity|]. apply Matches_plus_class. auto.
Qed.

(** X10.  For ASCII input, [validateJobId] accepts exactly the inputs that,
    once trimmed, are one or more digits, a hyphen, and one or more
    lower-case letters or digits. *)
Theorem job_id_accepted_exactly jobId :
  ascii_only jobId = true ->
  valid (validateJobId jobId) = true
  <-> exists ds tl,
        trim jobId = ds +:+ String "-" tl
        /\ ds <> EmptyString /\ every is_digit ds = true
        /\ tl <> EmptyString /\ every jobIdTailChar tl = true.
Proof.
  intros _. destruct (patterned_value_accepts jobId) as (_ & _ & ->).
  unfold jobIdPattern, digit. split.
  - intros Hm. apply Matches_seq_inv in Hm as (ds & rest & -> & Hds & Hm).
    apply Matches_chr_seq in Hm as (tl & -> & Htl).
    apply Matches_plus_class in Hds as [? ?].
    apply Matches_plus_class in Htl as [? ?].
    exists ds, tl. auto.
  - intros (ds & tl & -> & Hne & He & Hne' & He').
    constructor; [apply Matches_plus_class; auto|].
    apply Matches_chr_seq. exists tl. split; [reflexivity|].
    apply Matches_plus_class; auto.
Qed.

Lemma plain_field_matches part :
  plain_cron_field part -> part = "?" \/ Matches fieldPattern part.
Proof.
  intros [->|[->|[Hne He]]].
  - right. unfold fieldPattern, cronItem.
    change "*"%string with ("*" +:+ EmptyString)%string.
    constructor; [apply MAltL; constructor; reflexivity | constructor].
  - left. reflexivity.
  - right. unfold fieldPattern, cronItem.
    rewrite <- (append_empty_r part).
    constructor; [|constructor]. apply MAltR.
    rewrite <- (append_empty_r part).
    constructor; [apply Matches_plus_class; auto|].
    change EmptyString with (EmptyString +:+ EmptyString).
    constructor; apply Matches_opt; right; reflexivity.
Qed.

Lemma split_ws_empty : split_ws EmptyString = [EmptyString].
Proof. reflexivity. Qed.

(** X3.  [validateCronExpression] accepts every expression of 5 or 6 fields that
    are each a star, a question mark or a number, whatever the number: it
    checks the shape of a field and not the range of its values. *)
Theorem cron_plain_fields_accepted cron :
  let parts := split_ws (trim cron) in
  5 <= Z.of_nat (List.length parts) <= 6 ->
  Forall plain_cron_field parts ->
  validateCronExpression cron = accept.
Proof.
  intros parts Hcount Hfields.
  assert (Htrim : trim cron <> EmptyString).
  { intros Hempty. subst parts. rewrite Hempty in Hcount. simpl in Hcount. lia. }
  unfold validateCronExpression.
  rewrite (nonempty_trim _ Htrim). cbn [negb].
  destruct (length (trim cron) =? 0) eqn:Hlen;
    [apply length_zero in Hlen; contradiction|].
  fold parts.
  assert (Hc : (Z.of_nat (List.length parts) <? 5)
               || (6 <? Z.of_nat (List.length parts)) = false).
  { apply orb_false_iff. split; apply Z.ltb_ge; lia. }
  rewrite Hc.
  assert (Hfind : List.find badCronField parts = None).
  { apply find_none_Forall. eapply Forall_impl; [exact Hfields|].
    intros part Hpart. apply badCronField_false, plain_field_matches, Hpart. }
  rewrite Hfind. reflexivity.
Qed.

(** X4.  [validateCronExpression] rejects every expression that has a field
    beginning with a star and a slash, such as [*/5] or [*/15]: its pattern
    allows a step only after a number. *)
Theorem cron_star_step_rejected cron (rest : string) :
  In (String "*" (String "/" rest)) (split_ws (trim cron)) ->
  valid (validateCronExpression cron) = false.
Proof.
  intros Hin. unfold validateCronExpression.
  destruct (nonempty cron); [|reflexivity]. cbn [negb].
  destruct (length (trim cron) =? 0); [reflexivity|].
  destruct (_ || _); [reflexivity|].
  destruct (List.find badCronField (split_ws (trim cron))) eqn:Hfind;
    [reflexivity|].
  exfalso. apply find_none_Forall in Hfind.
  rewrite Forall_forall in Hfind.
  apply list_elem_of_In in Hin. specialize (Hfind _ Hin).
  unfold badCronField in Hfind. rewrite star_step_not_matched in Hfind.
  discriminate.
Qed.

End ValidatorLanguages.

(** Decides [valid r1 = valid r2] for two results that branch on the same
    tests. *)
Ltac same_validity :=
  repeat match goal with
         | |- context [match ?x with _ => _ end] => destruct x
         end;
  reflexivity.

(** [valid (v input) = valid (v (trim input))] for a validator [v] that
    looks at its input through [trim]. *)
Ltac nonempty_cons :=
  match goal with
  | |- context [JsString.nonempty (String ?a ?i)] =>
      change (JsString.nonempty (String a i)) with true
  end;
  cbv beta iota delta [negb].

Ltac trims_input :=
  rewrite trim_idempotent;
  match goal with
  | input : string |- _ => destruct input; [reflexivity|]
  end;
  nonempty_cons;
  match goal with
  | |- context [JsString.trim ?x] =>
      let t := fresh "t" in
      generalize (JsString.trim x); intros t;
      destruct t; [vm_compute; reflexivity|]
  end;
  nonempty_cons;
  same_validity.

Section OuterSpace.
Import JsString Regex Js Validation Props.
Context `{Platform}.

Lemma trims_cron : forall input,
  valid (validateCronExpression input)
  = valid (validateCronExpression (trim input)).
Proof. intros input. unfold validateCronExpression. trims_input. Qed.

Lemma trims_name : forall input,
  valid (validateJobName input) = valid (validateJobName (trim input)).
Proof. intros input. unfold validateJobName. trims_input. Qed.

Lemma trims_message : forall input,
  valid (validateMessage input) = valid (validateMessage (trim input)).
Proof. intros input. unfold validateMessage. trims_input. Qed.

Lemma trims_channel : forall input,
  valid (validateChannel input) = valid (validateChannel (trim input)).
Proof.
  intros input. unfold validateChannel. rewrite trim_idempotent.
  same_validity.
Qed.

Lemma trims_chat_id : forall input,
  valid (validateTelegramChatId input)
  = valid (validateTelegramChatId (trim input)).
Proof. intros input. unfold validateTelegramChatId. trims_input. Qed.

Lemma trims_phone : forall input,
  valid (validatePhoneNumber input) = valid (validatePhoneNumber (trim input)).
Proof. intros input. unfold validatePhoneNumber. trims_input. Qed.

Lemma trims_agent : forall input,
  valid (validateAgentId input) = valid (validateAgentId (trim input)).
Proof. intros input. unfold validateAgentId. trims_input. Qed.

Lemma trims_job_id : forall input,
  valid (validateJobId input) = valid (validateJobId (trim input)).
Proof. intros input. unfold validateJobId. trims_input. Qed.

Lemma trims_type : forall input,
  valid (validateIntegrationType input)
  = valid (validateIntegrationType (trim input)).
Proof. intros input. unfold validateIntegrationType. trims_input. Qed.

Lemma trims_url : forall input,
  valid (validateWebhookUrl input) = valid (validateWebhookUrl (trim input)).
Proof. intros input. unfold validateWebhookUrl. trims_input. Qed.

Lemma trims_method : forall input,
  valid (validateWebhookMethod input)
  = valid (validateWebhookMethod (trim input)).
Proof. intros input. unfold validateWebhookMethod. trims_input. Qed.

Lemma trims_headers : forall input,
  valid (validateWebhookHeaders input)
  = valid (validateWebhookHeaders (trim input)).
Proof. intros input. unfold validateWebhookHeaders. trims_input. Qed.

Lemma trims_body : forall input,
  valid (validateWebhookBody input) = valid (validateWebhookBody (trim input)).
Proof. intros input. unfold validateWebhookBody. trims_input. Qed.

(** X13.  White space around the input never changes the verdict of a validator:
    each of the thirteen accepts [input] exactly when it accepts
    [input.trim()]. *)
Theorem validators_ignore_outer_space (input : string) :
  Forall (fun v : string -> ValidationResult =>
            valid (v input) = valid (v (trim input)))
    [ validateCronExpression; validateJobName; validateMessage;
      validateChannel; validateTelegramChatId; validatePhoneNumber;
      validateAgentId; validateJobId; validateIntegrationType;
      validateWebhookUrl; validateWebhookMethod; validateWebhookHeaders;
      validateWebhookBody ].
Proof.
  repeat constructor;
    first [ apply trims_cron | apply trims_name | apply trims_message
          | apply trims_channel | apply trims_chat_id | apply trims_phone
          | apply trims_agent | apply trims_job_id | apply trims_type
          | apply trims_url | apply trims_method | apply trims_headers
          | apply trims_body ].
Qed.

End OuterSpace.

(* ================================================================== *)
(** * What reaches the network *)
(* ================================================================== *)

(** [emits], with [rule] for the requests. *)
Ltac emits_with rule :=
  repeat first
    [ apply emits_parse | apply emits_loadConfig | apply emits_saveConfig
    | apply emits_new_ApiClient | apply emits_find_by_id
    | rule
    | apply emits_api_call; [event_in_class|]
    | emits_step ].

Section Requests.
Import JsString Js Validation Runtime Api Cli Props.
Local Open Scope monad_scope.
Context `{Platform} (w : World) (endpoint : string -> string * string)
  (format : string -> list json -> list output * option js_error).

(** The constructor reads the two fields of the stored config. *)
Lemma new_ApiClient_eq s :
  new_ApiClient s
  = (match stored_client s with
     | Some api => Ret api
     | None =>
         Throw (TypeError
                  "Cannot read properties of null (reading 'apiUrl')")
     end,
     {| config_dir := true; config_file := config_file s; trace := trace s |}).
Proof.
  unfold new_ApiClient, bind. rewrite loadConfig_eq.
  unfold stored_client, get, get_prop.
  destruct (stored_config s); reflexivity.
Qed.

(** A client without a key sends nothing. *)
Lemma emits_request_no_key P this method path body :
  truthy_val (apiKey this) = false ->
  emits_only P (request w this method path body).
Proof. intros Hkey. unfold request. rewrite Hkey. apply emits_throw. Qed.

Lemma no_key_poll_loop api jobId fuel :
  truthy_val (apiKey api) = false ->
  forall attempts completed result,
    emits_only not_fetch
      (poll_loop w fuel api jobId attempts completed result).
Proof.
  intros Hkey. induction fuel as [|fuel IH]; intros; simpl;
    unfold_cli; unfold_api;
    emits_with ltac:(apply emits_request_no_key; exact Hkey).
Qed.

Lemma no_key_action fuel api cmd options :
  truthy_val (apiKey api) = false ->
  emits_only not_fetch (action w endpoint format fuel api cmd options).
Proof.
  intros Hkey. pose proof (no_key_poll_loop api) as Hloop.
  destruct cmd; simpl; unfold_cli; unfold_api;
    emits_with ltac:(first [ apply emits_request_no_key; exact Hkey
                           | apply Hloop; exact Hkey ]).
Qed.

Lemma api_call_no_key api method path body s :
  truthy_val (apiKey api) = false ->
  api_call (request w api method path body) s
  = (Throw (Error "Not authenticated. Run: clawtick login"),
     (log_event
        (EvApiFailed (Error "Not authenticated. Run: clawtick login")) s).2).
Proof.
  intros Hkey. unfold api_call, try_catch, request. rewrite Hkey. reflexivity.
Qed.

Lemma no_key_api_command fuel api cmd options s :
  truthy_val (apiKey api) = false ->
  api_command cmd = true ->
  (action w endpoint format fuel api cmd options s).1 = Exit 1
  /\ exists older,
       trace (action w endpoint format fuel api cmd options s).2
       = EvPrint (Spinner Fail "Not authenticated. Run: clawtick login")
         :: EvApiFailed (Error "Not authenticated. Run: clawtick login")
         :: older.
Proof.
  intros Hkey Hcmd.
  destruct cmd; try discriminate Hcmd; simpl;
    unfold_cli; unfold_api; unfold bind, try_catch; simpl;
    try (destruct (opt_sync options); simpl);
    rewrite api_call_no_key by exact Hkey; simpl;
    (split; [reflexivity | eexists; reflexivity]).
Qed.

(** X16.  Without an API key in the stored config no command sends a request,
    whatever its options.  The commands that go straight to the API print
    "Not authenticated. Run: clawtick login" and exit with status 1;
    [doctor] exits with status 1 as well, and [whoami] returns. *)
Theorem no_key_no_request fuel cmd options dir file key :
  let s0 := initial dir file in
  let run := main w endpoint format fuel cmd options s0 in
  get_prop (stored_config s0) "apiKey" = Some key ->
  truthy_val key = false ->
  Forall not_fetch (trace run.2)
  /\ (api_command cmd = true ->
      run.1 = Exit 1
      /\ exists older,
           trace run.2
           = EvPrint (Spinner Fail "Not authenticated. Run: clawtick login")
             :: EvApiFailed (Error "Not authenticated. Run: clawtick login")
             :: older)
  /\ (cmd = Doctor -> run.1 = Exit 1)
  /\ (cmd = Whoami -> run.1 = Ret tt).
Proof.
  intros s0 run Hget Hkey. subst run. unfold main, bind.
  rewrite new_ApiClient_eq. unfold stored_client. rewrite Hget.
  destruct (get_prop (stored_config s0) "apiUrl") as [url|] eqn:Hurl.
  2:{ unfold get_prop in Hget, Hurl.
      destruct (stored_config s0); discriminate. }
  set (api := {| apiUrl := url; apiKey := key |}).
  set (s1 := {| config_dir := true; config_file := config_file s0;
                trace := trace s0 |}).
  assert (Hstored : stored_config s1 = stored_config s0) by reflexivity.
  split; [|split; [|split]].
  - destruct (no_key_action fuel api cmd options Hkey s1) as (Δ & E & F).
    unfold adds in E. rewrite E. apply Forall_app. split; [exact F|].
    constructor.
  - intros Hcmd. apply no_key_api_command; assumption.
  - intros ->. simpl. unfold doctor, bind.
    change (console_log ("🏥 Clawtick Health Check" +:+ nl) s1)
      with (Ret tt, (console_log ("🏥 Clawtick Health Check" +:+ nl) s1).2).
    cbv iota beta. rewrite loadConfig_eq. cbv iota beta.
    change (stored_config (console_log _ s1).2) with (stored_config s0).
    unfold get. rewrite Hget. unfold ret at 1. cbv iota beta.
    rewrite Hkey. reflexivity.
  - intros ->. simpl. unfold whoami, bind. rewrite loadConfig_eq.
    cbv iota beta. rewrite Hstored. unfold get. rewrite Hget.
    unfold ret at 1. cbv iota beta. rewrite Hkey. reflexivity.
Qed.

(** A request of a client is sent by that client. *)
Lemma emits_request_sent this versioned method path body :
  (versioned = true -> exists rest, path = "/v1/" +:+ rest) ->
  emits_only (sent_by this versioned) (request w this method path body).
Proof.
  intros Hpath.
  unfold request. destruct (truthy_val (apiKey this)) eqn:Hkey; cbn [negb].
  - apply emits_bind.
    + apply emits_fetch. simpl.
      split; [exact Hkey|]. split; [reflexivity|]. exists path.
      split; [reflexivity | exact Hpath].
    + intros res. repeat emits_step.
  - apply emits_throw.
Qed.

Lemma sent_poll_loop api versioned jobId fuel :
  forall attempts completed result,
    emits_only (sent_by api versioned)
      (poll_loop w fuel api jobId attempts completed result).
Proof.
  induction fuel as [|fuel IH]; intros; simpl; unfold_cli; unfold_api;
    emits_with ltac:(apply emits_request_sent; intros _; eexists; reflexivity).
Qed.

Lemma sent_action fuel api cmd options :
  emits_only (sent_by api (negb (calls_missing_method cmd)))
    (action w endpoint format fuel api cmd options).
Proof.
  pose proof (sent_poll_loop api true) as Hloop.
  destruct cmd; simpl; unfold_cli; unfold_api;
    emits_with ltac:(first [ apply emits_request_sent;
                             first [ intros _; eexists; reflexivity
                                   | discriminate ]
                           | apply Hloop ]).
Qed.

(** X15.  Every request that a command sends carries the key of the stored
    config as its bearer token, a key that is not empty; its URL is the
    stored API URL followed by the path of the call, which begins with
    [/v1/] for the commands all of whose client methods are in the source
    at hand. *)
Theorem requests_carry_stored_key fuel cmd options dir file r :
  let s0 := initial dir file in
  let run := main w endpoint format fuel cmd options s0 in
  In (EvFetch r) (trace run.2) ->
  exists url key,
    get_prop (stored_config s0) "apiUrl" = Some url
    /\ get_prop (stored_config s0) "apiKey" = Some key
    /\ truthy_val key = true
    /\ req_authorization r = "Bearer " +:+ template key
    /\ exists path,
         req_url r = template url +:+ path
         /\ (calls_missing_method cmd = false ->
             exists rest, path = "/v1/" +:+ rest).
Proof.
  intros s0 run. subst run. unfold main, bind.
  rewrite new_ApiClient_eq. unfold stored_client.
  destruct (get_prop (stored_config s0) "apiUrl") as [url|];
    [|intros []].
  destruct (get_prop (stored_config s0) "apiKey") as [key|];
    [|intros []].
  set (api := {| apiUrl := url; apiKey := key |}).
  match goal with
  | |- context [action _ _ _ _ _ _ _ ?s] =>
      destruct (sent_action fuel api cmd options s) as (Δ & E & F)
  end.
  unfold adds in E. rewrite E. cbn [trace]. rewrite app_nil_r.
  intros Hin. rewrite Forall_forall in F.
  apply list_elem_of_In, F in Hin. simpl in Hin.
  destruct Hin as (Hkey & Hauth & path & Hurl & Hpath). exists url, key.
  split; [reflexivity|]. split; [reflexivity|]. split; [exact Hkey|].
  split; [exact Hauth|]. exists path. split; [exact Hurl|].
  intros Hcmd. rewrite Hcmd in Hpath. exact (Hpath eq_refl).
Qed.

End Requests.

(* ================================================================== *)
(** * Budgets: requests and waits *)
(* ================================================================== *)

Section Costs.
Import JsString Js Validation Runtime Api Cli Props.
Local Open Scope monad_scope.
Context (μ : list event -> nat)
  (μ_app : forall t1 t2, μ (t1 ++ t2) = (μ t1 + μ t2)%nat)
  (P : event -> Prop)
  (μ_quiet : forall t, Forall P t -> μ t = 0%nat).

Lemma cost_quiet {A} (m : M A) n : emits_only P m -> costs_at_most μ n m.
Proof using μ_quiet.
  intros Hm s. destruct (Hm s) as (Δ & E & F). exists Δ.
  split; [exact E|]. rewrite (μ_quiet Δ F). lia.
Qed.

Lemma cost_weaken {A} (m : M A) n n' :
  (n <= n')%nat -> costs_at_most μ n m -> costs_at_most μ n' m.
Proof.
  intros Hle Hm s. destruct (Hm s) as (Δ & E & C). exists Δ.
  split; [exact E | lia].
Qed.

Lemma cost_bind {A B} (m : M A) (k : A -> M B) n1 n2 n :
  (n1 + n2 <= n)%nat ->
  costs_at_most μ n1 m -> (forall a, costs_at_most μ n2 (k a)) ->
  costs_at_most μ n (bind m k).
Proof using μ_app.
  intros Hle Hm Hk s. destruct (Hm s) as (Δ1 & E1 & C1).
  unfold adds, bind in *.
  destruct (m s) as [[a|e|c|] s1]; simpl in *;
    try (exists Δ1; split; [exact E1 | lia]).
  destruct (Hk a s1) as (Δ2 & E2 & C2). unfold adds in E2.
  exists (Δ2 ++ Δ1). rewrite E2, E1, app_assoc, μ_app. split; [reflexivity | lia].
Qed.

Lemma cost_try_catch {A} (m : M A) (h : js_error -> M A) n1 n2 n :
  (n1 + n2 <= n)%nat ->
  costs_at_most μ n1 m -> (forall e, costs_at_most μ n2 (h e)) ->
  costs_at_most μ n (try_catch m h).
Proof using μ_app.
  intros Hle Hm Hh s. destruct (Hm s) as (Δ1 & E1 & C1).
  unfold adds, try_catch in *.
  destruct (m s) as [[a|e|c|] s1]; simpl in *;
    try (exists Δ1; split; [exact E1 | lia]).
  destruct (Hh e s1) as (Δ2 & E2 & C2). unfold adds in E2.
  exists (Δ2 ++ Δ1). rewrite E2, E1, app_assoc, μ_app. split; [reflexivity | lia].
Qed.

Lemma cost_bind_l {A B} (m : M A) (k : A -> M B) n :
  emits_only P m -> (forall a, costs_at_most μ n (k a)) ->
  costs_at_most μ n (bind m k).
Proof using μ_app μ_quiet.
  intros Hm Hk. apply (cost_bind m k 0 n n); [lia | | exact Hk].
  apply cost_quiet, Hm.
Qed.

Lemma cost_bind_r {A B} (m : M A) (k : A -> M B) n :
  costs_at_most μ n m -> (forall a, emits_only P (k a)) ->
  costs_at_most μ n (bind m k).
Proof using μ_app μ_quiet.
  intros Hm Hk. apply (cost_bind m k n 0 n); [lia | exact Hm |].
  intros a. apply cost_quiet, Hk.
Qed.

Lemma cost_try_catch_l {A} (m : M A) (h : js_error -> M A) n :
  costs_at_most μ n m -> (forall e, emits_only P (h e)) ->
  costs_at_most μ n (try_catch m h).
Proof using μ_app μ_quiet.
  intros Hm Hh. apply (cost_try_catch m h n 0 n); [lia | exact Hm |].
  intros e. apply cost_quiet, Hh.
Qed.

End Costs.

Section Measures.
Import JsString Js Validation Runtime Api Cli Props.

Lemma wait_count_app t1 t2 :
  wait_count (t1 ++ t2) = (wait_count t1 + wait_count t2)%nat.
Proof. unfold wait_count. rewrite sleeps_app, List.length_app. reflexivity. Qed.

Lemma fetch_count_quiet t : Forall not_fetch t -> fetch_count t = 0%nat.
Proof.
  induction 1 as [|ev t Hev _ IH]; [reflexivity|].
  destruct ev; simpl in *; auto. destruct Hev.
Qed.

Lemma wait_count_quiet t : Forall not_sleep t -> wait_count t = 0%nat.
Proof. intros Ht. unfold wait_count. rewrite (sleeps_none t Ht). reflexivity. Qed.

End Measures.

(** The quiet parts of a command, for either measure. *)
Ltac quiet := solve [ unfold_cli; unfold_api; emits ].

(** Follows the structure of a command, charging [base] for the steps
    that cost. *)
Ltac cost_steps μ_app μ_quiet base :=
  first
    [ solve [ apply (cost_quiet _ _ μ_quiet); quiet ]
    | solve [ base ]
    | match goal with
      | |- Props.costs_at_most _ _ (if ?b then _ else _) =>
          destruct b; cost_steps μ_app μ_quiet base
      | |- Props.costs_at_most _ _ (match ?x with _ => _ end) =>
          destruct x; cost_steps μ_app μ_quiet base
      | |- Props.costs_at_most _ _ (let _ := _ in _) =>
          cbv zeta; cost_steps μ_app μ_quiet base
      | |- Props.costs_at_most _ _ (Runtime.try_catch _ _) =>
          apply (cost_try_catch_l _ μ_app _ μ_quiet);
          [ cost_steps μ_app μ_quiet base | intros ?; quiet ]
      | |- Props.costs_at_most _ _ (Runtime.bind _ _) =>
          first
            [ apply (cost_bind_l _ μ_app _ μ_quiet);
              [ quiet | intros ?; cost_steps μ_app μ_quiet base ]
            | apply (cost_bind_r _ μ_app _ μ_quiet);
              [ cost_steps μ_app μ_quiet base | intros ?; quiet ]
            | eapply (cost_bind _ μ_app _ _ 1);
              [ | solve [cost_steps μ_app μ_quiet base]
                | intros ?; cost_steps μ_app μ_quiet base ];
              simpl; lia
            | eapply (cost_bind _ μ_app _ _ 2);
              [ | solve [cost_steps μ_app μ_quiet base]
                | intros ?; cost_steps μ_app μ_quiet base ];
              simpl; lia ]
      end ].

Section Budgets.
Import JsString Js Validation Runtime Api Cli Props.
Local Open Scope monad_scope.
Context `{Platform} (w : World) (endpoint : string -> string * string)
  (format : string -> list json -> list output * option js_error).

Lemma cost_request api method path body n :
  costs_at_most fetch_count (S n) (api_call (request w api method path body)).
Proof.
  intros s.
  destruct (api_call_request_adds w api method path body s)
    as (Δ & E & _ & C & _).
  exists Δ. split; [exact E | lia].
Qed.

Lemma cost_sleep ms n : costs_at_most wait_count (S n) (sleep ms).
Proof.
  intros s. exists [EvSleep ms]. split; [reflexivity|].
  change (wait_count [EvSleep ms]) with 1%nat. lia.
Qed.

End Budgets.

Ltac request_cost :=
  cost_steps fetch_count_app fetch_count_quiet
    ltac:(first [ apply cost_request
                | match goal with
                  | H : context [Props.costs_at_most] |- _ => apply H
                  end ]).

Ltac wait_cost :=
  cost_steps wait_count_app wait_count_quiet
    ltac:(first [ apply cost_sleep
                | match goal with
                  | H : context [Props.costs_at_most] |- _ => apply H
                  end ]).

Section CommandBudgets.
Import JsString Js Validation Runtime Api Cli Props.
Local Open Scope monad_scope.
Context `{Platform} (w : World) (endpoint : string -> string * string)
  (format : string -> list json -> list output * option js_error).

Lemma cost_poll_once api jobId :
  costs_at_most fetch_count 1 (poll_once w api jobId).
Proof. unfold poll_once, listJobs. request_cost. Qed.

Lemma wait_poll_once api jobId :
  costs_at_most wait_count 1 (poll_once w api jobId).
Proof. unfold poll_once, listJobs. wait_cost. Qed.

(** The loop spends at most one request and one wait for each attempt that
    is left. *)
Lemma cost_poll_loop (μ : list event -> nat)
  (μ_app : forall t1 t2, μ (t1 ++ t2) = (μ t1 + μ t2)%nat) api jobId :
  costs_at_most μ 1 (poll_once w api jobId) ->
  forall fuel attempts completed result,
    costs_at_most μ (maxAttempts - attempts)
      (poll_loop w fuel api jobId attempts completed result).
Proof.
  intros Honce. induction fuel as [|fuel IH]; intros attempts completed result.
  - intros s. exists []. split; [reflexivity|].
    pose proof (μ_app [] []) as Hnil. simpl in Hnil. lia.
  - cbn [poll_loop].
    destruct ((attempts <? maxAttempts)%nat && negb completed) eqn:Hcond.
    + apply andb_true_iff in Hcond as [Hlt _]. apply Nat.ltb_lt in Hlt.
      apply (cost_bind μ μ_app _ _ 1 (maxAttempts - S attempts));
        [lia | exact Honce |].
      intros [r|]; apply IH.
    + intros s. exists []. split; [reflexivity|].
      pose proof (μ_app [] []) as Hnil. simpl in Hnil. lia.
Qed.

End CommandBudgets.

Ltac skip_quiet μ_app μ_quiet :=
  apply (cost_bind_l _ μ_app _ μ_quiet); [quiet | intros ?].

Ltac charge μ_app n1 n2 :=
  apply (cost_bind _ μ_app _ _ n1 n2); [lia | | intros ?].

Ltac in_try μ_app μ_quiet :=
  apply (cost_try_catch_l _ μ_app _ μ_quiet); [| intros ?; quiet].

Section RequestBudget.
Import JsString Js Validation Runtime Api Cli Props.
Local Open Scope monad_scope.
Context `{Platform} (w : World) (endpoint : string -> string * string)
  (format : string -> list json -> list output * option js_error).

Lemma request_cost_doctor api :
  costs_at_most fetch_count 4 (doctor w endpoint format api).
Proof.
  unfold doctor. do 6 skip_quiet fetch_count_app fetch_count_quiet.
  charge fetch_count_app 1%nat 3%nat.
  { in_try fetch_count_app fetch_count_quiet.
    unfold_cli; unfold_api. request_cost. }
  charge fetch_count_app 2%nat 1%nat.
  { in_try fetch_count_app fetch_count_quiet. unfold getGateway.
    charge fetch_count_app 1%nat 1%nat; [apply cost_request|].
    skip_quiet fetch_count_app fetch_count_quiet. destruct (truthy_val _).
    - do 3 skip_quiet fetch_count_app fetch_count_quiet.
      in_try fetch_count_app fetch_count_quiet.
      unfold_cli; unfold_api. request_cost.
    - apply (cost_quiet _ _ fetch_count_quiet). quiet. }
  apply (cost_bind_r _ fetch_count_app _ fetch_count_quiet);
    [|intros ?; quiet].
  in_try fetch_count_app fetch_count_quiet.
  unfold_cli; unfold_api. request_cost.
Qed.

Lemma request_cost_jobs_trigger fuel api jobId options :
  costs_at_most fetch_count (request_budget (JobsTrigger jobId) options)
    (jobs_trigger w fuel api jobId options).
Proof.
  pose proof (cost_poll_loop w fetch_count fetch_count_app api jobId
                (cost_poll_once w api jobId) fuel) as Hloop.
  simpl. unfold jobs_trigger. destruct (opt_sync options).
  - skip_quiet fetch_count_app fetch_count_quiet.
    in_try fetch_count_app fetch_count_quiet. unfold triggerJob.
    charge fetch_count_app 1%nat maxAttempts; [apply cost_request|].
    skip_quiet fetch_count_app fetch_count_quiet.
    apply (cost_bind_r _ fetch_count_app _ fetch_count_quiet);
      [|intros ?; quiet].
    apply (cost_weaken _ _ (maxAttempts - 0)); [lia | apply Hloop].
  - unfold_cli; unfold_api. request_cost.
Qed.

Lemma request_budget_action fuel api cmd options :
  costs_at_most fetch_count (request_budget cmd options)
    (action w endpoint format fuel api cmd options).
Proof.
  destruct cmd;
    try apply request_cost_jobs_trigger; try apply request_cost_doctor;
    simpl; unfold_cli; unfold_api; request_cost.
Qed.

(** X17.  No command sends more requests than its budget: none for [login] and
    [logout], at most 4 for [doctor], at most 151 for [jobs trigger --sync]
    (the trigger and 150 polls), and at most one for every other command.
    A failed request is never sent again. *)
Theorem request_budget_respected fuel cmd options dir file :
  (fetch_count
     (trace (main w endpoint format fuel cmd options (initial dir file)).2)
   <= request_budget cmd options)%nat.
Proof.
  assert (Hmain : costs_at_most fetch_count (request_budget cmd options)
                    (main w endpoint format fuel cmd options)).
  { unfold main. apply (cost_bind_l _ fetch_count_app _ fetch_count_quiet).
    - emits.
    - intros api. apply request_budget_action. }
  destruct (Hmain (initial dir file)) as (Δ & E & C).
  unfold adds in E. rewrite E. simpl. rewrite app_nil_r. exact C.
Qed.

Lemma emits_fixed_sleep : emits_only fixed_wait (sleep 2000).
Proof. apply emits_log_event. reflexivity. Qed.

Lemma fixed_wait_poll_loop api jobId fuel :
  forall attempts completed result,
    emits_only fixed_wait
      (poll_loop w fuel api jobId attempts completed result).
Proof.
  induction fuel as [|fuel IH]; intros; simpl; unfold_cli; unfold_api;
    emits_with ltac:(first [ apply emits_request; event_in_class
                           | apply emits_fixed_sleep ]).
Qed.

Lemma fixed_wait_action fuel api cmd options :
  emits_only fixed_wait (action w endpoint format fuel api cmd options).
Proof.
  pose proof (fixed_wait_poll_loop api) as Hloop.
  destruct cmd; simpl; unfold_cli; unfold_api;
    emits_with ltac:(first [ apply emits_request; event_in_class
                           | apply Hloop ]).
Qed.

Lemma wait_cost_jobs_trigger fuel api jobId options :
  costs_at_most wait_count (wait_budget (JobsTrigger jobId) options)
    (jobs_trigger w fuel api jobId options).
Proof.
  pose proof (cost_poll_loop w wait_count wait_count_app api jobId
                (wait_poll_once w api jobId) fuel) as Hloop.
  simpl. unfold jobs_trigger. destruct (opt_sync options).
  - skip_quiet wait_count_app wait_count_quiet.
    in_try wait_count_app wait_count_quiet.
    skip_quiet wait_count_app wait_count_quiet.
    skip_quiet wait_count_app wait_count_quiet.
    apply (cost_bind_r _ wait_count_app _ wait_count_quiet);
      [|intros ?; quiet].
    apply (cost_weaken _ _ (maxAttempts - 0)); [lia | apply Hloop].
  - apply (cost_quiet _ _ wait_count_quiet). quiet.
Qed.

Lemma wait_budget_action fuel api cmd options :
  costs_at_most wait_count (wait_budget cmd options)
    (action w endpoint format fuel api cmd options).
Proof.
  destruct cmd; try apply wait_cost_jobs_trigger;
    simpl; apply (cost_quiet _ _ wait_count_quiet); quiet.
Qed.

Lemma fixed_waits t :
  Forall fixed_wait t -> sleeps t = replicate (wait_count t) 2000.
Proof.
  unfold wait_count. induction 1 as [|ev t Hev _ IH]; [reflexivity|].
  destruct ev; simpl in *; try exact IH. subst ms.
  change (sleeps (EvSleep 2000 :: t)) with (2000 :: sleeps t).
  simpl. rewrite <- IH. reflexivity.
Qed.

Lemma total_replicate k : fold_right Z.add 0 (replicate k 2000) = 2000 * Z.of_nat k.
Proof. induction k as [|k IH]; simpl replicate; simpl fold_right; [lia|]. rewrite IH. lia. Qed.

(** X18.  Only [jobs trigger --sync] ever waits: it waits at most 150 times, 2000
    ms each time, so at most 300000 ms in all; every other command, and
    [jobs trigger] without [--sync], never waits. *)
Theorem wait_budget_respected fuel cmd options dir file :
  let run := main w endpoint format fuel cmd options (initial dir file) in
  exists k,
    (k <= wait_budget cmd options)%nat
    /\ sleeps (trace run.2) = replicate k 2000
    /\ total_wait (trace run.2) = 2000 * Z.of_nat k
    /\ total_wait (trace run.2) <= 300000.
Proof.
  intros run. subst run.
  assert (Hcost : costs_at_most wait_count (wait_budget cmd options)
                    (main w endpoint format fuel cmd options)).
  { unfold main. apply (cost_bind_l _ wait_count_app _ wait_count_quiet).
    - emits.
    - intros api. apply wait_budget_action. }
  assert (Hfixed : emits_only fixed_wait
                     (main w endpoint format fuel cmd options)).
  { unfold main. apply emits_bind; [emits|].
    intros api. apply fixed_wait_action. }
  destruct (Hcost (initial dir file)) as (Δ & E & C).
  destruct (Hfixed (initial dir file)) as (Δ' & E' & F).
  unfold adds in E, E'. rewrite E in E'. simpl in E'.
  rewrite !app_nil_r in E'. subst Δ'.
  rewrite E. simpl. rewrite app_nil_r.
  exists (wait_count Δ). split; [exact C|].
  assert (Hs : sleeps Δ = replicate (wait_count Δ) 2000)
    by (apply fixed_waits, F).
  split; [exact Hs|]. unfold total_wait. rewrite Hs, total_replicate.
  split; [reflexivity|].
  assert (wait_budget cmd options <= 150)%nat
    by (destruct cmd; simpl; try lia; destruct (opt_sync options);
        unfold maxAttempts; lia).
  lia.
Qed.

End RequestBudget.

(* ================================================================== *)
(** * Saving, logging in and out *)
(* ================================================================== *)

Section Sessions.
Import JsString Js Validation Runtime Api Cli Props.
Local Open Scope monad_scope.
Context `{Platform} (w : World) (endpoint : string -> string * string)
  (format : string -> list json -> list output * option js_error).

Lemma stored_config_saved config s :
  round_trips (spread2 (stored_config s) config) ->
  stored_config (saveConfig config s).2 = spread2 (stored_config s) config.
Proof.
  intros Hrt. rewrite saveConfig_eq. unfold stored_config at 1.
  cbn [snd config_file]. unfold round_trips in Hrt. rewrite Hrt. reflexivity.
Qed.

(** X20.  Saving over a config file that is missing or is not JSON starts from
    the default config: the fields of the argument are stored, and the
    fields it lacks get their defaults, the URL [https://api.clawtick.com]
    and the empty key. *)
Theorem saveConfig_fills_defaults s (config : gmap string json) :
  let defaults : gmap string json :=
    {[ "apiUrl" := JStr "https://api.clawtick.com"; "apiKey" := JStr "" ]} in
  (config_file s = None
   \/ exists text, config_file s = Some text /\ JSON_parse text = None) ->
  round_trips (JObj (config ∪ defaults)) ->
  exists s1 s2,
    saveConfig (JObj config) s = (Ret tt, s1)
    /\ loadConfig s1 = (Ret (JObj (config ∪ defaults)), s2)
    /\ (config !! "apiUrl" = None ->
        (config ∪ defaults) !! "apiUrl"
        = Some (JStr "https://api.clawtick.com"))
    /\ (config !! "apiKey" = None ->
        (config ∪ defaults) !! "apiKey" = Some (JStr "")).
Proof.
  intros defaults Hfile Hrt.
  assert (Hstored : stored_config s = JObj defaults).
  { unfold stored_config.
    destruct Hfile as [->|(text & -> & ->)]; vm_compute; reflexivity. }
  assert (Hmerged : spread2 (stored_config s) (JObj config)
                    = JObj (config ∪ defaults)).
  { rewrite Hstored. reflexivity. }
  pose proof (stored_config_saved (JObj config) s) as Hsaved.
  rewrite Hmerged in Hsaved. specialize (Hsaved Hrt).
  eexists _, _. split; [apply saveConfig_eq|].
  split.
  - rewrite loadConfig_eq. rewrite saveConfig_eq in Hsaved.
    cbn [snd] in Hsaved. rewrite Hsaved. reflexivity.
  - split; intros Hnone; rewrite lookup_union, Hnone; reflexivity.
Qed.

(** X21.  Saving the same partial config twice leaves the file as the first save
    wrote it. *)
Theorem saveConfig_idempotent s (config : gmap string json) :
  round_trips (spread2 (stored_config s) (JObj config)) ->
  let s1 := (saveConfig (JObj config) s).2 in
  let s2 := (saveConfig (JObj config) s1).2 in
  (saveConfig (JObj config) s1).1 = Ret tt
  /\ config_file s2 = config_file s1
  /\ config_file s1
     = Some (JSON_stringify (JObj (config ∪ own_props (stored_config s))) 2).
Proof.
  intros Hrt s1 s2. subst s2.
  pose proof (stored_config_saved _ _ Hrt) as Hsaved. fold s1 in Hsaved.
  rewrite (saveConfig_eq _ s1), Hsaved. subst s1. rewrite saveConfig_eq.
  cbn [fst snd config_file]. split; [reflexivity|].
  split; [|reflexivity]. do 2 f_equal. unfold spread2. cbn [own_props].
  f_equal. rewrite (assoc_L (∪)), (idemp_L (∪) config). reflexivity.
Qed.

(** The config that [login] saves for a key. *)
Lemma login_saves options key s :
  or_else (opt_key options) (env_CLAWPULSE_API_KEY w) = Some key ->
  nonempty key = true ->
  login w options s
  = (spinner Start "Authenticating..." ;;
     saveConfig
       (obj_of [ ("apiKey", Some (JStr key));
                 ("apiUrl", if given (opt_apiUrl options)
                            then str_val (opt_apiUrl options)
                            else undefined) ]) ;;
     spinner Succeed "Authenticated successfully" ;;
     console_log ("Config saved to " +:+ getConfigPath)) s.
Proof.
  intros Hkey Hne. unfold login. rewrite Hkey. cbn [given].
  rewrite Hne. reflexivity.
Qed.

(** X22.  [login] stores the key of [--key], or that of the environment when
    [--key] is absent or empty, without sending any request; the client of
    the next invocation has that key and is authenticated.  With
    [--api-url] the URL is stored as well. *)
Theorem login_then_authenticated options key s :
  let config :=
    obj_of [ ("apiKey", Some (JStr key));
             ("apiUrl", if given (opt_apiUrl options)
                        then str_val (opt_apiUrl options) else undefined) ] in
  or_else (opt_key options) (env_CLAWPULSE_API_KEY w) = Some key ->
  nonempty key = true ->
  round_trips (spread2 (stored_config s) config) ->
  (login w options s).1 = Ret tt
  /\ trace (login w options s).2
     = [ EvPrint (ConsoleLog ("Config saved to " +:+ getConfigPath));
         EvPrint (Spinner Succeed "Authenticated successfully");
         EvPrint (Spinner Start "Authenticating...") ] ++ trace s
  /\ exists api,
       stored_client (login w options s).2 = Some api
       /\ apiKey api = Some (JStr key)
       /\ isAuthenticated api = true
       /\ (forall url, opt_apiUrl options = Some url -> nonempty url = true ->
             apiUrl api = Some (JStr url)).
Proof.
  intros config Hkey Hne Hrt. rewrite (login_saves options key s Hkey Hne).
  fold config. unfold bind.
  set (s0 := (spinner Start "Authenticating..." s).2).
  change (spinner Start "Authenticating..." s) with (Ret tt, s0).
  cbv iota beta.
  assert (Hrt0 : round_trips (spread2 (stored_config s0) config)) by exact Hrt.
  pose proof (stored_config_saved config s0 Hrt0) as Hsaved.
  rewrite saveConfig_eq in Hsaved |- *. cbn [snd] in Hsaved. cbv iota beta.
  split; [reflexivity|]. split; [reflexivity|].
  unfold stored_client.
  match goal with
  | |- context [stored_config ?st] =>
      change (stored_config st)
        with (stored_config
                {| config_dir := true;
                   config_file :=
                     Some (JSON_stringify (spread2 (stored_config s0) config) 2);
                   trace := trace s0 |})
  end.
  rewrite Hsaved, !get_prop_spread2.
  assert (Hk : own_props config !! "apiKey" = Some (JStr key)).
  { subst config. destruct (given (opt_apiUrl options));
      [destruct (opt_apiUrl options)|]; vm_compute; reflexivity. }
  rewrite Hk.
  eexists. split; [reflexivity|]. cbn [apiKey apiUrl].
  split; [reflexivity|]. split.
  - unfold isAuthenticated. cbn [apiKey]. exact Hne.
  - intros url Hurl Hne'. subst config. rewrite Hurl. cbn [given].
    rewrite Hne'. vm_compute. reflexivity.
Qed.

(** X23.  After [logout] the stored key is empty: the client of the next
    invocation is not authenticated, and every command that goes straight
    to the API exits with status 1 without sending a request. *)
Theorem logout_then_unauthenticated s fuel cmd options :
  round_trips (spread2 (stored_config s) (obj [ ("apiKey", JStr "") ])) ->
  let s1 := (logout s).2 in
  let run := main w endpoint format fuel cmd options s1 in
  (exists api, stored_client s1 = Some api /\ isAuthenticated api = false)
  /\ fetch_count (trace run.2) = fetch_count (trace s1)
  /\ (api_command cmd = true -> run.1 = Exit 1).
Proof.
  intros Hrt s1 run.
  assert (Hsaved : stored_config s1
                   = spread2 (stored_config s) (obj [ ("apiKey", JStr "") ])).
  { pose proof (stored_config_saved _ s Hrt) as Hs.
    subst s1. unfold logout, bind. rewrite saveConfig_eq in Hs |- *.
    exact Hs. }
  assert (Hclient : stored_client s1
                    = Some {| apiUrl := own_props (stored_config s) !! "apiUrl";
                              apiKey := Some (JStr "") |}).
  { unfold stored_client. rewrite Hsaved, !get_prop_spread2. reflexivity. }
  split; [eexists; split; [exact Hclient | reflexivity]|].
  subst run. unfold main, bind. rewrite new_ApiClient_eq, Hclient.
  set (api := {| apiUrl := _; apiKey := _ |}).
  match goal with
  | |- context [action _ _ _ _ api _ _ ?st] => set (s2 := st)
  end.
  assert (Hkey : truthy_val (apiKey api) = false) by reflexivity.
  split.
  - destruct (no_key_action w endpoint format fuel api cmd options Hkey s2)
      as (Δ & E & F).
    unfold adds in E. rewrite E, fetch_count_app.
    rewrite (fetch_count_quiet Δ F). reflexivity.
  - intros Hcmd.
    apply (no_key_api_command w endpoint format fuel api cmd options s2 Hkey Hcmd).
Qed.

End Sessions.

(* ================================================================== *)
(** * The jobs commands *)
(* ================================================================== *)

Section Jobs.
Import JsString Js Validation Runtime Api Cli Props.
Local Open Scope monad_scope.
Context `{Platform} (w : World) (endpoint : string -> string * string)
  (format : string -> list json -> list output * option js_error).

Lemma validate_if_not_given v o s :
  given o = false -> validate_if_given v o s = (Ret tt, s).
Proof.
  unfold validate_if_given, given. destruct o as [x|]; [|reflexivity].
  intros ->. reflexivity.
Qed.

(** X24.  [jobs update] with no option that sets a field prints "No updates
    provided" and returns: it validates nothing and sends nothing.  An
    option tested by [if (options.x)] sets no field when it is absent or
    empty; the four tested by [options.x !== undefined], among them
    [--webhook-body], set none only when they are absent. *)
Theorem jobs_update_nothing_to_do api jobId options s :
  nothing_to_update options ->
  jobs_update w api jobId options s
  = console_error "No updates provided. Use --help for options." s.
Proof.
  intros (Hname & Hcron & Hmsg & Htz & Hen & Hdis & Hint & Hagent & Hchan
          & Hdel & Hreply & Hurl & Hmeth & Hhead & Hbody).
  unfold jobs_update, bind.
  rewrite !validate_if_not_given by assumption.
  rewrite Hname, Hcron, Hmsg, Htz, Hen, Hdis, Hint, Hagent, Hchan, Hdel,
    Hreply, Hurl, Hmeth, Hhead, Hbody.
  reflexivity.
Qed.

Lemma find_by_id_skips pre jobId : forall rest s,
  Forall (other_id jobId) pre ->
  find_by_id (pre ++ rest) jobId s = find_by_id rest jobId s.
Proof.
  induction pre as [|j pre IH]; intros rest s Hpre; [reflexivity|].
  inversion Hpre as [|? ? (id & Hget & Hne) Hrest]; subst.
  simpl. unfold bind, get. rewrite Hget. unfold ret at 1. cbv iota beta.
  rewrite Hne. apply IH, Hrest.
Qed.

Lemma find_job_none data jobId items s :
  get_prop data "jobs" = Some (Some (JArr items)) ->
  Forall (other_id jobId) items ->
  find_job data jobId s = (Ret undefined, s).
Proof.
  intros Hjobs Hnone. unfold find_job, bind, get. rewrite Hjobs.
  unfold ret at 1. cbv iota beta.
  rewrite <- (app_nil_r items).
  rewrite (find_by_id_skips items jobId [] s Hnone). reflexivity.
Qed.

(** X25.  [find] returns the first job of the list whose [id] is the job ID, and
    [undefined] when the list has none. *)
Theorem find_job_first_match data jobId items s :
  get_prop data "jobs" = Some (Some (JArr items)) ->
  (forall pre j post,
     items = pre ++ j :: post ->
     Forall (other_id jobId) pre -> has_id jobId j ->
     find_job data jobId s = (Ret (Some j), s))
  /\ (Forall (other_id jobId) items ->
      find_job data jobId s = (Ret undefined, s)).
Proof.
  intros Hjobs. unfold find_job, bind, get. rewrite Hjobs.
  unfold ret at 1. cbv iota beta. split.
  - intros pre j post -> Hpre (props & -> & Hid).
    rewrite (find_by_id_skips pre jobId _ s Hpre). simpl.
    unfold bind, get. cbn [get_prop]. rewrite Hid. unfold ret at 1.
    cbv iota beta. cbn [strict_eq_string]. rewrite String.eqb_refl.
    reflexivity.
  - intros Hnone. pose proof (find_job_none data jobId items s Hjobs Hnone) as Hf.
    unfold find_job, bind, get in Hf. rewrite Hjobs in Hf.
    unfold ret at 1 in Hf. exact Hf.
Qed.

(** X26.  [jobs inspect] for an ID that the fetched list does not have prints
    "Job not found: <id>" and exits with status 1. *)
Theorem jobs_inspect_not_found api jobId s data s1 :
  listJobs w api (spinner Start "Fetching job details..." s).2
  = (Ret data, s1) ->
  (get_prop data "jobs" = Some undefined
   \/ exists items,
        get_prop data "jobs" = Some (Some (JArr items))
        /\ Forall (other_id jobId) items) ->
  jobs_inspect w format api jobId s
  = (Exit 1, (spinner Fail ("Job not found: " +:+ jobId) s1).2).
Proof.
  intros Hlist Hjobs. unfold jobs_inspect, bind, try_catch.
  set (s0 := (spinner Start "Fetching job details..." s).2) in *.
  change (spinner Start "Fetching job details..." s) with (Ret tt, s0).
  cbv iota beta. rewrite Hlist.
  assert (Hfind : find_job data jobId s1 = (Ret undefined, s1)).
  { destruct Hjobs as [Hnone|(items & Hitems & Hother)].
    - unfold find_job, bind, get. rewrite Hnone. reflexivity.
    - apply (find_job_none data jobId items s1 Hitems Hother). }
  rewrite Hfind. reflexivity.
Qed.

End Jobs.

Section Create.
Import JsString Js Validation Runtime Api Cli Props.
Local Open Scope monad_scope.
Context `{Platform} (w : World) (endpoint : string -> string * string)
  (format : string -> list json -> list output * option js_error).

Lemma validate_passes r s :
  valid r = true ->
  exists s' Δ,
    validate r s = (Ret tt, s')
    /\ trace s' = Δ ++ trace s /\ Forall not_fetch Δ.
Proof.
  intros Hr. unfold validate, bind. cbn. rewrite Hr.
  eexists _, [EvValidate r]. split; [reflexivity|].
  split; [reflexivity | repeat constructor].
Qed.

Lemma validate_if_given_passes v o s :
  (forall x, o = Some x -> nonempty x = true -> valid (v x) = true) ->
  exists s' Δ,
    validate_if_given v o s = (Ret tt, s')
    /\ trace s' = Δ ++ trace s /\ Forall not_fetch Δ.
Proof.
  intros Hv. unfold validate_if_given.
  destruct o as [x|]; [destruct (nonempty x) eqn:Hx|].
  - apply validate_passes, Hv; [reflexivity | exact Hx].
  - exists s, []. split; [reflexivity|]. split; [reflexivity | constructor].
  - exists s, []. split; [reflexivity|]. split; [reflexivity | constructor].
Qed.

Lemma complain_and_exit {A} msg s :
  (console_error msg ;; @exit A 1) s = (Exit 1, (console_error msg s).2).
Proof. reflexivity. Qed.

(** X27.  [jobs create] for the webhook integration, with input that passes the
    validators of the common fields: without [--webhook-url] it prints that
    the option is required and exits with status 1, and likewise without
    [--webhook-method]; in both cases no request has been sent. *)
Theorem jobs_create_webhook_requires api options cron message s :
  let run := jobs_create w format api options s in
  opt_cron options = Some cron ->
  opt_message options = Some message ->
  integrationType_of options = "webhook" ->
  (forall i, opt_integration options = Some i -> nonempty i = true ->
             valid (validateIntegrationType i) = true) ->
  valid (validateCronExpression cron) = true ->
  valid (validateMessage message) = true ->
  (forall n, opt_name options = Some n -> nonempty n = true ->
             valid (validateJobName n) = true) ->
  given (opt_webhookUrl options) = false
  \/ given (opt_webhookMethod options) = false ->
  run.1 = Exit 1
  /\ exists Δ,
       trace run.2
       = EvPrint (ConsoleError
                    (if given (opt_webhookUrl options)
                     then "❌ --webhook-method is required for webhook integration"
                     else "❌ --webhook-url is required for webhook integration"))
         :: Δ ++ trace s
       /\ Forall not_fetch Δ.
Proof.
  intros run Hcron Hmsg Htype Hint Hcronv Hmsgv Hname Hmissing. subst run.
  set (msg := if given (opt_webhookUrl options)
              then "❌ --webhook-method is required for webhook integration"
              else "❌ --webhook-url is required for webhook integration").
  assert (Hrun : exists s4 Δ,
             jobs_create w format api options s
             = (Exit 1, (console_error msg s4).2)
             /\ trace s4 = Δ ++ trace s /\ Forall not_fetch Δ).
  { unfold jobs_create, required. rewrite Hcron, Hmsg, Htype.
    change (String.eqb "webhook" "webhook") with true. cbv iota beta.
    destruct (validate_if_given_passes validateIntegrationType
                (opt_integration options) s Hint) as (s1 & Δ1 & E1 & T1 & F1).
    destruct (validate_passes _ s1 Hcronv) as (s2 & Δ2 & E2 & T2 & F2).
    destruct (validate_passes _ s2 Hmsgv) as (s3 & Δ3 & E3 & T3 & F3).
    destruct (validate_if_given_passes validateJobName
                (opt_name options) s3 Hname) as (s4 & Δ4 & E4 & T4 & F4).
    exists s4, (Δ4 ++ Δ3 ++ Δ2 ++ Δ1). split; [|split].
    - unfold bind at 1. rewrite E1. unfold bind at 1. rewrite E2.
      unfold bind at 1. rewrite E3. unfold bind at 1. rewrite E4.
      unfold bind at 1. unfold bind at 1. subst msg.
      destruct (given (opt_webhookUrl options)) eqn:Hurl; cbn [negb].
      + destruct Hmissing as [Hmissing|Hmeth]; [discriminate|].
        unfold ret at 1. cbv iota beta. unfold bind at 1. rewrite Hmeth.
        cbn [negb]. rewrite complain_and_exit. reflexivity.
      + rewrite complain_and_exit. reflexivity.
    - rewrite T4, T3, T2, T1, <- !app_assoc. reflexivity.
    - repeat (apply Forall_app; split); assumption. }
  destruct Hrun as (s4 & Δ & -> & Htrace & Hquiet).
  split; [reflexivity|]. exists Δ. split; [|exact Hquiet].
  unfold console_error, print, log_event. cbn [fst snd trace].
  rewrite Htrace. reflexivity.
Qed.

End Create.

(* ================================================================== *)
(** * A rejected option stops the command *)
(* ================================================================== *)

Section Rejections.
Import JsString Js Validation Runtime Api Cli Props.
Local Open Scope monad_scope.
Context `{Platform} (w : World) (endpoint : string -> string * string)
  (format : string -> list json -> list output * option js_error).

Lemma bind_assoc {A B C} (m : M A) (k1 : A -> M B) (k2 : B -> M C) s :
  bind (bind m k1) k2 s = bind m (fun a => bind (k1 a) k2) s.
Proof. unfold bind. destruct (m s) as [[a|e|c|] s1]; reflexivity. Qed.

(** A validator call whose result is first in the list: the run stops at it
    when it rejects, and goes on to the rest when it accepts. *)
Lemma stops_validate {A} c cs r (k : unit -> M A) s :
  first_rejected (c :: cs) = Some r ->
  (forall s', first_rejected cs = Some r -> stops_at r (k tt s')) ->
  stops_at r (bind (validate c) k s).
Proof.
  unfold first_rejected. simpl List.find.
  unfold validate, bind, log_event, console_error, print, log_event.
  destruct (valid c) eqn:Hc; cbn [negb]; intros Hr Hk.
  - apply Hk, Hr.
  - injection Hr as <-. split; [reflexivity|]. eexists. reflexivity.
Qed.

Lemma stops_if_given {A} v o cs r (k : unit -> M A) s :
  first_rejected (check_if_given v o ++ cs) = Some r ->
  (forall s', first_rejected cs = Some r -> stops_at r (k tt s')) ->
  stops_at r (bind (validate_if_given v o) k s).
Proof.
  unfold check_if_given, validate_if_given.
  destruct o as [x|]; [destruct (nonempty x)|]; simpl app; intros Hr Hk.
  - apply (stops_validate _ cs); assumption.
  - apply Hk, Hr.
  - apply Hk, Hr.
Qed.

Lemma stops_assoc {A B C} (m : M A) (k1 : A -> M B) (k2 : B -> M C) r s :
  stops_at r (bind m (fun a => bind (k1 a) k2) s) ->
  stops_at r (bind (bind m k1) k2 s).
Proof. rewrite bind_assoc. trivial. Qed.

Lemma jobs_update_stops api jobId options r s :
  first_rejected (update_checks options) = Some r ->
  stops_at r (jobs_update w api jobId options s).
Proof.
  intros Hr. rewrite <- (app_nil_r (update_checks options)) in Hr.
  unfold update_checks in Hr. rewrite <- !app_assoc in Hr.
  unfold jobs_update. cbv zeta.
  repeat (eapply stops_if_given; [exact Hr | clear Hr; intros ? Hr; cbv beta]).
  discriminate Hr.
Qed.

Lemma jobs_create_stops api options r s :
  first_rejected (create_checks options) = Some r ->
  stops_at r (jobs_create w format api options s).
Proof.
  intros Hr. rewrite <- (app_nil_r (create_checks options)) in Hr.
  unfold create_checks in Hr. unfold jobs_create, required.
  destruct (opt_cron options) as [cron|]; [|discriminate Hr].
  destruct (opt_message options) as [message|]; [|discriminate Hr].
  cbv zeta. rewrite <- !app_assoc in Hr.
  eapply stops_if_given; [exact Hr | clear Hr; intros ? Hr; cbv beta].
  eapply stops_validate; [exact Hr | clear Hr; intros ? Hr; cbv beta].
  eapply stops_validate; [exact Hr | clear Hr; intros ? Hr; cbv beta].
  eapply stops_if_given; [exact Hr | clear Hr; intros ? Hr; cbv beta].
  destruct (String.eqb (integrationType_of options) "webhook").
  - destruct (given (opt_webhookUrl options));
      [|discriminate Hr].
    destruct (given (opt_webhookMethod options));
      [|discriminate Hr].
    cbn [andb negb] in *. rewrite <- !app_assoc in Hr.
    do 2 (apply stops_assoc; unfold bind at 1, ret at 1; cbv iota beta).
    apply stops_assoc.
    eapply stops_validate; [exact Hr | clear Hr; intros ? Hr; cbv beta].
    apply stops_assoc.
    eapply stops_validate; [exact Hr | clear Hr; intros ? Hr; cbv beta].
    apply stops_assoc.
    eapply stops_if_given; [exact Hr | clear Hr; intros ? Hr; cbv beta].
    eapply stops_if_given; [exact Hr | clear Hr; intros ? Hr; cbv beta].
    discriminate Hr.
  - eapply stops_if_given; [exact Hr | clear Hr; intros ? Hr; cbv beta].
    discriminate Hr.
Qed.

Lemma action_stops fuel api cmd options r s :
  first_rejected (checks cmd options) = Some r ->
  stops_at r (action w endpoint format fuel api cmd options s).
Proof.
  destruct cmd; simpl; try discriminate;
    [apply jobs_create_stops | apply jobs_update_stops].
Qed.

Lemma first_rejected_invalid cs r :
  first_rejected cs = Some r -> valid r = false.
Proof.
  intros Hr. apply List.find_some in Hr as [_ Hr].
  destruct (valid r); [discriminate | reflexivity].
Qed.


(** C6.  A rejected input stops the command before any request.  In every
    invocation, when a validator call returns a rejection, the process
    exits with status 1, the message of that result has been printed on the
    error stream, and no request has been issued at all.  The validator
    calls are those that the action makes for its options ([checks]): for
    ASCII options, when the first of their results to be a rejection is
    [r], the invocation ends with a nonzero exit status and has issued no
    request; when the stored config is not [null], so that the client is
    built and the action runs, the exit status is 1 and the last thing
    printed is the message of [r], on the error stream. *)
Theorem validation_precedes_requests fuel cmd options dir file :
  let s0 := initial dir file in
  let run := main w endpoint format fuel cmd options s0 in
  (forall r,
     In (EvValidate r) (trace run.2) -> valid r = false ->
     run.1 = Exit 1
     /\ In (EvPrint (ConsoleError ("❌ " +:+ template_opt (error r))))
           (trace run.2)
     /\ Forall not_fetch (trace run.2))
  /\ (forall r,
        ascii_options options ->
        first_rejected (checks cmd options) = Some r ->
        exit_status run.1 = Some 1
        /\ Forall not_fetch (trace run.2)
        /\ (stored_config s0 <> JNull ->
            run.1 = Exit 1
            /\ exists text older,
                 trace run.2 = EvPrint (ConsoleError ("❌ " +:+ text)) :: older
                 /\ reported r text)).
Proof.
  intros s0 run.
  assert (Hmain : gated (main w endpoint format fuel cmd options)).
  { unfold main. apply gated_bind.
    - apply prevalidation_local. emits.
    - intros api. apply gated_action. }
  destruct (Hmain s0) as (Δ & E & C).
  unfold adds in E. cbn [s0 initial trace] in E. rewrite app_nil_r in E.
  fold s0 run in E, C.
  assert (Hevent : forall r,
            In (EvValidate r) (trace run.2) -> valid r = false ->
            run.1 = Exit 1
            /\ In (rejection_line r) (trace run.2)
            /\ Forall not_fetch (trace run.2)).
  { intros r Hin Hr. rewrite E in *.
    destruct C as [C|(Hx & F & C)].
    - apply C in Hin. congruence.
    - split; [assumption|]. split; [|assumption]. apply (C r Hin Hr). }
  split; [exact Hevent|].
  intros r _ Hr. pose proof (first_rejected_invalid _ _ Hr) as Hinvalid.
  assert (Hrun : run = match stored_client s0 with
                       | Some api =>
                           action w endpoint format fuel api cmd options
                             {| config_dir := true; config_file := file;
                                trace := [] |}
                       | None =>
                           (Throw (TypeError
                              "Cannot read properties of null (reading 'apiUrl')"),
                            {| config_dir := true; config_file := file;
                               trace := [] |})
                       end).
  { subst run. unfold main, bind. rewrite new_ApiClient_eq.
    destruct (stored_client s0); reflexivity. }
  destruct (stored_client s0) as [api|] eqn:Hclient.
  - pose proof (action_stops fuel api cmd options r
                  {| config_dir := true; config_file := file; trace := [] |} Hr)
      as [Hexit (older & Htrace)].
    rewrite <- Hrun in Hexit, Htrace.
    destruct (Hevent r) as (_ & _ & Hquiet);
      [rewrite Htrace; right; left; reflexivity | exact Hinvalid |].
    split; [rewrite Hexit; reflexivity|]. split; [exact Hquiet|].
    intros _. split; [exact Hexit|].
    exists (template_opt (error r)), (EvValidate r :: older).
    split; [exact Htrace | left; reflexivity].
  - rewrite Hrun. split; [reflexivity|]. split; [constructor|].
    intros Hnull. exfalso. unfold stored_client, get_prop in Hclient.
    destruct (stored_config s0); try discriminate. congruence.
Qed.

End Rejections.

(* ================================================================== *)
(** * [doctor] runs all its checks *)
(* ================================================================== *)

Section Catchable.
Import JsString Js Validation Runtime Api Cli Props.
Local Open Scope monad_scope.

Lemma catchable_ret {A} (a : A) : catchable (ret a).
Proof. intros s. exact I. Qed.

Lemma catchable_throw {A} e : catchable (@throw A e).
Proof. intros s. exact I. Qed.

Lemma catchable_log_event ev : catchable (log_event ev).
Proof. intros s. exact I. Qed.

Lemma catchable_bind {A B} (m : M A) (k : A -> M B) :
  catchable m -> (forall a, catchable (k a)) -> catchable (bind m k).
Proof.
  intros Hm Hk s. specialize (Hm s). unfold bind.
  destruct (m s) as [[a|e|c|] s1]; simpl in *; try contradiction; [|exact I].
  apply Hk.
Qed.

Lemma catchable_try_catch {A} (m : M A) (h : js_error -> M A) :
  catchable m -> (forall e, catchable (h e)) -> catchable (try_catch m h).
Proof.
  intros Hm Hh s. specialize (Hm s). unfold try_catch.
  destruct (m s) as [[a|e|c|] s1]; simpl in *; try contradiction; [exact I|].
  apply Hh.
Qed.

Lemma catchable_get v k : catchable (get v k).
Proof.
  unfold get. destruct (get_prop v k); [apply catchable_ret | apply catchable_throw].
Qed.

Lemma catchable_fetch w r : catchable (fetch w r).
Proof. intros s. unfold fetch. destruct (server w _ r); exact I. Qed.

Lemma catchable_print_all outs : catchable (print_all outs).
Proof.
  induction outs as [|o outs IH]; simpl; [apply catchable_ret|].
  apply catchable_bind; [apply catchable_log_event | intros _; exact IH].
Qed.

Lemma returns_ret {A} (a : A) : returns (ret a).
Proof. intros s. exists a. reflexivity. Qed.

Lemma returns_log_event ev : returns (log_event ev).
Proof. intros s. exists tt. reflexivity. Qed.

Lemma returns_bind {A B} (m : M A) (k : A -> M B) :
  returns m -> (forall a, returns (k a)) -> returns (bind m k).
Proof.
  intros Hm Hk s. destruct (Hm s) as [a Ha]. unfold bind.
  destruct (m s) as [o s1]; simpl in Ha; subst o. apply Hk.
Qed.

Lemma returns_try_catch {A} (m : M A) (h : js_error -> M A) :
  catchable m -> (forall e, returns (h e)) -> returns (try_catch m h).
Proof.
  intros Hm Hh s. specialize (Hm s). unfold try_catch.
  destruct (m s) as [[a|e|c|] s1]; simpl in *; try contradiction.
  - exists a. reflexivity.
  - apply Hh.
Qed.

End Catchable.

Ltac catchable_step :=
  match goal with
  | |- Props.catchable (Runtime.bind _ _) => apply catchable_bind; [| intros ?]
  | |- Props.catchable (Runtime.try_catch _ _) =>
      apply catchable_try_catch; [| intros ?]
  | |- Props.catchable (Runtime.ret _) => apply catchable_ret
  | |- Props.catchable (Runtime.throw _) => apply catchable_throw
  | |- Props.catchable (Runtime.get _ _) => apply catchable_get
  | |- Props.catchable (Runtime.fetch _ _) => apply catchable_fetch
  | |- Props.catchable (Runtime.log_event _) => apply catchable_log_event
  | |- Props.catchable (Runtime.print _) => apply catchable_log_event
  | |- Props.catchable (Runtime.print_all _) => apply catchable_print_all
  | |- Props.catchable (if ?b then _ else _) => destruct b
  | |- Props.catchable (match ?x with _ => _ end) => destruct x
  end.

Ltac returns_step :=
  match goal with
  | |- Props.returns (Runtime.bind _ _) => apply returns_bind; [| intros ?]
  | |- Props.returns (Runtime.try_catch _ _) =>
      apply returns_try_catch; [repeat catchable_step | intros ?]
  | |- Props.returns (Runtime.ret _) => apply returns_ret
  | |- Props.returns (Runtime.log_event _) => apply returns_log_event
  | |- Props.returns (Runtime.print _) => apply returns_log_event
  | |- Props.returns (if ?b then _ else _) => destruct b
  end.

Section Doctor.
Import JsString Js Validation Runtime Api Cli Props.
Local Open Scope monad_scope.
Context `{Platform} (w : World) (endpoint : string -> string * string)
  (format : string -> list json -> list output * option js_error).

Lemma show_returns label args s :
  snd (format label args) = None ->
  exists s', show format label args s = (Ret tt, s').
Proof.
  intros Hok. unfold show. rewrite Hok.
  destruct (returns_bind (print_all (fst (format label args)))
              (fun _ => ret tt)) with (s := s) as [[] Hr].
  - clear. induction (fst (format label args)) as [|o outs IH]; simpl.
    + apply returns_ret.
    + apply returns_bind; [apply returns_log_event | intros _; exact IH].
  - intros _. apply returns_ret.
  - destruct (bind _ _ s) as [o s'] eqn:E. simpl in Hr. subst o. eauto.
Qed.

Lemma after_returns {A B} (m : M A) (k : M B) s :
  returns m -> exists s', (m ;; k) s = k s'.
Proof.
  intros Hm. destruct (Hm s) as [a Ha]. unfold bind.
  destruct (m s) as [o s']. simpl in Ha. subst o. eauto.
Qed.

(** X28.  Once its connection check has passed, [doctor] runs its gateway check
    and its quota check to the end, whatever they find and whether or not
    their requests fail: it prints "All checks completed!" last and
    returns, so the exit status is 0. *)
Theorem doctor_completes api s key status s1 :
  get_prop (stored_config s) "apiKey" = Some key ->
  truthy_val key = true ->
  getStatus w api (doctor_connection_check s) = (Ret status, s1) ->
  snd (format "doctor: connection" [ status ]) = None ->
  (doctor w endpoint format api s).1 = Ret tt
  /\ exists older,
       trace (doctor w endpoint format api s).2
       = EvPrint (ConsoleLog "All checks completed!") :: older.
Proof.
  intros Hget Hkey Hstatus Hshow.
  remember (doctor w endpoint format api s) as r eqn:Hr.
  unfold doctor in Hr. unfold bind at 1 in Hr.
  change (console_log ("🏥 Clawtick Health Check" +:+ nl) s)
    with (Ret tt, (console_log ("🏥 Clawtick Health Check" +:+ nl) s).2) in Hr.
  cbv iota beta in Hr. unfold bind at 1 in Hr. rewrite loadConfig_eq in Hr.
  cbv iota beta in Hr.
  change (stored_config (console_log _ s).2) with (stored_config s) in Hr.
  unfold bind at 1 in Hr. unfold get at 1 in Hr. rewrite Hget in Hr.
  unfold ret at 1 in Hr. cbv iota beta in Hr. rewrite Hkey in Hr.
  cbn [negb] in Hr.
  unfold bind at 1 in Hr. unfold ret at 1 in Hr. cbv iota beta in Hr.
  unfold bind at 1 in Hr. unfold console_log at 1, print, log_event in Hr.
  cbv iota beta in Hr.
  unfold bind at 1 in Hr. unfold spinner at 1, print, log_event in Hr.
  cbv iota beta in Hr.
  unfold bind at 1 in Hr. unfold try_catch at 1 in Hr.
  unfold bind at 1 in Hr.
  match type of Hr with
  | context [getStatus w api ?st] =>
      change (getStatus w api st)
        with (getStatus w api (doctor_connection_check s)) in Hr
  end.
  rewrite Hstatus in Hr. cbv iota beta in Hr.
  destruct (show_returns "doctor: connection" [status] s1 Hshow) as [s2 E2].
  rewrite E2 in Hr. cbv iota beta in Hr.
  match type of Hr with
  | r = (Runtime.bind ?m1 (fun _ => Runtime.bind ?m2 (fun _ => ?k))) ?st =>
      destruct (after_returns m1 (Runtime.bind m2 (fun _ => k)) st) as [s3 E3];
      [ unfold_api; unfold api_call, request, show, spinner, console_log;
        repeat returns_step
      | destruct (after_returns m2 k s3) as [s4 E4];
        [ unfold_api; unfold api_call, request, show, spinner, console_log;
          repeat returns_step
        | ] ]
  end.
  rewrite E3, E4 in Hr. subst r. split; [reflexivity|].
  eexists. reflexivity.
Qed.

End Doctor.

(* ================================================================== *)
(** * [doctor] reports the calls that fail *)
(* ================================================================== *)

Section Warnings.
Import JsString Js Validation Runtime Api Cli Props.
Local Open Scope monad_scope.

Lemma warned_app Δ2 Δ1 : warned Δ2 -> warned Δ1 -> warned (Δ2 ++ Δ1).
Proof.
  intros H2 H1 e Hin. apply in_app_or in Hin as [Hin|Hin];
    [destruct (H2 e Hin) as (o & Ho & Hp) | destruct (H1 e Hin) as (o & Ho & Hp)];
    exists o; (split; [exact Ho|]); apply in_or_app; auto.
Qed.

Lemma warned_clean Δ : Forall not_failure Δ -> warned Δ.
Proof.
  intros HF e Hin. rewrite Forall_forall in HF.
  apply list_elem_of_In, HF in Hin. destruct Hin.
Qed.

Lemma reports_clean {A} (m : M A) :
  emits_only not_failure m -> reports_failures m.
Proof.
  intros Hm s. destruct (Hm s) as (Δ & E & F). exists Δ.
  split; [exact E | apply warned_clean, F].
Qed.

Lemma reports_bind {A B} (m : M A) (k : A -> M B) :
  reports_failures m -> (forall a, reports_failures (k a)) ->
  reports_failures (bind m k).
Proof.
  intros Hm Hk s. destruct (Hm s) as (Δ1 & E1 & W1).
  unfold adds, bind in *.
  destruct (m s) as [[a|e|c|] s1] eqn:Em; simpl in *; eauto.
  destruct (Hk a s1) as (Δ2 & E2 & W2). unfold adds in E2.
  exists (Δ2 ++ Δ1). rewrite E2, E1, app_assoc.
  split; [reflexivity | apply warned_app; assumption].
Qed.

Context `{Platform} (w : World).

(** A method of the client returns, having recorded no failure, or throws
    the error that it has just recorded. *)
Lemma api_call_outcome this method path body s :
  let m := api_call (request w this method path body) in
  exists Δ,
    adds m s Δ
    /\ ((exists a, (m s).1 = Ret a /\ Forall not_failure Δ)
        \/ (exists e Δ', (m s).1 = Throw e /\ Δ = EvApiFailed e :: Δ'
                         /\ Forall not_failure Δ')).
Proof.
  intros m. subst m.
  destruct (emits_request not_failure w this method path body
              ltac:(intros; exact I) s) as (Δ & E & F).
  assert (Hc : catchable (request w this method path body)).
  { unfold request. repeat catchable_step. }
  specialize (Hc s).
  unfold adds, api_call, try_catch in *.
  destruct (request w this method path body s) as [[a|e|c|] s1] eqn:Er;
    simpl in *; try contradiction.
  - exists Δ. split; [exact E|]. left. eauto.
  - exists (EvApiFailed e :: Δ). rewrite E. split; [reflexivity|].
    right. eauto.
Qed.

(** A check of [doctor]: a call of the client and what is done with its
    result, inside a [try] whose [catch] prints a warning. *)
Lemma reports_guarded this method path body (rest : json -> M unit)
  (h : js_error -> M unit) (warning : js_error -> output) :
  (forall x, reports_failures (rest x)) ->
  (forall e, h e = print (warning e)) ->
  (forall e, In (warning e) (doctor_warnings e)) ->
  reports_failures
    (try_catch (bind (api_call (request w this method path body)) rest) h).
Proof.
  intros Hrest Hh Hw s.
  destruct (api_call_outcome this method path body s) as (Δ1 & E1 & C1).
  unfold adds, try_catch, bind in *.
  destruct (api_call (request w this method path body) s) as [o s1] eqn:Ec.
  simpl in E1, C1.
  destruct C1 as [(a & -> & F1)|(e & Δ' & -> & -> & F')].
  - destruct (Hrest a s1) as (Δ2 & E2 & W2). unfold adds in E2.
    destruct (rest a s1) as [[[]|e|c|] s2] eqn:Er; simpl in *;
      try (exists (Δ2 ++ Δ1); rewrite E2, E1, app_assoc;
           split; [reflexivity | apply warned_app; auto using warned_clean]).
    rewrite Hh. unfold print, log_event. simpl.
    exists ((EvPrint (warning e) :: Δ2) ++ Δ1).
    rewrite E2, E1, <- app_assoc. split; [reflexivity|].
    apply warned_app; [|apply warned_clean, F1].
    intros e0 [Hin|Hin]; [discriminate|].
    destruct (W2 e0 Hin) as (o & Ho & Hp). exists o.
    split; [exact Ho | right; exact Hp].
  - rewrite Hh. unfold print, log_event. simpl.
    exists (EvPrint (warning e) :: EvApiFailed e :: Δ').
    rewrite E1. split; [reflexivity|].
    intros e0 [Hin|[Hin|Hin]]; [discriminate| |].
    + injection Hin as <-. exists (warning e).
      split; [apply Hw | left; reflexivity].
    + rewrite Forall_forall in F'. apply list_elem_of_In, F' in Hin.
      destruct Hin.
Qed.

End Warnings.

Ltac reports_step :=
  match goal with
  | |- Props.reports_failures
         (Runtime.try_catch (Runtime.bind (Api.api_call (Api.request _ _ _ _ _)) _) _) =>
      eapply reports_guarded;
      [ intros ?
      | intros ?; reflexivity
      | intros ?; unfold Props.doctor_warnings;
        repeat first [ left; reflexivity | right ] ]
  | |- Props.reports_failures _ => apply reports_clean; no_failure
  | |- Props.reports_failures (Runtime.bind _ _) => apply reports_bind; [| intros ?]
  | |- Props.reports_failures (if ?b then _ else _) => destruct b
  end.

Section DoctorWarnings.
Import JsString Js Validation Runtime Api Cli Props.
Local Open Scope monad_scope.
Context `{Platform} (w : World) (endpoint : string -> string * string)
  (format : string -> list json -> list output * option js_error).

(** Two checks of [doctor] and its last line: they run to the end, and
    every call that fails on the way is reported. *)
Lemma checks_complete (check1 check2 : M unit) s :
  returns check1 -> returns check2 ->
  reports_failures check1 -> reports_failures check2 ->
  exists Δ,
    (check1 ;; check2 ;; console_log "All checks completed!") s
    = (Ret tt,
       {| config_dir := config_dir ((check1 ;; check2) s).2;
          config_file := config_file ((check1 ;; check2) s).2;
          trace := EvPrint (ConsoleLog "All checks completed!")
                   :: Δ ++ trace s |})
    /\ warned Δ.
Proof.
  intros R1 R2 W1 W2.
  assert (R : returns (check1 ;; check2))
    by (apply returns_bind; [exact R1 | intros _; exact R2]).
  assert (W : reports_failures (check1 ;; check2))
    by (apply reports_bind; [exact W1 | intros _; exact W2]).
  destruct (R s) as [[] Hr]. destruct (W s) as (Δ & E & HΔ).
  unfold adds in E. exists Δ. split; [|exact HΔ].
  rewrite <- bind_assoc. unfold bind at 1.
  destruct ((check1 ;; check2) s) as [o s'] eqn:Ec. simpl in *. subst o.
  unfold console_log, print, log_event. rewrite E. reflexivity.
Qed.

Lemma doctor_reports_failures api s key status s1 :
  get_prop (stored_config s) "apiKey" = Some key ->
  truthy_val key = true ->
  getStatus w api (doctor_connection_check s) = (Ret status, s1) ->
  snd (format "doctor: connection" [ status ]) = None ->
  (doctor w endpoint format api s).1 = Ret tt
  /\ exists Δ,
       trace (doctor w endpoint format api s).2
       = EvPrint (ConsoleLog "All checks completed!") :: Δ ++ trace s
       /\ warned Δ.
Proof.
  intros Hget Hkey Hstatus Hshow.
  remember (doctor w endpoint format api s) as r eqn:Hr.
  unfold doctor in Hr. unfold bind at 1 in Hr.
  change (console_log ("🏥 Clawtick Health Check" +:+ nl) s)
    with (Ret tt, (console_log ("🏥 Clawtick Health Check" +:+ nl) s).2) in Hr.
  cbv iota beta in Hr. unfold bind at 1 in Hr. rewrite loadConfig_eq in Hr.
  cbv iota beta in Hr.
  change (stored_config (console_log _ s).2) with (stored_config s) in Hr.
  unfold bind at 1 in Hr. unfold get at 1 in Hr. rewrite Hget in Hr.
  unfold ret at 1 in Hr. cbv iota beta in Hr. rewrite Hkey in Hr.
  cbn [negb] in Hr.
  unfold bind at 1 in Hr. unfold ret at 1 in Hr. cbv iota beta in Hr.
  unfold bind at 1 in Hr. unfold console_log at 1, print, log_event in Hr.
  cbv iota beta in Hr.
  unfold bind at 1 in Hr. unfold spinner at 1, print, log_event in Hr.
  cbv iota beta in Hr.
  unfold bind at 1 in Hr. unfold try_catch at 1 in Hr.
  unfold bind at 1 in Hr.
  match type of Hr with
  | context [getStatus w api ?st] =>
      change (getStatus w api st)
        with (getStatus w api (doctor_connection_check s)) in Hr
  end.
  rewrite Hstatus in Hr. cbv iota beta in Hr.
  (* the connection check has recorded no failure *)
  assert (Hclean1 : exists Δ1, trace s1 = Δ1 ++ trace s /\ Forall not_failure Δ1).
  { unfold getStatus in Hstatus.
    destruct (api_call_outcome w api "GET" "/v1/status" undefined
                (doctor_connection_check s)) as (Δ & E & C).
    unfold adds in E. rewrite Hstatus in E, C. simpl in E, C.
    destruct C as [(a & _ & F)|(e & Δ' & [=] & _)].
    exists (Δ ++ [ EvPrint (Spinner Start "Checking API connection...");
                   EvPrint (ConsoleLog "✓ API key found");
                   EvPrint (ConsoleLog ("🏥 Clawtick Health Check" +:+ nl)) ]).
    rewrite E, <- app_assoc. split; [reflexivity|].
    apply Forall_app. split; [exact F | repeat constructor]. }
  destruct Hclean1 as (Δ1 & E1 & F1).
  assert (Hshow' : exists s2 Δ2,
             show format "doctor: connection" [status] s1 = (Ret tt, s2)
             /\ trace s2 = Δ2 ++ trace s1 /\ Forall not_failure Δ2).
  { destruct (show_returns format "doctor: connection" [status] s1 Hshow)
      as [s2 E2].
    assert (Hemit : emits_only not_failure
                      (show format "doctor: connection" [status]))
      by no_failure.
    destruct (Hemit s1) as (Δ2 & E & F). unfold adds in E.
    rewrite E2 in E. eauto. }
  destruct Hshow' as (s2 & Δ2 & E2 & T2 & F2).
  rewrite E2 in Hr. cbv iota beta in Hr.
  match type of Hr with
  | r = (Runtime.bind ?m1 (fun _ => Runtime.bind ?m2 (fun _ => _))) ?st =>
      destruct (checks_complete m1 m2 st) as (Δ & E & HΔ);
      [ unfold_api; unfold api_call, request, show, spinner, console_log;
        repeat returns_step
      | unfold_api; unfold api_call, request, show, spinner, console_log;
        repeat returns_step
      | unfold_api; repeat reports_step
      | unfold_api; repeat reports_step
      | ]
  end.
  rewrite E in Hr. subst r. split; [reflexivity|].
  exists (Δ ++ Δ2 ++ Δ1). cbn [snd trace]. rewrite T2, E1, <- !app_assoc.
  split; [reflexivity|].
  apply warned_app; [exact HΔ|].
  apply warned_clean, Forall_app. split; assumption.
Qed.

(** C8, amended.  For every command other than [doctor]: when a call of the
    API client fails, the process exits with status 1 and, after that
    failure, the command only prints; it issues no further request.
    [doctor] does the same when its first call, the connection check,
    fails.  Once that check has passed, a call of [doctor] that fails is
    caught and reported by a warning, and [doctor] goes on: it runs to its
    last line and returns, so the exit status is 0. *)
Theorem api_failure_is_terminal fuel cmd options dir file :
  let run := main w endpoint format fuel cmd options (initial dir file) in
  (cmd <> Doctor ->
   forall e, In (EvApiFailed e) (trace run.2) ->
     exit_status run.1 = Some 1 /\ failed_last (trace run.2))
  /\ (forall api s key e s1,
        get_prop (stored_config s) "apiKey" = Some key ->
        truthy_val key = true ->
        getStatus w api (doctor_connection_check s) = (Throw e, s1) ->
        doctor w endpoint format api s
        = (Exit 1,
           (spinner Fail ("API connection failed: " +:+ err_message e) s1).2))
  /\ (forall api s key status s1,
        get_prop (stored_config s) "apiKey" = Some key ->
        truthy_val key = true ->
        getStatus w api (doctor_connection_check s) = (Ret status, s1) ->
        snd (format "doctor: connection" [ status ]) = None ->
        (doctor w endpoint format api s).1 = Ret tt
        /\ exists Δ,
             trace (doctor w endpoint format api s).2
             = EvPrint (ConsoleLog "All checks completed!") :: Δ ++ trace s
             /\ warned Δ).
Proof.
  intros run.
  split; [|split; [apply doctor_connection_failure
                  | apply doctor_reports_failures]].
  intros Hcmd e Hin.
  assert (Hmain : terminal (main w endpoint format fuel cmd options)).
  { unfold main. apply terminal_bind.
    - apply terminal_clean. emits.
    - intros api. apply terminal_action. assumption. }
  destruct (Hmain (initial dir file)) as (Δ & E & C).
  unfold adds in E. cbn [initial trace] in E. rewrite app_nil_r in E.
  fold run in E, C. rewrite E in *.
  destruct C as [C|[C Hx]]; [|auto].
  rewrite Forall_forall in C. apply list_elem_of_In, C in Hin. destruct Hin.
Qed.

End DoctorWarnings.

(* ================================================================== *)
(** * What a refused request prints *)
(* ================================================================== *)

Section Refused.
Import JsString Js Validation Runtime Api Cli Props.
Local Open Scope monad_scope.
Context `{Platform} (w : World) (endpoint : string -> string * string)
  (format : string -> list json -> list output * option js_error).

(** The first call of a method of the client, when its request throws. *)
Lemma api_call_throws api method path body s e s1 :
  request w api method path body s = (Throw e, s1) ->
  api_call (request w api method path body) s
  = (Throw e, (log_event (EvApiFailed e) s1).2).
Proof. intros Hreq. unfold api_call, try_catch. rewrite Hreq. reflexivity. Qed.

(** A request that the server refuses with an error message, or that does
    not reach the server, throws the message. *)
Lemma request_throws api method path body s n e :
  truthy_val (apiKey api) = true ->
  fetch_count (trace s) = n ->
  (forall r,
     match server w n r with
     | FetchFailed msg => e = TypeError msg
     | Response status text =>
         res_ok status = false
         /\ exists msg, get_prop (res_json text) "error" = Some (Some (JStr msg))
                        /\ msg <> EmptyString /\ e = Error msg
     end) ->
  exists r,
    request w api method path body s
    = (Throw e, (log_event (EvFetch r) s).2).
Proof.
  intros Hkey Hn Hserver. unfold request. rewrite Hkey. cbn [negb].
  eexists. unfold bind, fetch. rewrite Hn.
  match goal with
  | |- context [server w n ?r] =>
      specialize (Hserver r); destruct (server w n r) as [msg|status text]
  end.
  - subst e. reflexivity.
  - destruct Hserver as (Hok & msg & Hget & Hne & ->).
    cbv iota beta. cbn [fst snd]. rewrite Hok. cbn [negb].
    unfold get. rewrite Hget. unfold ret, throw. cbv iota beta.
    cbn [truthy_val truthy]. destruct msg; [congruence|]. reflexivity.
Qed.

Lemma first_call_fails api method path body s n e :
  truthy_val (apiKey api) = true ->
  fetch_count (trace s) = n ->
  (forall r,
     match server w n r with
     | FetchFailed msg => e = TypeError msg
     | Response status text =>
         res_ok status = false
         /\ exists msg, get_prop (res_json text) "error" = Some (Some (JStr msg))
                        /\ msg <> EmptyString /\ e = Error msg
     end) ->
  exists r,
    api_call (request w api method path body) s
    = (Throw e, (log_event (EvApiFailed e) (log_event (EvFetch r) s).2).2).
Proof.
  intros Hkey Hn Hserver.
  destruct (request_throws api method path body s n e Hkey Hn Hserver)
    as [r Hr].
  exists r. apply api_call_throws, Hr.
Qed.

(** X19.  When the server refuses the first request of a command that goes
    straight to the API, with a status that is not 2xx and an [error]
    message in the body, the command prints exactly that message and exits
    with status 1; when the request does not reach the server it prints the
    message of the network error instead.  One request has been sent. *)
Theorem server_error_surfaced fuel api cmd options s e :
  truthy_val (apiKey api) = true ->
  api_command cmd = true ->
  (forall r,
     match server w (fetch_count (trace s)) r with
     | FetchFailed msg => e = TypeError msg
     | Response status text =>
         ~ 200 <= status <= 299
         /\ exists msg, get_prop (res_json text) "error" = Some (Some (JStr msg))
                        /\ msg <> EmptyString /\ e = Error msg
     end) ->
  let run := action w endpoint format fuel api cmd options s in
  run.1 = Exit 1
  /\ exists r start,
       trace run.2
       = [ EvPrint (Spinner Fail (err_message e));
           EvApiFailed e;
           EvFetch r;
           EvPrint (Spinner Start start) ] ++ trace s.
Proof.
  intros Hkey Hcmd Hserver run. subst run.
  assert (Hserver' : forall r,
            match server w (fetch_count (trace s)) r with
            | FetchFailed msg => e = TypeError msg
            | Response status text =>
                res_ok status = false
                /\ exists msg,
                     get_prop (res_json text) "error" = Some (Some (JStr msg))
                     /\ msg <> EmptyString /\ e = Error msg
            end).
  { intros r. specialize (Hserver r).
    destruct (server w _ r) as [msg|status text]; [exact Hserver|].
    destruct Hserver as [Hnok Hmsg]. split; [|exact Hmsg].
    destruct (res_ok status) eqn:Hok; [|reflexivity].
    apply res_ok_iff in Hok. contradiction. }
  assert (Hcall : forall method path body s',
            fetch_count (trace s') = fetch_count (trace s) ->
            exists r,
              api_call (request w api method path body) s'
              = (Throw e,
                 (log_event (EvApiFailed e) (log_event (EvFetch r) s').2).2)).
  { intros method path body s' Hcount.
    apply (first_call_fails api method path body _ (fetch_count (trace s)));
      [exact Hkey | exact Hcount | exact Hserver']. }
  destruct cmd; try discriminate Hcmd; simpl;
    unfold_cli; unfold_api; unfold bind, try_catch; simpl;
    try (destruct (opt_sync options); simpl);
    match goal with
    | |- context [api_call (request w api ?m ?p ?b) ?s'] =>
        destruct (Hcall m p b s' eq_refl) as [r Hr];
        rewrite Hr; simpl;
        (split; [reflexivity | exists r; eexists; reflexivity])
    end.
Qed.

End Refused.

(* ================================================================== *)
(** * Further examples on the concrete runtime *)
(* ================================================================== *)

Section MoreExamples.
Import JsString Js Validation Runtime Api Cli Props.
Local Open Scope monad_scope.

(** Minute 99 of hour 99 passes the validator. *)
Lemma cron_plain_fields_accepted_witness :
  validateCronExpression "99 99 99 99 99" = accept.
Proof.
  assert (Hparts : split_ws (trim "99 99 99 99 99")
                   = [ "99"; "99"; "99"; "99"; "99" ]%string)
    by (vm_compute; reflexivity).
  apply cron_plain_fields_accepted; rewrite Hparts.
  - vm_compute. split; discriminate.
  - repeat (apply List.Forall_cons;
            [right; right; split; [discriminate | reflexivity] |]).
    apply List.Forall_nil.
Defined.

(** Every quarter of an hour, as usually written, is rejected. *)
Lemma cron_star_step_rejected_witness :
  valid (validateCronExpression "*/15 * * * *") = false.
Proof.
  apply (cron_star_step_rejected "*/15 * * * *" "15").
  left. reflexivity.
Defined.

(** [clawtick status] on a machine without a config file. *)
Lemma no_key_no_request_witness :
  (main (H:=Demo.platform) Demo.run_succeeds Demo.endpoint Demo.format 151
     Status no_options (initial false None)).1 = Exit 1.
Proof.
  destruct (no_key_no_request (H:=Demo.platform) Demo.run_succeeds
              Demo.endpoint Demo.format 151 Status no_options false None
              (Some (JStr "")))
    as (_ & Hexit & _).
  - reflexivity.
  - reflexivity.
  - apply Hexit. reflexivity.
Defined.

(** The one request of [clawtick status] with the demo config. *)
Lemma requests_carry_stored_key_witness :
  let r := {| req_method := "GET";
              req_url := "https://api.clawtick.com/v1/status";
              req_authorization := "Bearer cp_demo_key";
              req_body := None |} in
  exists url key,
    get_prop (stored_config (H:=Demo.platform)
                (initial true (Some Demo.config_text))) "apiUrl" = Some url
    /\ get_prop (stored_config (H:=Demo.platform)
                   (initial true (Some Demo.config_text))) "apiKey" = Some key
    /\ truthy_val key = true
    /\ req_authorization r = "Bearer " +:+ template (H:=Demo.platform) key
    /\ exists path,
         req_url r = template (H:=Demo.platform) url +:+ path
         /\ (calls_missing_method Status = false ->
             exists rest, path = "/v1/" +:+ rest).
Proof.
  intros r.
  apply (requests_carry_stored_key (H:=Demo.platform) Demo.over_quota
           Demo.endpoint Demo.format 151 Status no_options true
           (Some Demo.config_text) r).
  vm_compute. right. right. left. reflexivity.
Defined.

(** The first [login] on a machine without a config file. *)
Lemma saveConfig_fills_defaults_witness :
  exists s1 s2,
    saveConfig (H:=Demo.platform) (JObj {[ "apiKey" := JStr "cp_new_key" ]})
      (initial false None) = (Ret tt, s1)
    /\ loadConfig (H:=Demo.platform) s1
       = (Ret (obj [ ("apiUrl", JStr "https://api.clawtick.com");
                     ("apiKey", JStr "cp_new_key") ]), s2).
Proof.
  destruct (saveConfig_fills_defaults (H:=Demo.platform) (initial false None)
              {[ "apiKey" := JStr "cp_new_key" ]})
    as (s1 & s2 & Hsave & Hload & _).
  - left. reflexivity.
  - vm_compute. reflexivity.
  - exists s1, s2. split; [exact Hsave|]. rewrite Hload.
    vm_compute. reflexivity.
Defined.

(** Logging out twice. *)
Lemma saveConfig_idempotent_witness :
  let s := initial true (Some Demo.config_text) in
  let s1 := (saveConfig (H:=Demo.platform)
               (JObj {[ "apiKey" := JStr "" ]}) s).2 in
  config_file
    (saveConfig (H:=Demo.platform) (JObj {[ "apiKey" := JStr "" ]}) s1).2
  = config_file s1.
Proof.
  intros s s1.
  destruct (saveConfig_idempotent (H:=Demo.platform) s
              {[ "apiKey" := JStr "" ]}) as (_ & Hsame & _).
  - vm_compute. reflexivity.
  - exact Hsame.
Defined.

(** [login --key cp_new_key] over the demo config. *)
Lemma login_then_authenticated_witness :
  exists api,
    stored_client (H:=Demo.platform)
      (login (H:=Demo.platform) Demo.run_succeeds Demo.login_with_key
         (initial true (Some Demo.config_text))).2 = Some api
    /\ apiKey api = Some (JStr "cp_new_key").
Proof.
  destruct (login_then_authenticated (H:=Demo.platform) Demo.run_succeeds
              Demo.login_with_key "cp_new_key"
              (initial true (Some Demo.config_text)))
    as (_ & _ & api & Hclient & Hkey & _).
  - reflexivity.
  - reflexivity.
  - vm_compute. reflexivity.
  - exists api. split; [exact Hclient | exact Hkey].
Defined.

(** [logout], then [status]. *)
Lemma logout_then_unauthenticated_witness :
  (main (H:=Demo.platform) Demo.run_succeeds Demo.endpoint Demo.format 151
     Status no_options
     (logout (H:=Demo.platform) (initial true (Some Demo.config_text))).2).1
  = Exit 1.
Proof.
  destruct (logout_then_unauthenticated (H:=Demo.platform) Demo.run_succeeds
              Demo.endpoint Demo.format
              (initial true (Some Demo.config_text)) 151 Status no_options)
    as (_ & _ & Hexit).
  - vm_compute. reflexivity.
  - apply Hexit. reflexivity.
Defined.

(** [jobs update <id>] with no option at all. *)
Lemma jobs_update_nothing_to_do_witness :
  jobs_update (H:=Demo.platform) Demo.run_succeeds Demo.client Demo.job_id
    no_options (initial true (Some Demo.config_text))
  = console_error "No updates provided. Use --help for options."
      (initial true (Some Demo.config_text)).
Proof.
  apply jobs_update_nothing_to_do. repeat split; reflexivity.
Defined.

(** The second of two jobs is found. *)
Lemma find_job_first_match_witness :
  let first := obj [ ("id", JStr "1767225600000-a") ] in
  let second := obj [ ("id", JStr "1767225600000-b") ] in
  find_job (obj [ ("jobs", JArr [ first; second ]) ]) "1767225600000-b"
    (initial true None)
  = (Ret (Some second), initial true None).
Proof.
  intros first second.
  destruct (find_job_first_match (obj [ ("jobs", JArr [ first; second ]) ])
              "1767225600000-b" [ first; second ] (initial true None))
    as [Hfound _]; [reflexivity|].
  apply (Hfound [ first ] second []); [reflexivity | |].
  - repeat constructor. eexists. split; [reflexivity|]. reflexivity.
  - eexists. split; [reflexivity|]. reflexivity.
Defined.

(** [jobs inspect] for a job that the account does not have. *)
Lemma jobs_inspect_not_found_witness :
  (jobs_inspect (H:=Demo.platform) Demo.one_job Demo.format Demo.client
     "1767225600000-zzzz" (initial true (Some Demo.config_text))).1 = Exit 1.
Proof.
  set (s := initial true (Some Demo.config_text)).
  set (res := listJobs (H:=Demo.platform) Demo.one_job Demo.client
                (spinner Start "Fetching job details..." s).2).
  set (data := obj [ ("jobs", JArr [ obj [ ("id", JStr Demo.job_id);
                                           ("failCount", JNum 0) ] ]) ]).
  rewrite (jobs_inspect_not_found (H:=Demo.platform) Demo.one_job Demo.format
             Demo.client "1767225600000-zzzz" s data res.2).
  - reflexivity.
  - vm_compute. reflexivity.
  - right. eexists. split; [reflexivity|].
    repeat constructor. eexists. split; [reflexivity|]. reflexivity.
Defined.

(** [jobs create --integration webhook] without [--webhook-url]. *)
Lemma jobs_create_webhook_requires_witness :
  (jobs_create (H:=Demo.platform) Demo.run_succeeds Demo.format Demo.client
     Demo.webhook_without_url (initial true (Some Demo.config_text))).1
  = Exit 1.
Proof.
  destruct (jobs_create_webhook_requires (H:=Demo.platform) Demo.run_succeeds
              Demo.format Demo.client Demo.webhook_without_url
              "0 9 * * *" "Daily report"
              (initial true (Some Demo.config_text))) as [Hexit _];
    [ reflexivity | reflexivity | reflexivity
    | intros i [= <-] _; reflexivity
    | reflexivity | reflexivity
    | intros n [=]
    | left; reflexivity
    | exact Hexit ].
Defined.

(** [doctor] while the quota request gets a 500. *)
Lemma doctor_completes_witness :
  (doctor (H:=Demo.platform) Demo.quota_check_fails Demo.endpoint Demo.format
     Demo.client (initial true (Some Demo.config_text))).1 = Ret tt.
Proof.
  set (s := initial true (Some Demo.config_text)).
  set (res := getStatus (H:=Demo.platform) Demo.quota_check_fails Demo.client
                (doctor_connection_check s)).
  destruct (doctor_completes (H:=Demo.platform) Demo.quota_check_fails
              Demo.endpoint Demo.format Demo.client s
              (Some (JStr "cp_demo_key"))
              (obj [ ("plan", JStr "free");
                     ("jobs", obj [ ("enabled", JNum 1); ("total", JNum 1) ]) ])
              res.2) as [Hret _].
  - reflexivity.
  - reflexivity.
  - vm_compute. reflexivity.
  - reflexivity.
  - exact Hret.
Defined.

(** [clawtick status] while the server answers 429 with a message. *)
Lemma server_error_surfaced_witness :
  let run := action (H:=Demo.platform) Demo.over_quota Demo.endpoint
               Demo.format 151 Demo.client Status no_options
               (initial true (Some Demo.config_text)) in
  run.1 = Exit 1
  /\ In (EvPrint (Spinner Fail "Monthly trigger quota exceeded")) (trace run.2).
Proof.
  intros run.
  destruct (server_error_surfaced (H:=Demo.platform) Demo.over_quota
              Demo.endpoint Demo.format 151 Demo.client Status no_options
              (initial true (Some Demo.config_text))
              (Error "Monthly trigger quota exceeded"))
    as (Hexit & r & start & Htrace).
  - reflexivity.
  - reflexivity.
  - intros r. split; [vm_compute; intros [? ?]; congruence|].
    exists "Monthly trigger quota exceeded"%string.
    split; [vm_compute; reflexivity|]. split; [discriminate | reflexivity].
  - split; [exact Hexit|]. subst run. rewrite Htrace. left. reflexivity.
Defined.

(** [jobs create --cron "every day" --message "Daily report"]: the cron
    validator counts two fields and rejects; the command prints its
    message and exits with status 1, and no request has been made. *)
Lemma validation_precedes_requests_witness :
  let run := main (H := Demo.platform) Demo.over_quota Demo.endpoint
               Demo.format 0 JobsCreate Demo.bad_cron_options
               (initial true (Some Demo.config_text)) in
  let r := validateCronExpression "every day" in
  ascii_options Demo.bad_cron_options
  /\ first_rejected (checks (H := Demo.platform) JobsCreate Demo.bad_cron_options)
     = Some r
  /\ r = reject (cronFieldCountError 2)
  /\ run.1 = Exit 1
  /\ Forall Props.not_fetch (trace run.2)
  /\ exists older,
       trace run.2
       = EvPrint (ConsoleError ("❌ " +:+ cronFieldCountError 2)) :: older.
Proof.
  intros run r.
  assert (Hascii : ascii_options Demo.bad_cron_options).
  { unfold ascii_options.
    repeat constructor; intros s [= <-]; reflexivity || discriminate. }
  assert (Hr : first_rejected
                 (checks (H := Demo.platform) JobsCreate Demo.bad_cron_options)
               = Some r) by (vm_compute; reflexivity).
  split; [exact Hascii|]. split; [exact Hr|].
  split; [vm_compute; reflexivity|].
  destruct (validation_precedes_requests (H := Demo.platform) Demo.over_quota
              Demo.endpoint Demo.format 0 JobsCreate Demo.bad_cron_options
              true (Some Demo.config_text)) as [_ Hgate].
  destruct (Hgate r Hascii Hr) as (_ & Hquiet & Hstop).
  destruct Hstop as (Hexit & _); [vm_compute; discriminate|].
  split; [exact Hexit|]. split; [exact Hquiet|].
  eexists. vm_compute. reflexivity.
Defined.

(** [clawtick status] refused by the server: the failure is the last thing
    that happens and the exit status is 1.  [clawtick doctor] while the
    quota request gets a 500: the failure is reported by the quota warning
    and the command returns. *)
Lemma api_failure_is_terminal_witness :
  let refused := main (H:=Demo.platform) Demo.over_quota Demo.endpoint
                   Demo.format 151 Status no_options
                   (initial true (Some Demo.config_text)) in
  let checked := doctor (H:=Demo.platform) Demo.quota_check_fails
                   Demo.endpoint Demo.format Demo.client
                   (initial true (Some Demo.config_text)) in
  exit_status refused.1 = Some 1
  /\ checked.1 = Ret tt
  /\ exists Δ,
       trace checked.2 = EvPrint (ConsoleLog "All checks completed!") :: Δ
       /\ warned Δ.
Proof.
  intros refused checked.
  destruct (api_failure_is_terminal (H:=Demo.platform) Demo.over_quota
              Demo.endpoint Demo.format 151 Status no_options
              true (Some Demo.config_text)) as (Hterminal & _ & _).
  destruct (api_failure_is_terminal (H:=Demo.platform) Demo.quota_check_fails
              Demo.endpoint Demo.format 151 Doctor no_options
              true (Some Demo.config_text)) as (_ & _ & Hdoctor).
  split.
  - destruct (Hterminal ltac:(discriminate)
                (Error "Monthly trigger quota exceeded")) as [Hexit _];
      [vm_compute; right; left; reflexivity | exact Hexit].
  - set (s := initial true (Some Demo.config_text)).
    set (res := getStatus (H:=Demo.platform) Demo.quota_check_fails
                  Demo.client (doctor_connection_check s)).
    destruct (Hdoctor Demo.client s (Some (JStr "cp_demo_key"))
                (obj [ ("plan", JStr "free");
                       ("jobs", obj [ ("enabled", JNum 1);
                                      ("total", JNum 1) ]) ])
                res.2) as (Hret & Δ & Htrace & Hwarned);
      [ reflexivity | reflexivity | vm_compute; reflexivity | reflexivity | ].
    split; [exact Hret|]. exists Δ. split; [|exact Hwarned].
    subst checked. fold s. rewrite Htrace. cbn [s initial trace].
    rewrite app_nil_r. reflexivity.
Defined.

(** Every weekday at nine. *)
Lemma validateCronExpression_accepts_witness :
  valid (validateCronExpression "0 9 * * 1-5") = true.
Proof.
  assert (Hparts : split_ws (trim "0 9 * * 1-5")
                   = [ "0"; "9"; "*"; "*"; "1-5" ]%string)
    by (vm_compute; reflexivity).
  apply (proj2 (validateCronExpression_accepts "0 9 * * 1-5" eq_refl)).
  rewrite Hparts. split; [vm_compute; discriminate|].
  split; [vm_compute; split; discriminate|].
  repeat (apply List.Forall_cons;
          [right; apply test_Matches; vm_compute; reflexivity |]).
  apply List.Forall_nil.
Defined.

(** A name with spaces around it. *)
Lemma job_name_accepted_exactly_witness :
  valid (validateJobName "  nightly_backup-2 ") = true.
Proof.
  apply (proj2 (job_name_accepted_exactly "  nightly_backup-2 " eq_refl)).
  vm_compute. repeat split; discriminate.
Defined.

Lemma bounded_text_accepts_witness :
  valid (validateMessage "Daily report") = true
  /\ valid (validateAgentId "main") = true
  /\ valid (validateWebhookBody "{{message}}") = true.
Proof.
  split; [|split].
  - apply (proj2 (proj1 (bounded_text_accepts "Daily report" eq_refl))).
    vm_compute. split; discriminate.
  - apply (proj2 (proj1 (proj2 (bounded_text_accepts "main" eq_refl)))).
    vm_compute. split; discriminate.
  - apply (proj2 (proj2 (proj2 (bounded_text_accepts "{{message}}" eq_refl)))).
    vm_compute. split; discriminate.
Defined.

Lemma listed_value_accepts_witness :
  valid (validateChannel " Telegram ") = true
  /\ valid (validateIntegrationType "WebHook") = true
  /\ valid (validateWebhookMethod "post") = true.
Proof.
  split; [|split].
  - apply (proj2 (proj1 (listed_value_accepts " Telegram " eq_refl))).
    vm_compute. right. left. reflexivity.
  - apply (proj2 (proj1 (proj2 (listed_value_accepts "WebHook" eq_refl)))).
    split; [discriminate|]. vm_compute. right. left. reflexivity.
  - apply (proj2 (proj2 (proj2 (listed_value_accepts "post" eq_refl)))).
    split; [discriminate|]. vm_compute. right. left. reflexivity.
Defined.

Lemma phone_number_accepted_exactly_witness :
  valid (validatePhoneNumber "+15555551234") = true.
Proof.
  apply (proj2 (phone_number_accepted_exactly "+15555551234" eq_refl)).
  exists "1"%char, "5555551234"%string.
  split; [vm_compute; reflexivity|]. split; [reflexivity|].
  split; [reflexivity|]. simpl. lia.
Defined.

Lemma chat_id_accepted_exactly_witness :
  valid (validateTelegramChatId "-1001234567890") = true.
Proof.
  apply (proj2 (chat_id_accepted_exactly "-1001234567890" eq_refl)).
  exists "1001234567890"%string.
  split; [right; vm_compute; reflexivity|].
  split; [discriminate | reflexivity].
Defined.

Lemma job_id_accepted_exactly_witness :
  valid (validateJobId "1767225600000-k3x9") = true.
Proof.
  apply (proj2 (job_id_accepted_exactly "1767225600000-k3x9" eq_refl)).
  exists "1767225600000"%string, "k3x9"%string.
  split; [vm_compute; reflexivity|].
  repeat split; discriminate || reflexivity.
Defined.

Lemma validateWebhookUrl_accepts_witness :
  valid (validateWebhookUrl (H:=Demo.platform) "https://example.com/hook")
  = true.
Proof.
  apply (proj2 (validateWebhookUrl_accepts (H:=Demo.platform)
                  "https://example.com/hook" eq_refl)).
  split; [vm_compute; discriminate|]. right. vm_compute. reflexivity.
Defined.

Lemma validateWebhookHeaders_accepts_witness :
  valid (validateWebhookHeaders (H:=Demo.platform) Demo.headers_text) = true.
Proof.
  apply (proj2 (validateWebhookHeaders_accepts (H:=Demo.platform)
                  Demo.headers_text eq_refl)).
  split; [vm_compute; discriminate|].
  exists {[ "Authorization" := JStr "Bearer token" ]}.
  split; [vm_compute; reflexivity|].
  intros k v Hkv. apply lookup_singleton_Some in Hkv as [_ <-]. eauto.
Defined.
End MoreExamples.
